(** * setvar: the variable store engine, embedded and verified

    A shallow embedding of [setvar.py]: the assignment codec
    ([parse_export_line], [format_export_line]), the configuration file
    accessor, the shell registry, the variable store (merge, update,
    remove, set), the sync engine and the backup archive, followed by the
    theorems that settle the properties stated for them.

    Modelling conventions.
    - A Python [str] is a list of Unicode code points ([N]).  [lit] turns
      a Rocq string literal into such a list.
    - The file system is a finite map from the paths of the regular
      files to their content.  The content is the text that the bytes of
      the file decode to in UTF-8, the encoding of the locale; a content
      with a code point that is no Unicode scalar value stands for bytes
      that do not decode.  Files are read in text mode with universal
      newlines, as [open(path, 'r')] does, and written without
      translation (POSIX).
    - Reading fails on a file that does not decode; [read_config_file]
      answers it, as it answers every error, with no line at all.
    - Writing fails in two ways.  Opening a path of [unwritable] for
      writing raises, and the file stays as it is.  A line that UTF-8
      cannot encode raises when its turn comes, and the file is left with
      the lines before it.  [update_variable_in_file] and
      [remove_variable_from_file] answer both with [False];
      [restore_backup] stops at the first target it cannot write.
    - The archiver fails when the archive cannot be opened for writing,
      which leaves no archive behind.
    - What is assumed of the environment: a regular file can be read; a
      candidate configuration file that does not exist can be created
      ([Path.touch] does not raise); the paths of configuration files
      and of restore targets are no directories.
    - Zip archives live beside the regular files, in a map of their own.
      The directories are a set of paths, which [Path(backup_id).exists()]
      looks at; [Path(p).name] is the text after the last slash of [p].
    - The clock, the archiver and the user who answers the confirmation
      prompt are fields of the world; [Path.home()] and [fnmatch.fnmatch]
      are parameters of the engine.
    - Log and console output is not modelled. *)

From stdpp Require Import gmap list option strings.
From Stdlib Require Import NArith Ascii Lia.

Local Open Scope N_scope.

(** ** Characters and strings *)

Abbreviation str := (list N).

(** [lit "abc"] is the Python string ['abc']. *)
Definition lit (s : string) : str :=
  (fun a => N_of_ascii a) <$> String.list_ascii_of_string s.

Definition LF : N := 10.
Definition CR : N := 13.
Definition TAB : N := 9.
Definition DQUOTE : N := 34.
Definition SQUOTE : N := 39.
Definition BACKSLASH : N := 92.
Definition EQUALS : N := 61.

(** [str.isspace] on one code point, which is also what [\s] matches in a
    [str] pattern: U+0009..000D, U+001C..0020, U+0085, U+00A0, U+1680,
    U+2000..200A, U+2028, U+2029, U+202F, U+205F, U+3000. *)
Definition is_space (c : N) : bool :=
  ((9 <=? c) && (c <=? 13)) || ((28 <=? c) && (c <=? 32))
  || (c =? 133) || (c =? 160) || (c =? 5760)
  || ((8192 <=? c) && (c <=? 8202))
  || (c =? 8232) || (c =? 8233) || (c =? 8239) || (c =? 8287)
  || (c =? 12288).

(** [[A-Za-z_]] *)
Definition is_ident_start (c : N) : bool :=
  ((65 <=? c) && (c <=? 90)) || ((97 <=? c) && (c <=? 122)) || (c =? 95).

(** [[A-Za-z0-9_]] *)
Definition is_ident_char (c : N) : bool :=
  is_ident_start c || ((48 <=? c) && (c <=? 57)).

Definition not_LF (c : N) : bool := negb (c =? LF).

(** A Unicode scalar value: a code point up to U+10FFFF that is no
    surrogate.  These are the code points that UTF-8 encodes. *)
Definition is_scalar (c : N) : bool :=
  (c <? 55296) || ((57343 <? c) && (c <? 1114112)).

(** [s.encode()] does not raise. *)
Definition encodable (s : str) : bool := forallb is_scalar s.

Fixpoint takewhile {A} (p : A -> bool) (l : list A) : list A :=
  match l with
  | x :: r => if p x then x :: takewhile p r else []
  | [] => []
  end.

Fixpoint dropwhile {A} (p : A -> bool) (l : list A) : list A :=
  match l with
  | x :: r => if p x then dropwhile p r else l
  | [] => []
  end.

(** [s.strip()] *)
Definition lstrip (s : str) : str := dropwhile is_space s.
Definition rstrip (s : str) : str := reverse (dropwhile is_space (reverse s)).
Definition strip (s : str) : str := rstrip (lstrip s).

(** [s.startswith(c)], [s.endswith(c)] for a one-character [c] *)
Definition startswith (c : N) (s : str) : bool :=
  match s with x :: _ => x =? c | [] => false end.
Definition endswith (c : N) (s : str) : bool :=
  match last s with Some x => x =? c | None => false end.

(** [s[1:-1]] *)
Definition slice_1_m1 (s : str) : str := removelast (tail s).

(** [c in s] *)
Definition contains (c : N) (s : str) : bool := existsb (N.eqb c) s.

(** ** Assignment codec *)

Module Re.
(** The two regular expressions of [parse_export_line] and the one of
    [set_variable], matched the way [re.match] does.  Every greedy
    repetition in them is followed by an atom that none of the repeated
    characters can match, so the leftmost-longest scan below is the
    match [re] finds. *)

(** a literal *)
Fixpoint literal (pat s : str) : option str :=
  match pat, s with
  | [], _ => Some s
  | p :: pat', c :: s' => if p =? c then literal pat' s' else None
  | _ :: _, [] => None
  end.

(** [\s*] *)
Definition spaces0 (s : str) : str := dropwhile is_space s.

(** [\s+] *)
Definition spaces1 (s : str) : option str :=
  match s with
  | c :: r => if is_space c then Some (dropwhile is_space r) else None
  | [] => None
  end.

(** the group NAME, which is [[A-Za-z_][A-Za-z0-9_]*] in parentheses:
    the text of the group and the rest of the input *)
Definition ident (s : str) : option (str * str) :=
  match s with
  | c :: r =>
      if is_ident_start c
      then Some (c :: takewhile is_ident_char r, dropwhile is_ident_char r)
      else None
  | [] => None
  end.

(** [$]: at the end of the string, or just before a newline that ends it *)
Definition at_end (s : str) : bool :=
  match s with
  | [] => true
  | [c] => c =? LF
  | _ => false
  end.

(** the group REST, which is [.*] in parentheses, followed by [$];
    [.] is any character but a newline *)
Definition rest (s : str) : option str :=
  if at_end (dropwhile not_LF s) then Some (takewhile not_LF s) else None.

(** [NAME=REST$] *)
Definition assignment (s : str) : option (str * str) :=
  '(name, s1) ← ident s;
  s2 ← literal [EQUALS] s1;
  value ← rest s2;
  Some (name, value).

(** [^\s*export\s+NAME=REST$], the first pattern *)
Definition export_form (line : str) : option (str * str) :=
  s1 ← literal (lit "export") (spaces0 line);
  s2 ← spaces1 s1;
  assignment s2.

(** [^\s*NAME=REST$], the second pattern *)
Definition bare_form (line : str) : option (str * str) :=
  assignment (spaces0 line).

(** [^[A-Za-z_][A-Za-z0-9_]*$], the name check of [set_variable] *)
Definition identifier (s : str) : bool :=
  match ident s with
  | Some (_, s1) => at_end s1
  | None => false
  end.
End Re.

(** Remove quotes if present. *)
Definition strip_quotes (value : str) : str :=
  if (startswith DQUOTE value && endswith DQUOTE value)
     || (startswith SQUOTE value && endswith SQUOTE value)
  then slice_1_m1 value
  else value.

Definition patterns : list (str -> option (str * str)) :=
  [Re.export_form; Re.bare_form].

Fixpoint parse_with (pats : list (str -> option (str * str))) (line : str)
  : option (str * str) :=
  match pats with
  | [] => None
  | pattern :: pats' =>
      match pattern line with
      | Some (name, group2) => Some (name, strip_quotes (strip group2))
      | None => parse_with pats' line
      end
  end.

Definition parse_export_line (line : str) : option (str * str) :=
  parse_with patterns line.

(** The characters that make [format_export_line] quote a value. *)
Definition special_chars : str :=
  lit " " ++ [TAB] ++ lit "$`" ++ [DQUOTE; SQUOTE; BACKSLASH]
  ++ lit "!*?[](){}<>|&;".

Definition needs_quotes (value : str) : bool :=
  existsb (fun c => contains c value) special_chars.

(** [value.replace('"', '\\"')] *)
Definition escape_quotes (value : str) : str :=
  flat_map (fun c => if c =? DQUOTE then [BACKSLASH; DQUOTE] else [c]) value.

Definition format_export_line (name value : str) : str :=
  if needs_quotes value
  then lit "export " ++ name ++ [EQUALS; DQUOTE] ++ escape_quotes value
         ++ [DQUOTE; LF]
  else lit "export " ++ name ++ [EQUALS] ++ value ++ [LF].

(** ** Dictionaries

    A Python [dict]: keys are unique and keep the order of their first
    insertion. *)

Abbreviation dict K V := (list (K * V)).

Section Dict.
Context {K V : Type} `{EqDecision K}.

(** [d[k] = v] *)
Fixpoint dict_set (k : K) (v : V) (d : dict K V) : dict K V :=
  match d with
  | [] => [(k, v)]
  | (k', v') :: d' =>
      if decide (k' = k) then (k, v) :: d' else (k', v') :: dict_set k v d'
  end.

(** [d.get(k)] *)
Fixpoint dict_get (k : K) (d : dict K V) : option V :=
  match d with
  | [] => None
  | (k', v') :: d' => if decide (k' = k) then Some v' else dict_get k d'
  end.

(** [k in d] *)
Definition dict_has (k : K) (d : dict K V) : bool :=
  match dict_get k d with Some _ => true | None => false end.

(** [d.update(other)] *)
Definition dict_update (d other : dict K V) : dict K V :=
  foldl (fun acc kv => dict_set kv.1 kv.2 acc) d other.
End Dict.

(** ** The world outside the program *)

Definition SLASH : N := 47.

(** [metadata.json] of an archive *)
Record metadata := Metadata {
  md_timestamp : str;
  md_files : list str;
  md_message : str;
}.

(** A zip archive: the entries written with [zf.write], in order, and the
    metadata entry when there is one. *)
Record archive := Archive {
  arc_entries : list (str * str);
  arc_metadata : option metadata;
}.

Record world := World {
  files : gmap str str;            (** regular files: path to content *)
  archives : dict str archive;     (** zip archives, in directory order *)
  clock : str;                     (** [datetime.now().strftime(...)] *)
  zip_fails : bool;                (** opening a new archive raises *)
  answers_yes : bool;              (** the reply to a confirmation prompt *)
  unwritable : gset str;           (** paths that [open(p, 'w')] refuses *)
  directories : gset str;          (** the directories *)
}.

Definition with_files (f : gmap str str) (w : world) : world :=
  World f (archives w) (clock w) (zip_fails w) (answers_yes w)
        (unwritable w) (directories w).

Definition with_archives (a : dict str archive) (w : world) : world :=
  World (files w) a (clock w) (zip_fails w) (answers_yes w)
        (unwritable w) (directories w).

(** [Path(p).exists()] for the path of a regular file *)
Definition file_exists (w : world) (p : str) : bool :=
  match files w !! p with Some _ => true | None => false end.

(** [Path(p).exists()] for any path: a regular file, an archive or a
    directory; [Path('')] is the current directory. *)
Definition path_exists (w : world) (p : str) : bool :=
  bool_decide (p = []) || file_exists w p || dict_has p (archives w)
  || bool_decide (p ∈ directories w).

(** [d / name] *)
Definition joinpath (d name : str) : str := d ++ [SLASH] ++ name.

(** [Path(p).name]: the last component of [p] *)
Definition basename (p : str) : str :=
  reverse (takewhile (fun c => negb (c =? SLASH)) (reverse p)).

(** Text mode with universal newlines: ["\r\n"] and ["\r"] are read as
    ["\n"]. *)
Fixpoint universal_newlines (s : str) : str :=
  match s with
  | [] => []
  | c :: r =>
      if c =? CR then
        match r with
        | d :: r' =>
            if d =? LF then LF :: universal_newlines r'
            else LF :: universal_newlines r
        | [] => [LF]
        end
      else c :: universal_newlines r
  end.

(** Cut a text into lines, each with its terminator. *)
Fixpoint split_lines (s : str) : list str :=
  match s with
  | [] => []
  | c :: r =>
      if c =? LF then [LF] :: split_lines r
      else match split_lines r with
           | [] => [[c]]
           | l :: ls => (c :: l) :: ls
           end
  end.

(** [f.readlines()] on a file opened with [open(path, 'r')] *)
Definition readlines (content : str) : list str :=
  split_lines (universal_newlines content).

(** The program object: [self.config_dir], [self.backup_enabled],
    [self.dry_run]. *)
Record SetVar := {
  config_dir : str;
  backup_enabled : bool;
  dry_run : bool;
}.

Definition backup_dir (self : SetVar) : str :=
  joinpath (config_dir self) (lit "backups").

Inductive Shell := BASH | ZSH | SH.

Global Instance Shell_eq_dec : EqDecision Shell.
Proof. solve_decision. Defined.

Definition Shell_value (shell : Shell) : str :=
  match shell with
  | BASH => lit "bash"
  | ZSH => lit "zsh"
  | SH => lit "sh"
  end.

(** [s.endswith("\n")] *)
Definition ends_with_newline (s : str) : bool := endswith LF s.

(** [pat in s] for strings *)
Fixpoint is_substring (pat s : str) : bool :=
  match Re.literal pat s with
  | Some _ => true
  | None => match s with
            | [] => false
            | _ :: s' => is_substring pat s'
            end
  end.

Definition has_prefix (pat s : str) : bool :=
  match Re.literal pat s with Some _ => true | None => false end.

Definition has_suffix (pat s : str) : bool :=
  has_prefix (reverse pat) (reverse s).

(** ** Config file accessor *)

(** A missing file and a file that does not decode are both read as
    no line. *)
Definition read_config_file (w : world) (filepath : str) : list str :=
  match files w !! filepath with
  | Some content => if encodable content then readlines content else []
  | None => []
  end.

(** The result is [false] when the write raises: at once when the file
    cannot be opened, which leaves it as it is, and at the first line
    that cannot be encoded otherwise, which leaves the lines before it
    in the file. *)
Definition write_config_file (self : SetVar) (w : world) (filepath : str)
    (lines : list str) : bool * world :=
  if dry_run self then (true, w)
  else if bool_decide (filepath ∈ unwritable w) then (false, w)
  else (forallb encodable lines,
        with_files (<[filepath := concat (takewhile encodable lines)]>
                      (files w)) w).

(** ** Variable store: one file *)

Definition get_variables_from_file (w : world) (filepath : str)
  : dict str str :=
  foldl (fun variables line =>
           match parse_export_line line with
           | Some (name, value) => dict_set name value variables
           | None => variables
           end)
        [] (read_config_file w filepath).

(** [parsed and parsed[0] == name] *)
Definition assigns (name line : str) : bool :=
  match parse_export_line line with
  | Some (n, _) => bool_decide (n = name)
  | None => false
  end.

(** The loop of [update_variable_in_file]: [new_lines] and
    [variable_updated] after the lines seen so far. *)
Definition update_step (name formatted_line : str)
    (acc : list str * bool) (line : str) : list str * bool :=
  if assigns name line then (acc.1 ++ [formatted_line], true)
  else (acc.1 ++ [line], acc.2).

(** The list handed to [write_config_file] by [update_variable_in_file]. *)
Definition updated_lines (lines : list str) (name value : str) : list str :=
  let formatted_line := format_export_line name value in
  let '(new_lines, variable_updated) :=
    foldl (update_step name formatted_line) ([], false) lines in
  if variable_updated then new_lines
  else
    (match last new_lines with
     | Some l => if ends_with_newline l then new_lines
                 else new_lines ++ [[LF]]
     | None => new_lines
     end) ++ [formatted_line].

Definition update_variable_in_file (self : SetVar) (w : world)
    (filepath name value : str) : bool * world :=
  if dry_run self then (true, w)
  else
    let lines := read_config_file w filepath in
    write_config_file self w filepath (updated_lines lines name value).

(** The list handed to [write_config_file] by
    [remove_variable_from_file]. *)
Definition remaining_lines (lines : list str) (name : str) : list str :=
  foldl (fun new_lines line =>
           if negb (assigns name line) then new_lines ++ [line]
           else new_lines)
        [] lines.

Definition remove_variable_from_file (self : SetVar) (w : world)
    (filepath name : str) : bool * world :=
  if dry_run self then (true, w)
  else
    let lines := read_config_file w filepath in
    write_config_file self w filepath (remaining_lines lines name).

(** ** Backup archive *)

Definition backup_name (timestamp : str) : str :=
  lit "backup_" ++ timestamp ++ lit ".zip".

Definition metadata_json : str := lit "metadata.json".

Definition default_message : str := lit "Auto-backup before changes".

(** [message or "Auto-backup before changes"] *)
Definition message_or_default (message : option str) : str :=
  match message with
  | Some (c :: m) => c :: m
  | _ => default_message
  end.

Definition create_backup (self : SetVar) (w : world)
    (files_to_backup : list str) (message : option str)
  : option str * world :=
  if negb (backup_enabled self) || dry_run self then (None, w)
  else
    let timestamp := clock w in
    let backup_path := joinpath (backup_dir self) (backup_name timestamp) in
    if zip_fails w then (None, w)
    else
      let entries :=
        flat_map (fun filepath =>
                    match files w !! filepath with
                    | Some content => [(basename filepath, content)]
                    | None => []
                    end)
                 files_to_backup in
      let md := {| md_timestamp := timestamp;
                   md_files := files_to_backup;
                   md_message := message_or_default message |} in
      (Some backup_path,
       with_archives
         (dict_set backup_path (Archive entries (Some md)) (archives w)) w).

(** [zf.namelist()] *)
Definition namelist (a : archive) : list str :=
  (fst <$> arc_entries a)
  ++ match arc_metadata a with Some _ => [metadata_json] | None => [] end.

(** [zf.read(filename)]: the entry written last under that name *)
Definition zip_read (a : archive) (filename : str) : str :=
  default [] (dict_get filename (reverse (arc_entries a))).

(** [self.backup_dir.glob("backup_*.zip")] *)
Definition is_backup_file (self : SetVar) (p : str) : bool :=
  match Re.literal (backup_dir self ++ [SLASH]) p with
  | Some name =>
      negb (contains SLASH name)
      && has_prefix (lit "backup_") name
      && has_suffix (lit ".zip") name
      && (11 <=? length name)%nat
  | None => false
  end.

Definition glob_backups (self : SetVar) (w : world) : list str :=
  List.filter (is_backup_file self) (fst <$> archives w).

Definition DOT : N := 46.

Section Engine.
(** [Path.home()] *)
Variable home : str.
(** [fnmatch.fnmatch] *)
Variable fnmatch : str -> str -> bool.

(** ** Shell registry *)

Definition config_files (shell : Shell) : list str :=
  match shell with
  | BASH => [joinpath home (lit ".bashrc");
             joinpath home (lit ".bash_profile");
             joinpath home (lit ".profile")]
  | ZSH => [joinpath home (lit ".zshrc");
            joinpath home (lit ".zprofile");
            joinpath home (lit ".zshenv")]
  | SH => [joinpath home (lit ".profile")]
  end.

Definition find_existing_config_files (w : world) (shell : Shell)
  : list str :=
  List.filter (file_exists w) (config_files shell).

(** [Path(p).touch()] *)
Definition touch (w : world) (p : str) : world :=
  if file_exists w p then w else with_files (<[p := []]> (files w)) w.

Definition get_primary_config_file (self : SetVar) (w : world)
    (shell : Shell) : str * world :=
  match find_existing_config_files w shell with
  | first :: _ => (first, w)
  | [] =>
      let primary := default [] (head (config_files shell)) in
      (primary, if dry_run self then w else touch w primary)
  end.

(** ** Variable store: one shell *)

(** The inner loop of [get_all_variables], which [sync_variables]
    repeats: the files of a shell merged in candidate order. *)
Definition merged_variables (w : world) (shell : Shell) : dict str str :=
  foldl (fun shell_vars config_file =>
           dict_update shell_vars (get_variables_from_file w config_file))
        [] (find_existing_config_files w shell).

Definition get_all_variables (w : world) (shells : list Shell)
  : dict str (dict str str) :=
  foldl (fun all_vars shell =>
           dict_set (Shell_value shell) (merged_variables w shell) all_vars)
        [] shells.

(** ** Restore *)

(** [Path.home() / f".{filename}"] *)
Definition restore_target (filename : str) : str :=
  joinpath home (DOT :: filename).

(** The path that [restore_backup] takes for [backup_id]: the id itself
    when it is the path of something that exists, [Path('')] being
    ['.'], and the first archive of the backup directory whose path
    holds the id otherwise. *)
Definition find_backup (self : SetVar) (w : world) (backup_id : str)
  : option str :=
  if path_exists w backup_id
  then Some (if bool_decide (backup_id = []) then lit "." else backup_id)
  else head (List.filter (is_substring backup_id) (glob_backups self w)).

(** [target_path.write_bytes(content)]; [None] when it raises. *)
Definition write_bytes (w : world) (p content : str) : option world :=
  if bool_decide (p ∈ unwritable w) then None
  else Some (with_files (<[p := content]> (files w)) w).

(** Perform the restore: the loop over the entries, which the first
    target that cannot be written ends. *)
Fixpoint restore_entries (zf : archive) (w : world) (names : list str)
  : bool * world :=
  match names with
  | [] => (true, w)
  | filename :: names' =>
      match write_bytes w (restore_target filename) (zip_read zf filename)
      with
      | Some w' => restore_entries zf w' names'
      | None => (false, w)
      end
  end.

Definition restored_names (zf : archive) : list str :=
  List.filter (fun filename => negb (bool_decide (filename = metadata_json)))
              (namelist zf).

Definition restore_backup (self : SetVar) (w : world) (backup_id : str)
  : bool * world :=
  if dry_run self then (true, w)
  else
    match find_backup self w backup_id with
    | None => (false, w)
    | Some backup_path =>
        match dict_get backup_path (archives w) with
        | None => (false, w)
        | Some zf =>
            let files_to_backup :=
              List.filter (file_exists w)
                          (restore_target <$> restored_names zf) in
            let w1 :=
              match files_to_backup with
              | [] => w
              | _ :: _ =>
                  (create_backup self w files_to_backup
                     (Some (lit "Pre-restore backup (restoring from "
                            ++ basename backup_path ++ lit ")"))).2
              end in
            match dict_get backup_path (archives w1) with
            | None => (false, w1)
            | Some zf1 => restore_entries zf1 w1 (restored_names zf1)
            end
        end
    end.

(** ** Variable store: set and remove *)

(** One round of the loop over [shells] in [set_variable]: the world
    (the primary file may be created) and [files_to_modify]. *)
Definition locate_step (self : SetVar) (name : str)
    (acc : world * list str) (shell : Shell) : world * list str :=
  let '(w, files_to_modify) := acc in
  let '(config_files, w1) :=
    match find_existing_config_files w shell with
    | [] =>
        let '(primary, w1) := get_primary_config_file self w shell in
        ([primary], w1)
    | existing => (existing, w)
    end in
  let found_in_file :=
    List.find (fun config_file =>
                 dict_has name (get_variables_from_file w1 config_file))
              config_files in
  let file_to_modify :=
    match found_in_file with
    | Some f => f
    | None => default [] (head config_files)
    end in
  (w1,
   if bool_decide (file_to_modify ∈ files_to_modify) then files_to_modify
   else files_to_modify ++ [file_to_modify]).

(** The loop applying [update] to every file of [files_to_modify]. *)
Definition apply_to_files (update : world -> str -> bool * world)
    (w : world) (files_to_modify : list str) : bool * world :=
  foldl (fun acc filepath =>
           let '(ok, w') := update acc.2 filepath in
           (if ok then acc.1 else false, w'))
        (true, w) files_to_modify.

(** Collect files to modify: the given file when there is one (and
    nothing when it does not exist), the files found shell by shell
    otherwise. *)
Definition locate_files (self : SetVar) (w : world) (name : str)
    (shells : list Shell) (specific_file : option str)
  : option (world * list str) :=
  match specific_file with
  | Some (c :: f) =>
      if file_exists w (c :: f) then Some (w, [c :: f]) else None
  | _ => Some (foldl (locate_step self name) (w, []) shells)
  end.

Definition set_variable (self : SetVar) (w : world) (name value : str)
    (shells : list Shell) (skip_confirmation : bool)
    (specific_file : option str) : bool * world :=
  if negb (Re.identifier name) then (false, w)
  else
    match locate_files self w name shells specific_file with
    | None => (false, w)
    | Some (w1, files_to_modify) =>
        if negb skip_confirmation && negb (dry_run self)
           && negb (answers_yes w1)
        then (false, w1)
        else
          let w2 :=
            match files_to_modify with
            | _ :: _ =>
                if backup_enabled self && negb (dry_run self)
                then (create_backup self w1 files_to_modify
                        (Some (lit "Before setting " ++ name ++ [EQUALS]
                               ++ value))).2
                else w1
            | [] => w1
            end in
          apply_to_files
            (fun w' filepath =>
               update_variable_in_file self w' filepath name value)
            w2 files_to_modify
    end.

(** The files of [shells] that define [name], shell by shell. *)
Definition files_defining (w : world) (name : str) (shells : list Shell)
  : list str :=
  flat_map (fun shell =>
              List.filter (fun config_file =>
                             dict_has name
                               (get_variables_from_file w config_file))
                          (find_existing_config_files w shell))
           shells.

Definition remove_variable (self : SetVar) (w : world) (name : str)
    (shells : list Shell) (skip_confirmation : bool) : bool * world :=
  match files_defining w name shells with
  | [] => (true, w)
  | files_to_modify =>
      if negb skip_confirmation && negb (dry_run self)
         && negb (answers_yes w)
      then (false, w)
      else
        let w1 :=
          if backup_enabled self && negb (dry_run self)
          then (create_backup self w files_to_modify
                  (Some (lit "Before removing " ++ name))).2
          else w in
        apply_to_files
          (fun w' filepath =>
             remove_variable_from_file self w' filepath name)
          w1 files_to_modify
  end.

(** ** Sync engine *)

(** Filter by keys if provided. *)
Definition filter_by_keys (keys : option (list str))
    (vars : dict str str) : dict str str :=
  match keys with
  | Some ((_ :: _) as pats) =>
      List.filter (fun kv => existsb (fnmatch kv.1) pats) vars
  | _ => vars
  end.

Definition not_set : str := lit "[not set]".

(** One round of the loop over the source variables: the variable is
    recorded when the destination lacks it or has another value. *)
Definition change_step (shell_vars : dict str str)
    (changes : dict str (str * str)) (kv : str * str)
  : dict str (str * str) :=
  let '(var_name, var_value) := kv in
  if bool_decide (dict_get var_name shell_vars = Some var_value)
  then changes
  else dict_set var_name
         (var_value, default not_set (dict_get var_name shell_vars))
         changes.

(** [changes] of one destination: name to (new value, old value) *)
Definition changes_for (source_vars shell_vars : dict str str)
  : dict str (str * str) :=
  foldl (change_step shell_vars) [] source_vars.

(** [sync_plan]: determine which variables need syncing. *)
Definition sync_plan (w : world) (from_shell : Shell)
    (to_shells : list Shell) (source_vars : dict str str)
  : dict Shell (dict str (str * str)) :=
  foldl (fun plan to_shell =>
           if bool_decide (to_shell = from_shell) then plan
           else
             match changes_for source_vars (merged_variables w to_shell) with
             | [] => plan
             | changes => dict_set to_shell changes plan
             end)
        [] to_shells.

(** Perform sync: the inner loop, over the changes of one shell, and the
    outer loop, over the shells of the plan. *)
Definition apply_changes (self : SetVar) (to_shell : Shell)
    (acc : bool * world) (changes : dict str (str * str)) : bool * world :=
  foldl (fun acc' change =>
           let '(ok, w') :=
             set_variable self acc'.2 change.1 change.2.1
                          [to_shell] true None in
           (if ok then acc'.1 else false, w'))
        acc changes.

Definition apply_plan (self : SetVar) (w : world)
    (plan : dict Shell (dict str (str * str))) : bool * world :=
  foldl (fun acc entry =>
           let '(to_shell, changes) := entry in
           apply_changes self to_shell acc changes)
        (true, w) plan.

Definition sync_variables (self : SetVar) (w : world) (from_shell : Shell)
    (to_shells : list Shell) (keys : option (list str))
    (skip_confirmation : bool) : bool * world :=
  match merged_variables w from_shell with
  | [] => (true, w)
  | all_source_vars =>
      match filter_by_keys keys all_source_vars with
      | [] => (true, w)
      | source_vars =>
          match sync_plan w from_shell to_shells source_vars with
          | [] => (true, w)
          | plan =>
              if negb skip_confirmation && negb (dry_run self)
                 && negb (answers_yes w)
              then (false, w)
              else apply_plan self w plan
          end
      end
  end.

(** The plan [sync_variables] would compute in [w]: empty when it
    returns before computing one. *)
Definition plan_of (w : world) (from_shell : Shell)
    (to_shells : list Shell) (keys : option (list str))
  : dict Shell (dict str (str * str)) :=
  sync_plan w from_shell to_shells
            (filter_by_keys keys (merged_variables w from_shell)).
End Engine.

(** ** Export and import files

    The [.env] and the shell-script branches of [export_variables] and
    of [import_variables], as functions between the dictionary of the
    variables and the text of the file.  The JSON branches are not
    modelled. *)

Definition HASH : N := 35.

(** [s.replace(c, new)] for a one-character [c] *)
Definition replace_char (c : N) (new s : str) : str :=
  flat_map (fun x => if x =? c then new else [x]) s.

(** The three [replace] calls of the [.env] branch, in their order: a
    backslash becomes two, a double quote gets a backslash before it, a
    line feed becomes a backslash and the letter n. *)
Definition env_escape (value : str) : str :=
  replace_char LF (BACKSLASH :: lit "n")
    (replace_char DQUOTE [BACKSLASH; DQUOTE]
       (replace_char BACKSLASH [BACKSLASH; BACKSLASH] value)).

(** The test of the [.env] branch: a double quote, a line feed or a
    backslash is in [value]. *)
Definition env_needs_quotes (value : str) : bool :=
  contains DQUOTE value || contains LF value || contains BACKSLASH value.

(** What the [.env] branch of [export_variables] writes for one
    variable. *)
Definition env_line (name value : str) : str :=
  if env_needs_quotes value
  then name ++ [EQUALS; DQUOTE] ++ env_escape value ++ [DQUOTE; LF]
  else name ++ [EQUALS] ++ value ++ [LF].

(** The order of [str]: code point by code point, a prefix first. *)
Fixpoint str_compare (a b : str) : comparison :=
  match a, b with
  | [], [] => Eq
  | [], _ :: _ => Lt
  | _ :: _, [] => Gt
  | x :: a', y :: b' =>
      match x ?= y with
      | Eq => str_compare a' b'
      | c => c
      end
  end.

(** The order of the tuples [(name, value)], component by component. *)
Definition item_leb (x y : str * str) : bool :=
  match str_compare x.1 y.1 with
  | Lt => true
  | Gt => false
  | Eq => match str_compare x.2 y.2 with Gt => false | _ => true end
  end.

Fixpoint insert_sorted (x : str * str) (l : list (str * str))
  : list (str * str) :=
  match l with
  | [] => [x]
  | y :: l' => if item_leb x y then x :: l else y :: insert_sorted x l'
  end.

(** [sorted(shell_vars.items())] *)
Definition sorted (items : list (str * str)) : list (str * str) :=
  foldr insert_sorted [] items.

(** The text that the [.env] branch of [export_variables] writes. *)
Definition export_env (shell_vars : dict str str) : str :=
  concat (map (fun item => env_line item.1 item.2) (sorted shell_vars)).

(** The header of an exported shell script. *)
Definition shell_header : list str :=
  [lit "#!/bin/sh" ++ [LF];
   lit "# Exported environment variables" ++ [LF; LF]].

(** The text that the shell branch of [export_variables] writes. *)
Definition export_shell (shell_vars : dict str str) : str :=
  concat (shell_header
          ++ map (fun item => format_export_line item.1 item.2)
                 (sorted shell_vars)).

(** The body of the loop that reads a [.env] file in
    [import_variables]: the variable that a line gives, if any. *)
Definition env_parse_line (line : str) : option (str * str) :=
  let line := strip line in
  if negb (bool_decide (line = [])) && negb (startswith HASH line)
  then '(name, value) ← Re.assignment line;
       Some (name, strip_quotes value)
  else None.

(** The loop over the lines of the file, with [parse] for its body. *)
Definition import_with (parse : str -> option (str * str)) (content : str)
  : dict str str :=
  foldl (fun variables line =>
           match parse line with
           | Some (name, value) => dict_set name value variables
           | None => variables
           end)
        [] (readlines content).

(** The variables that [import_variables] reads from a [.env] file. *)
Definition import_env (content : str) : dict str str :=
  import_with env_parse_line content.

(** The variables that [import_variables] reads from a shell script. *)
Definition import_shell (content : str) : dict str str :=
  import_with parse_export_line content.

(** ** Vocabulary of the statements *)

(** [name] is, from its first to its last character, an identifier:
    [[A-Za-z_][A-Za-z0-9_]*]. *)
Definition is_identifier (name : str) : bool :=
  match name with
  | c :: r => is_ident_start c && forallb is_ident_char r
  | [] => false
  end.

(** [s] holds no line break, neither a line feed nor a carriage return. *)
Definition no_line_break (s : str) : bool :=
  negb (contains LF s) && negb (contains CR s).

(** Every character of [s] is whitespace. *)
Definition all_space (s : str) : bool := forallb is_space s.

(** What [update_variable_in_file] puts in the place of [line]. *)
Definition rewritten (name value line : str) : str :=
  if assigns name line then format_export_line name value else line.

(** The lines of a file whose last line has been given its terminator. *)
Fixpoint terminated (lines : list str) : list str :=
  match lines with
  | [] => []
  | [l] => [if ends_with_newline l then l else l ++ [LF]]
  | l :: ls => l :: terminated ls
  end.

(** A line with its terminator, and a last line without one. *)
Definition complete_line (l : str) : Prop :=
  exists b, l = b ++ [LF] /\ (LF ∉ b) /\ (CR ∉ b).

Definition partial_line (l : str) : Prop :=
  l <> [] /\ (LF ∉ l) /\ (CR ∉ l).

(** The shape of what [readlines] returns. *)
Inductive file_lines : list str -> Prop :=
| file_lines_nil : file_lines []
| file_lines_last l : partial_line l -> file_lines [l]
| file_lines_cons l ls :
    complete_line l -> file_lines ls -> file_lines (l :: ls).

(** ** Concrete worlds of the examples *)

Definition demo_home : str := lit "/home/u".

Definition demo_self : SetVar :=
  {| config_dir := lit "/home/u/.config/setvar";
     backup_enabled := true;
     dry_run := false |}.

Definition demo_bashrc : str := lit "/home/u/.bashrc".
Definition demo_profile : str := lit "/home/u/.profile".
Definition demo_zshrc : str := lit "/home/u/.zshrc".

(** A world with the given files, no archive, a working archiver and a
    user who confirms. *)
Definition demo_world (fs : gmap str str) : world :=
  World fs [] (lit "20240101_120000") false true ∅ ∅.

Definition world_one_assignment : world :=
  demo_world {[ demo_bashrc := lit "X=1" ++ [LF] ]}.

Definition world_duplicate : world :=
  demo_world {[ demo_bashrc := lit "# path" ++ [LF] ++ lit "X=1" ++ [LF]
                               ++ lit "export X=2" ]}.

Definition world_no_final_newline : world :=
  demo_world {[ demo_bashrc := lit "# no newline at the end" ]}.

Definition world_no_files : world := demo_world ∅.

Definition world_two_definitions : world :=
  demo_world {[ demo_bashrc := lit "export X=1" ++ [LF];
                demo_profile := lit "X=2" ++ [LF];
                demo_zshrc := lit "export X=3" ++ [LF] ]}.

(** The same world when building an archive fails or not. *)
Definition with_zip_fails (b : bool) (w : world) : world :=
  World (files w) (archives w) (clock w) b (answers_yes w)
        (unwritable w) (directories w).

(** A world whose archiver fails. *)
Definition world_failing_archiver : world :=
  with_zip_fails true world_one_assignment.

(** Two files are archived, then one of them is changed, then the
    archive is restored. *)
Definition world_two_files : world :=
  demo_world {[ demo_bashrc := lit "export X=1" ++ [LF];
                demo_profile := lit "X=2" ++ [LF] ]}.

Definition demo_archive_path : str :=
  lit "/home/u/.config/setvar/backups/backup_20240101_120000.zip".

Definition world_after_change : world :=
  let w1 := (create_backup demo_self world_two_files
               [demo_bashrc; demo_profile] (Some (lit "msg"))).2 in
  with_files (<[demo_bashrc := lit "changed"]> (files w1)) w1.

Definition world_after_restore : world :=
  (restore_backup demo_home demo_self world_after_change
     demo_archive_path).2.

(** Two worlds with the same files, the same paths that cannot be
    written and the same user: they may differ in their archives, their
    clock and their archiver. *)
Definition same_files (w w' : world) : Prop :=
  files w = files w' /\ answers_yes w = answers_yes w'
  /\ unwritable w = unwritable w'.

(** The last value that [f] gives on the elements of [l], and [acc] when
    it gives none: how a dictionary filled in a loop ends up. *)
Definition last_some {A B} (f : A -> option B) (acc : option B) (l : list A)
  : option B :=
  foldl (fun acc x => match f x with Some y => Some y | None => acc end)
        acc l.

(** The value that a line gives to [name]. *)
Definition line_value (name line : str) : option str :=
  match parse_export_line line with
  | Some (n, v) => if decide (n = name) then Some v else None
  | None => None
  end.

(** The value that the file at [p] gives to [name]. *)
Definition file_value (w : world) (p name : str) : option str :=
  dict_get name (get_variables_from_file w p).

(** While a plan is applied from [w0] to [dst]: the paths that cannot
    be written are those of [w0], the remaining changes concern names
    that no file gives another value than in [w0], the source shell has
    its variables of [w0], and the destination agrees with them on every
    name that is not among the remaining changes. *)
Definition sync_invariant (home : str) (w0 : world) (src dst : Shell)
    (w : world) (remaining : dict str (str * str)) : Prop :=
  unwritable w = unwritable w0
  /\ (forall p m, m ∈ remaining.*1 -> file_value w p m = file_value w0 p m)
  /\ (forall m, dict_get m (merged_variables home w src)
               = dict_get m (merged_variables home w0 src))
  /\ (forall m x, dict_get m (merged_variables home w0 src) = Some x ->
                  m ∉ remaining.*1 ->
                  dict_get m (merged_variables home w dst) = Some x).

Definition world_sync_trap : world :=
  demo_world {[ demo_zshrc := lit "export X='a" ++ [DQUOTE] ++ lit "b'"
                              ++ [LF] ]}.

Definition world_one_source : world :=
  demo_world {[ demo_zshrc := lit "export X='a b'" ++ [LF];
                demo_bashrc := lit "# bash" ]}.

(** ** The [get] command

    The loop of [main] for [get]: the value in the first existing file of
    the shell that assigns [name], and [None] when the command reports
    that the variable is not found. *)
Definition get_command (home : str) (w : world) (shell : Shell) (name : str)
  : option str :=
  match List.find (fun config_file =>
                     dict_has name (get_variables_from_file w config_file))
                  (find_existing_config_files home w shell) with
  | Some config_file => dict_get name (get_variables_from_file w config_file)
  | None => None
  end.

(** From [w] to [w']: the archives and the user are the same, every file
    of [w] is in [w'] as it was, and a file that [w'] has more is empty. *)
Definition only_empty_files_added (w w' : world) : Prop :=
  archives w' = archives w
  /\ answers_yes w' = answers_yes w
  /\ (forall p c, files w !! p = Some c -> files w' !! p = Some c)
  /\ (forall p c, files w' !! p = Some c -> files w !! p = Some c \/ c = []).

Definition demo_dry_run : SetVar :=
  {| config_dir := lit "/home/u/.config/setvar";
     backup_enabled := true;
     dry_run := true |}.

(** A world whose user declines. *)
Definition world_declining : world :=
  World {[ demo_zshrc := lit "export X=3" ++ [LF] ]} []
        (lit "20240101_120000") false false ∅ ∅.

Definition world_profile_only : world :=
  demo_world {[ demo_profile := lit "X=2" ++ [LF] ]}.

(** A world whose [.bashrc] cannot be opened for writing. *)
Definition world_unwritable : world :=
  World {[ demo_bashrc := lit "X=1" ++ [LF] ]} []
        (lit "20240101_120000") false true {[ demo_bashrc ]} ∅.

(** A source shell with one variable, and a destination whose file
    cannot be opened for writing. *)
Definition world_sync_unwritable : world :=
  World {[ demo_zshrc := lit "export X=3" ++ [LF];
           demo_bashrc := lit "# bash" ++ [LF] ]} []
        (lit "20240101_120000") false true {[ demo_bashrc ]} ∅.

(** The world after the change, where the home directory and the
    backup directory are known to be directories. *)
Definition world_with_directories : world :=
  World (files world_after_change) (archives world_after_change)
        (clock world_after_change) false true ∅
        {[ demo_home; backup_dir demo_self ]}.


(** A value that cannot be encoded: the lone surrogate U+DCFF. *)
Definition lone_surrogate : str := [56575].

(** Variables for the examples of export and import. *)
Definition demo_vars : dict str str :=
  [(lit "PATH_EXTRA", lit "/opt/bin"); (lit "GREETING", lit "a b")].

(** * Properties *)

(** ** Character classes *)

Ltac char_facts :=
  unfold is_space, is_ident_char, is_ident_start, not_LF,
    LF, CR, TAB, DQUOTE, SQUOTE, BACKSLASH, EQUALS, SLASH, DOT in *;
  repeat match goal with
         | H : _ = false |- _ => apply not_true_iff_false in H
         | |- _ = false => apply not_true_iff_false; intros ?
         end;
  rewrite ?negb_true_iff, ?orb_true_iff, ?andb_true_iff,
    ?N.leb_le, ?N.eqb_eq, ?N.eqb_neq in *;
  repeat match goal with
         | H : _ = true |- _ =>
             rewrite ?negb_true_iff, ?orb_true_iff, ?andb_true_iff,
               ?N.leb_le, ?N.eqb_eq, ?N.eqb_neq in H
         | H : ~ (_ = true) |- _ =>
             rewrite ?negb_true_iff, ?orb_true_iff, ?andb_true_iff,
               ?N.leb_le, ?N.eqb_eq, ?N.eqb_neq in H
         end;
  try lia.

Lemma ident_start_is_ident_char c :
  is_ident_start c = true -> is_ident_char c = true.
Proof. unfold is_ident_char. intros ->. done. Qed.

Lemma ident_char_not_space c :
  is_ident_char c = true -> is_space c = false.
Proof. intros H. char_facts. Qed.

Lemma ident_char_not_equals c :
  is_ident_char c = true -> (c =? EQUALS) = false.
Proof. intros H. char_facts. Qed.

Lemma ident_char_not_LF c : is_ident_char c = true -> c <> LF.
Proof. intros H ->. vm_compute in H. done. Qed.

Lemma ident_char_not_CR c : is_ident_char c = true -> c <> CR.
Proof. intros H ->. vm_compute in H. done. Qed.

Lemma LF_is_space : is_space LF = true.
Proof. reflexivity. Qed.

(** ** Scanning *)

Lemma contains_elem_of c s : contains c s = true <-> c ∈ s.
Proof.
  unfold contains. rewrite existsb_exists. split.
  - intros (x & Hx & Heq). apply N.eqb_eq in Heq. subst.
    by apply list_elem_of_In.
  - intros H. exists c. split; [by apply list_elem_of_In | apply N.eqb_refl].
Qed.

Lemma contains_false c s : contains c s = false <-> c ∉ s.
Proof.
  rewrite <- contains_elem_of. destruct (contains c s); split; done.
Qed.

Lemma contains_cons c x s : contains c (x :: s) = (c =? x) || contains c s.
Proof. reflexivity. Qed.

Lemma contains_app c s t : contains c (s ++ t) = contains c s || contains c t.
Proof. unfold contains. apply existsb_app. Qed.

Lemma take_drop_while {A} (p : A -> bool) l :
  takewhile p l ++ dropwhile p l = l.
Proof. induction l as [|x l IH]; simpl; [done|]. destruct (p x); simpl; congruence. Qed.

Lemma takewhile_stop {A} (p : A -> bool) l x r :
  forallb p l = true -> p x = false -> takewhile p (l ++ x :: r) = l.
Proof.
  induction l as [|y l IH]; simpl; intros Hl Hx.
  - by rewrite Hx.
  - apply andb_true_iff in Hl as [-> Hl]. by rewrite IH.
Qed.

Lemma dropwhile_stop {A} (p : A -> bool) l x r :
  forallb p l = true -> p x = false -> dropwhile p (l ++ x :: r) = x :: r.
Proof.
  induction l as [|y l IH]; simpl; intros Hl Hx.
  - by rewrite Hx.
  - apply andb_true_iff in Hl as [-> Hl]. by rewrite IH.
Qed.

Lemma takewhile_all {A} (p : A -> bool) l :
  forallb p l = true -> takewhile p l = l.
Proof.
  induction l as [|y l IH]; simpl; [done|].
  intros [-> Hl]%andb_true_iff. by rewrite IH.
Qed.

Lemma dropwhile_all {A} (p : A -> bool) l :
  forallb p l = true -> dropwhile p l = [].
Proof.
  induction l as [|y l IH]; simpl; [done|].
  intros [-> Hl]%andb_true_iff. by rewrite IH.
Qed.

Lemma dropwhile_elem_of {A} (p : A -> bool) l x :
  x ∈ dropwhile p l -> x ∈ l.
Proof.
  induction l as [|y l IH]; simpl; [done|].
  destruct (p y); [|done]. intros H. right. by apply IH.
Qed.

Lemma forallb_not_LF s : forallb not_LF s = true <-> contains LF s = false.
Proof.
  unfold contains in *. induction s as [|c s IH]; cbn [forallb existsb]; [done|].
  rewrite andb_true_iff, orb_false_iff, IH. unfold not_LF.
  rewrite negb_true_iff, (N.eqb_sym LF c). done.
Qed.

Lemma literal_app pat s : Re.literal pat (pat ++ s) = Some s.
Proof.
  induction pat as [|p pat IH]; simpl; [done|]. by rewrite N.eqb_refl.
Qed.

Lemma literal_Some pat s r : Re.literal pat s = Some r -> s = pat ++ r.
Proof.
  revert s. induction pat as [|p pat IH]; intros [|c s]; simpl; try done.
  - by intros [= ->].
  - by intros [= ->].
  - destruct (N.eqb_spec p c); [|done]. intros H%IH. by subst.
Qed.

(** ** The regular expressions *)

Lemma is_identifier_inv name :
  is_identifier name = true ->
  exists c r, name = c :: r /\ is_ident_start c = true
              /\ forallb is_ident_char r = true.
Proof.
  destruct name as [|c r]; simpl; [done|].
  intros [? ?]%andb_true_iff. eauto.
Qed.

Lemma ident_then_equals name s :
  is_identifier name = true ->
  Re.ident (name ++ EQUALS :: s) = Some (name, EQUALS :: s).
Proof.
  intros (c & r & -> & Hc & Hr)%is_identifier_inv. simpl. rewrite Hc.
  by rewrite takewhile_stop, dropwhile_stop.
Qed.

Lemma rest_Some r tail :
  contains LF r = false -> tail = [] \/ tail = [LF] ->
  Re.rest (r ++ tail) = Some r.
Proof.
  intros Hr%forallb_not_LF Ht. unfold Re.rest. destruct Ht as [-> | ->].
  - rewrite app_nil_r, dropwhile_all, takewhile_all by done. done.
  - rewrite dropwhile_stop, takewhile_stop by done. done.
Qed.

Lemma rest_line v :
  Re.rest (v ++ [LF]) = if contains LF v then None else Some v.
Proof.
  destruct (contains LF v) eqn:Hv.
  - unfold Re.rest.
    assert (exists a b, v = a ++ LF :: b /\ forallb not_LF a = true)
      as (a & b & -> & Ha).
    { clear -Hv. induction v as [|c v IH]; [done|].
      rewrite contains_cons in Hv.
      destruct (N.eqb_spec LF c) as [<- | Hne].
      - by exists [], v.
      - destruct (IH Hv) as (a & b & -> & Ha). exists (c :: a), b.
        split; [done|]. cbn [forallb]. rewrite Ha. unfold not_LF.
        apply N.eqb_neq in Hne. rewrite N.eqb_sym in Hne. by rewrite Hne. }
    rewrite <- app_assoc. simpl. rewrite dropwhile_stop by done.
    simpl. by destruct b.
  - by apply rest_Some; [|right].
Qed.

Lemma assignment_match name r tail :
  is_identifier name = true ->
  Re.assignment (name ++ EQUALS :: r ++ tail)
  = value ← Re.rest (r ++ tail); Some (name, value).
Proof.
  intros Hn. unfold Re.assignment. rewrite ident_then_equals by done.
  done.
Qed.

Lemma spaces0_stop ws c s :
  all_space ws = true -> is_space c = false ->
  Re.spaces0 (ws ++ c :: s) = c :: s.
Proof. intros. by apply dropwhile_stop. Qed.

Lemma identifier_head_not_space name s :
  is_identifier name = true ->
  exists c r, name ++ s = c :: r /\ is_space c = false.
Proof.
  intros (c & r & -> & Hc & _)%is_identifier_inv. exists c, (r ++ s).
  split; [done|]. by apply ident_char_not_space, ident_start_is_ident_char.
Qed.

Lemma spaces0_identifier ws name s :
  all_space ws = true -> is_identifier name = true ->
  Re.spaces0 (ws ++ name ++ s) = name ++ s.
Proof.
  intros Hws (c & r & -> & Hc)%(identifier_head_not_space _ s).
  by apply spaces0_stop.
Qed.

Lemma spaces1_identifier ws name s :
  ws <> [] -> all_space ws = true -> is_identifier name = true ->
  Re.spaces1 (ws ++ name ++ s) = Some (name ++ s).
Proof.
  intros Hne Hws Hn. destruct ws as [|c ws]; [done|]. simpl in *.
  apply andb_true_iff in Hws as [-> Hws]. f_equal.
  by apply spaces0_identifier.
Qed.

Lemma export_form_match ws ws1 name r tail :
  all_space ws = true -> ws1 <> [] -> all_space ws1 = true ->
  is_identifier name = true ->
  Re.export_form (ws ++ lit "export" ++ ws1 ++ name ++ EQUALS :: r ++ tail)
  = value ← Re.rest (r ++ tail); Some (name, value).
Proof.
  intros Hws Hne Hws1 Hn. unfold Re.export_form.
  replace (ws ++ lit "export" ++ ws1 ++ name ++ EQUALS :: r ++ tail)
    with (ws ++ 101 :: (lit "xport" ++ ws1 ++ name ++ EQUALS :: r ++ tail))
    by done.
  rewrite spaces0_stop by done.
  replace (101 :: (lit "xport" ++ ws1 ++ name ++ EQUALS :: r ++ tail))
    with (lit "export" ++ (ws1 ++ name ++ EQUALS :: r ++ tail)) by done.
  rewrite literal_app. cbn [mbind option_bind].
  rewrite spaces1_identifier by done. cbn [mbind option_bind].
  by apply assignment_match.
Qed.

Lemma bare_form_match ws name r tail :
  all_space ws = true -> is_identifier name = true ->
  Re.bare_form (ws ++ name ++ EQUALS :: r ++ tail)
  = value ← Re.rest (r ++ tail); Some (name, value).
Proof.
  intros Hws Hn. unfold Re.bare_form. rewrite spaces0_identifier by done.
  by apply assignment_match.
Qed.
Lemma literal_into_assignment pat name s s1 :
  forallb is_ident_char pat = true -> forallb is_ident_char name = true ->
  Re.literal pat (name ++ EQUALS :: s) = Some s1 ->
  exists c r, s1 = c :: r /\ is_space c = false.
Proof.
  revert name. induction pat as [|p pat IH]; intros name Hp Hn.
  - intros [= <-]. destruct name as [|c name]; cbn [app].
    + exists EQUALS, s. done.
    + exists c, (name ++ EQUALS :: s). split; [done|].
      apply andb_true_iff in Hn as [Hc _]. by apply ident_char_not_space.
  - cbn [forallb] in Hp. apply andb_true_iff in Hp as [Hp Hpat].
    destruct name as [|c name]; cbn [app Re.literal].
    + rewrite (ident_char_not_equals p Hp). done.
    + cbn [forallb] in Hn. apply andb_true_iff in Hn as [_ Hn].
      destruct (p =? c); [|done]. by apply IH.
Qed.

(** A line in the bare form does not match the first pattern. *)
Lemma export_form_on_bare ws name s :
  all_space ws = true -> is_identifier name = true ->
  Re.export_form (ws ++ name ++ EQUALS :: s) = None.
Proof.
  intros Hws Hn. unfold Re.export_form. rewrite spaces0_identifier by done.
  destruct (Re.literal _ _) as [s1|] eqn:Hlit; [|done]. cbn [mbind option_bind].
  apply literal_into_assignment in Hlit as (c & r & -> & Hc); [| done |].
  - unfold Re.spaces1. by rewrite Hc.
  - apply is_identifier_inv in Hn as (c & r & -> & Hc & Hr). cbn [forallb].
    by rewrite (ident_start_is_ident_char c Hc), Hr.
Qed.

(** A line in the [export] form does not match the second pattern. *)
Lemma bare_form_on_export ws c ws1 s :
  all_space ws = true -> is_space c = true ->
  Re.bare_form (ws ++ lit "export" ++ c :: ws1 ++ s) = None.
Proof.
  intros Hws Hc. unfold Re.bare_form.
  replace (ws ++ lit "export" ++ c :: ws1 ++ s)
    with (ws ++ 101 :: (lit "xport" ++ c :: ws1 ++ s)) by done.
  rewrite spaces0_stop by done.
  unfold Re.assignment, Re.ident.
  replace (is_ident_start 101) with true by done.
  replace (lit "xport" ++ c :: ws1 ++ s)
    with (lit "xport" ++ c :: (ws1 ++ s)) by done.
  assert (is_ident_char c = false) as Hic.
  { destruct (is_ident_char c) eqn:E; [|done].
    apply ident_char_not_space in E. congruence. }
  rewrite takewhile_stop, dropwhile_stop by done.
  cbn [mbind option_bind Re.literal].
  destruct (N.eqb_spec EQUALS c) as [<-|]; [|done].
  vm_compute in Hc. done.
Qed.

Lemma parse_export_form ws ws1 name r tail :
  all_space ws = true -> ws1 <> [] -> all_space ws1 = true ->
  is_identifier name = true ->
  parse_export_line
    (ws ++ lit "export" ++ ws1 ++ name ++ EQUALS :: r ++ tail)
  = value ← Re.rest (r ++ tail); Some (name, strip_quotes (strip value)).
Proof.
  intros Hws Hne Hws1 Hn. unfold parse_export_line, patterns.
  cbn [parse_with]. rewrite export_form_match by done.
  destruct (Re.rest (r ++ tail)) as [value|]; cbn [mbind option_bind]; [done|].
  destruct ws1 as [|c ws1]; [done|].
  cbn [all_space forallb] in Hws1. apply andb_true_iff in Hws1 as [Hc _].
  replace ((c :: ws1) ++ name ++ EQUALS :: r ++ tail)
    with (c :: ws1 ++ (name ++ EQUALS :: r ++ tail)) by done.
  by rewrite bare_form_on_export.
Qed.

Lemma parse_bare_form ws name r tail :
  all_space ws = true -> is_identifier name = true ->
  parse_export_line (ws ++ name ++ EQUALS :: r ++ tail)
  = value ← Re.rest (r ++ tail); Some (name, strip_quotes (strip value)).
Proof.
  intros Hws Hn. unfold parse_export_line, patterns. cbn [parse_with].
  rewrite export_form_on_bare, bare_form_match by done.
  by destruct (Re.rest (r ++ tail)).
Qed.

(** What [parse_export_line] makes of a line [export NAME=...]. *)
Lemma parse_export_prefix name s :
  is_identifier name = true ->
  parse_export_line (lit "export " ++ name ++ EQUALS :: s)
  = value ← Re.rest s; Some (name, strip_quotes (strip value)).
Proof.
  intros Hn.
  pose proof (parse_export_form [] [32] name s [] eq_refl) as H.
  rewrite app_nil_r in H. apply H; done.
Qed.

(** ** Stripping *)

Lemma lstrip_id c s : is_space c = false -> lstrip (c :: s) = c :: s.
Proof. intros H. unfold lstrip. cbn [dropwhile]. by rewrite H. Qed.

Lemma rstrip_id s c : is_space c = false -> rstrip (s ++ [c]) = s ++ [c].
Proof.
  intros H. unfold rstrip. rewrite reverse_app. cbn [reverse app].
  rewrite reverse_singleton. cbn [app dropwhile]. rewrite H.
  by rewrite reverse_cons, reverse_involutive.
Qed.

Lemma strip_elem_of x s : x ∈ strip s -> x ∈ s.
Proof.
  unfold strip, rstrip, lstrip. rewrite elem_of_reverse.
  intros H%dropwhile_elem_of. rewrite elem_of_reverse in H.
  by apply dropwhile_elem_of in H.
Qed.

Lemma startswith_elem_of c s : startswith c s = true -> c ∈ s.
Proof.
  destruct s as [|x s]; [done|]. cbn [startswith].
  intros ->%N.eqb_eq. left.
Qed.

Lemma strip_quotes_none v :
  DQUOTE ∉ v -> SQUOTE ∉ v -> strip_quotes v = v.
Proof.
  intros Hd Hs. unfold strip_quotes.
  destruct (startswith DQUOTE v) eqn:E1.
  { by apply startswith_elem_of in E1. }
  destruct (startswith SQUOTE v) eqn:E2.
  { by apply startswith_elem_of in E2. }
  done.
Qed.

Lemma strip_quotes_quoted x :
  strip_quotes (DQUOTE :: x ++ [DQUOTE]) = x.
Proof.
  unfold strip_quotes, endswith.
  replace (last (DQUOTE :: x ++ [DQUOTE])) with (Some DQUOTE).
  2:{ change (DQUOTE :: x ++ [DQUOTE]) with ((DQUOTE :: x) ++ [DQUOTE]).
      by rewrite last_snoc. }
  cbn [startswith]. rewrite N.eqb_refl. cbn [andb orb].
  unfold slice_1_m1. cbn [tail]. apply removelast_last.
Qed.

Lemma strip_quoted x :
  strip (DQUOTE :: x ++ [DQUOTE]) = DQUOTE :: x ++ [DQUOTE].
Proof.
  unfold strip. rewrite lstrip_id by done.
  change (DQUOTE :: x ++ [DQUOTE]) with ((DQUOTE :: x) ++ [DQUOTE]).
  by rewrite rstrip_id.
Qed.
Lemma dropwhile_head {A} (p : A -> bool) l c :
  head (dropwhile p l) = Some c -> p c = false.
Proof.
  induction l as [|x l IH]; cbn [dropwhile]; [done|].
  destruct (p x) eqn:E; [done|]. cbn [head]. by intros [= <-].
Qed.

Lemma takewhile_forallb {A} (p : A -> bool) l :
  forallb p (takewhile p l) = true.
Proof.
  induction l as [|x l IH]; cbn [takewhile]; [done|].
  destruct (p x) eqn:E; [|done]. cbn [forallb]. by rewrite E, IH.
Qed.

Lemma forallb_reverse {A} (p : A -> bool) l :
  forallb p (reverse l) = forallb p l.
Proof.
  induction l as [|x l IH]; [done|].
  rewrite reverse_cons, forallb_app, IH. cbn [forallb].
  rewrite andb_true_r. apply andb_comm.
Qed.

(** [strip] removes the whitespace at both ends, and nothing else. *)
Lemma strip_spec s :
  exists a b,
    s = a ++ strip s ++ b /\ all_space a = true /\ all_space b = true
    /\ (forall c, head (strip s) = Some c -> is_space c = false)
    /\ (forall c, last (strip s) = Some c -> is_space c = false).
Proof.
  unfold strip, rstrip, lstrip.
  set (s1 := dropwhile is_space s).
  exists (takewhile is_space s), (reverse (takewhile is_space (reverse s1))).
  assert (s1 = reverse (dropwhile is_space (reverse s1))
               ++ reverse (takewhile is_space (reverse s1))) as Hs1.
  { rewrite <- reverse_app, take_drop_while. by rewrite reverse_involutive. }
  split; [|split; [|split; [|split]]].
  - rewrite <- Hs1. subst s1. by rewrite take_drop_while.
  - apply takewhile_forallb.
  - unfold all_space. rewrite forallb_reverse. apply takewhile_forallb.
  - intros c Hc. apply (dropwhile_head is_space s). fold s1. rewrite Hs1.
    destruct (reverse (dropwhile is_space (reverse s1))); [done|]. done.
  - intros c Hc. rewrite last_reverse in Hc.
    by apply dropwhile_head in Hc.
Qed.


(** ** The codec *)

Lemma escape_quotes_fixed v :
  escape_quotes v = v <-> contains DQUOTE v = false.
Proof.
  induction v as [|c v IH]; [done|].
  rewrite contains_cons, orb_false_iff, <- IH. unfold escape_quotes.
  cbn [flat_map]. rewrite (N.eqb_sym DQUOTE c).
  destruct (N.eqb_spec c DQUOTE) as [-> | Hne]; cbn [app].
  - split; [intros [= ?] | intros [? _]]; done.
  - split; [intros [= ?] | intros [_ ->]]; done.
Qed.

Lemma escape_quotes_LF v :
  contains LF (escape_quotes v) = contains LF v.
Proof.
  induction v as [|c v IH]; [done|]. unfold escape_quotes in *.
  cbn [flat_map]. rewrite contains_app, IH, contains_cons.
  destruct (N.eqb_spec c DQUOTE) as [-> | Hne]; [done|].
  rewrite contains_cons. cbn [contains existsb]. by rewrite orb_false_r.
Qed.

Lemma needs_quotes_false c v :
  needs_quotes v = false -> c ∈ special_chars -> c ∉ v.
Proof.
  intros Hn Hc. apply contains_false.
  destruct (contains c v) eqn:E; [|done].
  assert (needs_quotes v = true); [|congruence].
  unfold needs_quotes. apply existsb_exists. exists c.
  split; [by apply list_elem_of_In | done].
Qed.

Lemma DQUOTE_special : DQUOTE ∈ special_chars.
Proof. apply list_elem_of_In. vm_compute. tauto. Qed.

Lemma SQUOTE_special : SQUOTE ∈ special_chars.
Proof. apply list_elem_of_In. vm_compute. tauto. Qed.

(** What [parse_export_line] reads back from a formatted line. *)
Lemma parse_format name value :
  is_identifier name = true ->
  parse_export_line (format_export_line name value)
  = if contains LF value then None
    else Some (name, if needs_quotes value then escape_quotes value
                     else strip value).
Proof.
  intros Hn. unfold format_export_line.
  destruct (needs_quotes value) eqn:Hq.
  - replace (lit "export " ++ name ++ [EQUALS; DQUOTE] ++ escape_quotes value
             ++ [DQUOTE; LF])
      with (lit "export " ++ name ++ EQUALS
              :: (DQUOTE :: escape_quotes value ++ [DQUOTE]) ++ [LF]).
    2:{ cbn [app]. by rewrite <- !app_assoc. }
    rewrite parse_export_prefix, rest_line by done.
    rewrite contains_cons, contains_app, escape_quotes_LF.
    replace (LF =? DQUOTE) with false by done.
    replace (contains LF [DQUOTE]) with false by done.
    rewrite orb_false_r. cbn [orb].
    destruct (contains LF value); [done|]. cbn [mbind option_bind].
    by rewrite strip_quoted, strip_quotes_quoted.
  - replace (lit "export " ++ name ++ [EQUALS] ++ value ++ [LF])
      with (lit "export " ++ name ++ EQUALS :: value ++ [LF]) by done.
    rewrite parse_export_prefix, rest_line by done.
    destruct (contains LF value); [done|]. cbn [mbind option_bind].
    rewrite strip_quotes_none; [done | |].
    + intros H%strip_elem_of. revert H.
      apply needs_quotes_false; [done | apply DQUOTE_special].
    + intros H%strip_elem_of. revert H.
      apply needs_quotes_false; [done | apply SQUOTE_special].
Qed.

(** C3 (as corrected).  For a name that is an identifier,
    [parse_export_line (format_export_line name value)] gives back
    [(name, value)] exactly when [value] holds no double quote and no
    line feed and, when it holds none of the characters that make
    [format_export_line] quote it, neither starts nor ends with
    whitespace. *)
Theorem format_parse_round_trip name value :
  is_identifier name = true ->
  parse_export_line (format_export_line name value) = Some (name, value)
  <-> contains DQUOTE value = false /\ contains LF value = false
      /\ (needs_quotes value = true \/ strip value = value).
Proof.
  intros Hn. rewrite parse_format by done.
  destruct (contains LF value).
  { split; [done | intros (_ & ? & _); done]. }
  destruct (needs_quotes value) eqn:Hq.
  - rewrite <- escape_quotes_fixed. split.
    + intros [= ->]. eauto.
    + intros (-> & _). done.
  - split.
    + intros [= Hs]. split; [|split; [done | by right]].
      apply contains_false, needs_quotes_false; [done | apply DQUOTE_special].
    + intros (_ & _ & [? | ->]); done.
Qed.

Lemma format_parse_round_trip_witness :
  is_identifier (lit "FOO") = true
  /\ parse_export_line (format_export_line (lit "FOO") (lit "a b"))
     = Some (lit "FOO", lit "a b").
Proof.
  split; [reflexivity|].
  apply (proj2 (format_parse_round_trip (lit "FOO") (lit "a b") eq_refl)).
  vm_compute. auto.
Defined.

(** C3 as stated fails: a double quote comes back escaped, a value with
    a line feed is not read back at all, and an unquoted value loses the
    form feed it ends with. *)
Lemma format_parse_round_trip_fails :
  parse_export_line (format_export_line (lit "X") [97; DQUOTE; 98])
    = Some (lit "X", [97; BACKSLASH; DQUOTE; 98])
  /\ parse_export_line (format_export_line (lit "X") [97; LF; 98]) = None
  /\ parse_export_line (format_export_line (lit "X") [97; 12])
     = Some (lit "X", [97]).
Proof. vm_compute. auto. Qed.

(** C5 (as corrected).  On a line [export NAME=REST] or [NAME=REST],
    with whitespace allowed before it and a newline after it,
    [parse_export_line] returns [NAME] and [REST] stripped of its
    whitespace at both ends, then of one layer of quotes when what is
    left starts and ends with the same quote character. *)
Theorem parse_value_normalization ws ws1 name rest tail :
  all_space ws = true -> ws1 <> [] -> all_space ws1 = true ->
  is_identifier name = true -> contains LF rest = false ->
  tail = [] \/ tail = [LF] ->
  parse_export_line
    (ws ++ lit "export" ++ ws1 ++ name ++ EQUALS :: rest ++ tail)
  = Some (name, strip_quotes (strip rest))
  /\ parse_export_line (ws ++ name ++ EQUALS :: rest ++ tail)
     = Some (name, strip_quotes (strip rest))
  /\ exists a b,
       rest = a ++ strip rest ++ b /\ all_space a = true
       /\ all_space b = true
       /\ (forall c, head (strip rest) = Some c -> is_space c = false)
       /\ (forall c, last (strip rest) = Some c -> is_space c = false).
Proof.
  intros Hws Hne Hws1 Hn Hr Ht. split; [|split].
  - rewrite parse_export_form, rest_Some by done. done.
  - rewrite parse_bare_form, rest_Some by done. done.
  - apply strip_spec.
Qed.

Lemma parse_value_normalization_witness :
  parse_export_line (lit "  export  FOO=  'a b'  " ++ [LF])
  = Some (lit "FOO", lit "a b").
Proof.
  pose proof (parse_value_normalization (lit "  ") (lit "  ") (lit "FOO")
                (lit "  'a b'  ") [LF] eq_refl ltac:(discriminate) eq_refl eq_refl eq_refl
                (or_intror eq_refl)) as [H _].
  exact H.
Defined.

(** C5 as stated fails: the whitespace that starts REST is removed too. *)
Lemma parse_keeps_no_leading_space :
  parse_export_line (lit "X= a")
  <> Some (lit "X", strip_quotes (rstrip (lit " a")))
  /\ parse_export_line (lit "X= a") = Some (lit "X", lit "a").
Proof. vm_compute. split; [discriminate | reflexivity]. Qed.
(** ** Lines *)

Lemma split_lines_complete b s :
  LF ∉ b -> split_lines (b ++ LF :: s) = (b ++ [LF]) :: split_lines s.
Proof.
  induction b as [|c b IH]; intros Hb.
  - done.
  - apply not_elem_of_cons in Hb as [Hc Hb]. cbn [app split_lines].
    destruct (N.eqb_spec c LF); [congruence|]. by rewrite IH.
Qed.

Lemma split_lines_partial l :
  l <> [] -> LF ∉ l -> split_lines l = [l].
Proof.
  induction l as [|c l IH]; [done|]. intros _ Hl.
  apply not_elem_of_cons in Hl as [Hc Hl]. cbn [split_lines].
  destruct (N.eqb_spec c LF); [congruence|].
  destruct l as [|d l]; [done|]. by rewrite IH.
Qed.

Lemma universal_newlines_id s : CR ∉ s -> universal_newlines s = s.
Proof.
  induction s as [|c s IH]; [done|]. intros [Hc Hs]%not_elem_of_cons.
  cbn [universal_newlines]. destruct (N.eqb_spec c CR); [congruence|].
  by rewrite IH.
Qed.

Lemma universal_newlines_no_CR s : CR ∉ universal_newlines s.
Proof.
  enough ((CR ∉ universal_newlines s)
          /\ forall c, CR ∉ universal_newlines (c :: s)) by tauto.
  induction s as [|d r [IH1 IH2]].
  - split; [by intros ?%elem_of_nil|]. intros c. cbn [universal_newlines].
    destruct (N.eqb_spec c CR); apply not_elem_of_cons; split;
      try done; by intros ?%elem_of_nil.
  - split; [apply IH2|]. intros c. cbn [universal_newlines].
    fold (universal_newlines (d :: r)).
    destruct (N.eqb_spec c CR).
    + destruct (d =? LF); apply not_elem_of_cons; split; try done; apply IH2.
    + apply not_elem_of_cons; split; [done | apply IH2].
Qed.

Lemma split_lines_file_lines s : CR ∉ s -> file_lines (split_lines s).
Proof.
  induction s as [|c s IH]; [constructor|].
  intros [Hc Hs]%not_elem_of_cons. cbn [split_lines].
  destruct (N.eqb_spec c LF) as [-> | Hne].
  - apply file_lines_cons; [|by apply IH]. exists [].
    split; [done|]. split; by intros ?%elem_of_nil.
  - specialize (IH Hs). inversion IH as [Heq | l Hl Heq | l ls Hl Hls Heq].
    + apply file_lines_last. repeat split; [done | |];
        apply not_elem_of_cons; split; try done; by intros ?%elem_of_nil.
    + apply file_lines_last. destruct Hl as (_ & H1 & H2).
      repeat split; [done | |]; apply not_elem_of_cons; split; done.
    + apply file_lines_cons; [|done]. destruct Hl as (b & -> & H1 & H2).
      exists (c :: b). split; [done|].
      split; apply not_elem_of_cons; split; done.
Qed.

Lemma readlines_file_lines content : file_lines (readlines content).
Proof. apply split_lines_file_lines, universal_newlines_no_CR. Qed.

Lemma read_config_file_lines w p : file_lines (read_config_file w p).
Proof.
  unfold read_config_file. destruct (files w !! p) as [content|].
  - destruct (encodable content); [apply readlines_file_lines | constructor].
  - constructor.
Qed.

Lemma complete_line_no_CR l : complete_line l -> CR ∉ l.
Proof.
  intros (b & -> & _ & Hb). rewrite elem_of_app, list_elem_of_singleton.
  intros [? | ?]; done.
Qed.

Lemma file_lines_no_CR ls : file_lines ls -> CR ∉ concat ls.
Proof.
  induction 1 as [| l (_ & _ & Hl) | l ls Hl _ IH]; cbn [concat].
  - by intros ?%elem_of_nil.
  - by rewrite app_nil_r.
  - rewrite elem_of_app. intros [? | ?]; [|done].
    by apply complete_line_no_CR in Hl.
Qed.

Lemma split_lines_concat ls : file_lines ls -> split_lines (concat ls) = ls.
Proof.
  induction 1 as [| l (Hne & Hl & _) | l ls (b & -> & Hb & _) _ IH];
    cbn [concat].
  - done.
  - rewrite app_nil_r. by apply split_lines_partial.
  - rewrite <- app_assoc. cbn [app]. by rewrite split_lines_complete, IH.
Qed.

(** Reading back what was written as lines gives the lines. *)
Lemma readlines_concat ls : file_lines ls -> readlines (concat ls) = ls.
Proof.
  intros H. unfold readlines.
  rewrite universal_newlines_id by by apply file_lines_no_CR.
  by apply split_lines_concat.
Qed.

Lemma file_lines_app ls ls' :
  Forall complete_line ls -> file_lines ls' -> file_lines (ls ++ ls').
Proof.
  induction 1; cbn [app]; [done|]. intros. apply file_lines_cons; auto.
Qed.

Lemma file_lines_complete ls : Forall complete_line ls -> file_lines ls.
Proof.
  intros H. rewrite <- (app_nil_r ls). apply file_lines_app; [done|constructor].
Qed.

Lemma complete_line_ends l : complete_line l -> ends_with_newline l = true.
Proof.
  intros (b & -> & _). unfold ends_with_newline, endswith.
  by rewrite last_snoc.
Qed.

Lemma partial_line_ends l : partial_line l -> ends_with_newline l = false.
Proof.
  intros (Hne & Hl & _). unfold ends_with_newline, endswith.
  destruct (last l) as [x|] eqn:E; [|done].
  destruct (N.eqb_spec x LF) as [-> | ?]; [|done].
  apply last_Some_elem_of in E. done.
Qed.

Lemma partial_line_terminated l : partial_line l -> complete_line (l ++ [LF]).
Proof. intros (_ & ? & ?). by exists l. Qed.

Lemma terminated_complete ls :
  file_lines ls -> Forall complete_line (terminated ls).
Proof.
  induction 1 as [| l Hl | l ls Hl Hls IH].
  - constructor.
  - cbn [terminated]. rewrite partial_line_ends by done.
    constructor; [by apply partial_line_terminated | constructor].
  - destruct ls as [|l' ls].
    + cbn [terminated]. rewrite complete_line_ends by done.
      by constructor.
    + change (terminated (l :: l' :: ls)) with (l :: terminated (l' :: ls)).
      by constructor.
Qed.

(** ** The update loop *)

Lemma update_loop name f lines acc b :
  foldl (update_step name f) (acc, b) lines
  = (acc ++ ((fun l => if assigns name l then f else l) <$> lines),
     b || existsb (assigns name) lines).
Proof.
  revert acc b. induction lines as [|l lines IH]; intros acc b.
  - cbn. by rewrite app_nil_r, orb_false_r.
  - cbn [foldl fmap list_fmap existsb]. unfold update_step at 2.
    cbn [fst snd]. destruct (assigns name l); rewrite IH, <- app_assoc.
    + by rewrite orb_true_r.
    + done.
Qed.

Lemma updated_lines_matched lines name value :
  existsb (assigns name) lines = true ->
  updated_lines lines name value = rewritten name value <$> lines.
Proof.
  intros H. unfold updated_lines. rewrite update_loop, H. done.
Qed.

Lemma rewritten_unmatched lines name value :
  existsb (assigns name) lines = false ->
  rewritten name value <$> lines = lines.
Proof.
  induction lines as [|l lines IH]; [done|]. cbn [existsb fmap list_fmap].
  intros [Hl Hls]%orb_false_iff. unfold rewritten at 1. rewrite Hl.
  f_equal. by apply IH.
Qed.

Lemma concat_terminated lines :
  concat (terminated lines)
  = concat (match last lines with
            | Some l => if ends_with_newline l then lines else lines ++ [[LF]]
            | None => lines
            end).
Proof.
  induction lines as [|l lines IH]; [done|].
  destruct lines as [|l' lines].
  - cbn [terminated last]. destruct (ends_with_newline l); [done|].
    cbn [concat app]. by rewrite !app_nil_r.
  - change (terminated (l :: l' :: lines)) with (l :: terminated (l' :: lines)).
    change (last (l :: l' :: lines)) with (last (l' :: lines)).
    cbn [concat]. rewrite IH. destruct (last (l' :: lines)); [|done].
    by destruct (ends_with_newline _).
Qed.

Lemma updated_lines_unmatched lines name value :
  existsb (assigns name) lines = false ->
  concat (updated_lines lines name value)
  = concat (terminated lines ++ [format_export_line name value]).
Proof.
  intros H. unfold updated_lines. rewrite update_loop, H. cbn [app orb].
  fold (rewritten name value). rewrite rewritten_unmatched by done.
  by rewrite !concat_app, concat_terminated.
Qed.

(** ** Parsing a line with and without its terminator *)

Lemma takewhile_snoc_stop {A} (p : A -> bool) l x :
  p x = false -> takewhile p (l ++ [x]) = takewhile p l.
Proof.
  intros Hx. induction l as [|y l IH]; cbn [app takewhile].
  - by rewrite Hx.
  - destruct (p y); [by rewrite IH | done].
Qed.

Lemma dropwhile_snoc_stop {A} (p : A -> bool) l x :
  p x = false -> dropwhile p (l ++ [x]) = dropwhile p l ++ [x].
Proof.
  intros Hx. induction l as [|y l IH]; cbn [app dropwhile].
  - by rewrite Hx.
  - destruct (p y); [by rewrite IH | done].
Qed.

Lemma dropwhile_snoc {A} (p : A -> bool) l x :
  p x = true ->
  dropwhile p (l ++ [x])
  = match dropwhile p l with [] => [] | d => d ++ [x] end.
Proof.
  intros Hx. induction l as [|y l IH]; cbn [app dropwhile].
  - by rewrite Hx.
  - destruct (p y); [by rewrite IH | done].
Qed.

Lemma rest_terminated d : LF ∉ d -> Re.rest (d ++ [LF]) = Re.rest d.
Proof.
  intros Hd%contains_false. rewrite rest_line, Hd.
  rewrite <- (app_nil_r d) at 2. symmetry. by apply rest_Some; [|left].
Qed.

Lemma assignment_terminated s :
  LF ∉ s -> Re.assignment (s ++ [LF]) = Re.assignment s.
Proof.
  intros Hs. destruct s as [|c r]; [done|].
  unfold Re.assignment, Re.ident. cbn [app].
  destruct (is_ident_start c); [|done].
  rewrite takewhile_snoc_stop, dropwhile_snoc_stop by done.
  cbn [mbind option_bind].
  assert (LF ∉ dropwhile is_ident_char r) as Hd.
  { intros H%dropwhile_elem_of. apply Hs. by right. }
  destruct (dropwhile is_ident_char r) as [|e d]; [done|].
  cbn [app Re.literal]. destruct (EQUALS =? e); [|done].
  cbn [mbind option_bind]. rewrite rest_terminated; [done|].
  intros H. apply Hd. by right.
Qed.

Lemma spaces0_then_assignment s :
  LF ∉ s ->
  Re.assignment (Re.spaces0 (s ++ [LF])) = Re.assignment (Re.spaces0 s).
Proof.
  intros Hs. unfold Re.spaces0. rewrite dropwhile_snoc by done.
  assert (LF ∉ dropwhile is_space s) as Hd.
  { by intros H%dropwhile_elem_of. }
  destruct (dropwhile is_space s) as [|c d] eqn:E; [done|].
  by apply assignment_terminated.
Qed.

Lemma literal_terminated pat s :
  LF ∉ pat ->
  Re.literal pat (s ++ [LF]) = (fun r => r ++ [LF]) <$> Re.literal pat s.
Proof.
  revert s. induction pat as [|p pat IH]; intros s Hp; [by destruct s|].
  apply not_elem_of_cons in Hp as [Hne Hp].
  destruct s as [|c s]; cbn [app Re.literal].
  - destruct (N.eqb_spec p LF); [congruence | done].
  - destruct (p =? c); [by apply IH | done].
Qed.

Lemma export_form_terminated s :
  LF ∉ s -> Re.export_form (s ++ [LF]) = Re.export_form s.
Proof.
  intros Hs. unfold Re.export_form, Re.spaces0.
  rewrite dropwhile_snoc by done.
  assert (LF ∉ dropwhile is_space s) as Hd.
  { by intros H%dropwhile_elem_of. }
  destruct (dropwhile is_space s) as [|c d] eqn:E; [done|].
  rewrite literal_terminated.
  2:{ intros H%list_elem_of_In. vm_compute in H. intuition discriminate. }
  destruct (Re.literal (lit "export") (c :: d)) as [s1|] eqn:El; [|done].
  cbn [fmap option_fmap option_map mbind option_bind].
  assert (LF ∉ s1) as Hs1.
  { apply literal_Some in El. rewrite El in Hd. intros H. apply Hd.
    apply elem_of_app. by right. }
  destruct s1 as [|x s1]; [done|]. cbn [app Re.spaces1].
  destruct (is_space x); [|done]. cbn [mbind option_bind].
  apply (spaces0_then_assignment s1). intros H. apply Hs1. by right.
Qed.

Lemma bare_form_terminated s :
  LF ∉ s -> Re.bare_form (s ++ [LF]) = Re.bare_form s.
Proof. apply spaces0_then_assignment. Qed.

(** A last line reads the same once it is given its terminator. *)
Lemma parse_terminated l :
  LF ∉ l -> parse_export_line (l ++ [LF]) = parse_export_line l.
Proof.
  intros Hl. unfold parse_export_line, patterns. cbn [parse_with].
  by rewrite export_form_terminated, bare_form_terminated.
Qed.

Lemma assigns_terminated name l :
  LF ∉ l -> assigns name (l ++ [LF]) = assigns name l.
Proof. intros Hl. unfold assigns. by rewrite parse_terminated. Qed.

(** ** Names that are parsed are identifiers *)

Lemma ident_identifier s n r :
  Re.ident s = Some (n, r) -> is_identifier n = true /\ s = n ++ r.
Proof.
  unfold Re.ident. destruct s as [|c s]; [done|].
  destruct (is_ident_start c) eqn:Hc; [|done]. intros [= <- <-].
  cbn [is_identifier]. rewrite Hc, takewhile_forallb.
  split; [done|]. cbn [app]. by rewrite take_drop_while.
Qed.

Lemma assignment_identifier s n v :
  Re.assignment s = Some (n, v) -> is_identifier n = true.
Proof.
  unfold Re.assignment. destruct (Re.ident s) as [[name s1]|] eqn:E; [|done].
  cbn [mbind option_bind]. apply ident_identifier in E as [Hn _].
  destruct (Re.literal [EQUALS] s1); [|done]. cbn [mbind option_bind].
  destruct (Re.rest _); [|done]. cbn [mbind option_bind]. by intros [= <- _].
Qed.

Lemma parse_identifier line n v :
  parse_export_line line = Some (n, v) -> is_identifier n = true.
Proof.
  unfold parse_export_line, patterns. cbn [parse_with].
  destruct (Re.export_form line) as [[n1 g]|] eqn:E1.
  - intros [= <- _]. unfold Re.export_form in E1.
    destruct (Re.literal _ _); [|done]. cbn [mbind option_bind] in E1.
    destruct (Re.spaces1 _); [|done]. cbn [mbind option_bind] in E1.
    by apply assignment_identifier in E1.
  - destruct (Re.bare_form line) as [[n2 g]|] eqn:E2; [|done].
    intros [= <- _]. by apply assignment_identifier in E2.
Qed.


Lemma identifier_chars name c :
  is_identifier name = true -> c ∈ name -> is_ident_char c = true.
Proof.
  intros (x & r & -> & Hx & Hr)%is_identifier_inv.
  intros [-> | Hc]%elem_of_cons; [by apply ident_start_is_ident_char|].
  rewrite forallb_forall in Hr. apply Hr. by apply list_elem_of_In.
Qed.

(** ** The formatted line is one line *)

Lemma escape_quotes_elem_of c v :
  c ∈ escape_quotes v -> c ∈ v \/ c = BACKSLASH.
Proof.
  unfold escape_quotes. induction v as [|x v IH]; cbn [flat_map]; [by left|].
  rewrite elem_of_app. intros [H | H].
  - destruct (x =? DQUOTE) eqn:E.
    + apply N.eqb_eq in E as ->.
      apply elem_of_cons in H as [-> | H]; [by right|].
      apply list_elem_of_singleton in H as ->. left. left.
    + apply list_elem_of_singleton in H as ->. left. left.
  - destruct (IH H) as [? | ?]; [left; by right | by right].
Qed.

Lemma format_export_line_shape name value :
  exists b,
    format_export_line name value = b ++ [LF]
    /\ forall c, c ∈ b ->
         c ∈ lit "export " \/ c ∈ name \/ c ∈ value
         \/ c ∈ [EQUALS; DQUOTE; BACKSLASH].
Proof.
  unfold format_export_line. destruct (needs_quotes value).
  - exists (lit "export " ++ name ++ [EQUALS; DQUOTE] ++ escape_quotes value
            ++ [DQUOTE]).
    split; [by rewrite <- !app_assoc|]. intros c.
    rewrite !elem_of_app.
    intros [? | [? | [H | [[?|?]%escape_quotes_elem_of | H]]]]; auto;
      right; right; right; rewrite ?list_elem_of_In in *; subst;
      cbn [In] in *; tauto.
  - exists (lit "export " ++ name ++ [EQUALS] ++ value).
    split; [by rewrite <- !app_assoc|]. intros c. rewrite !elem_of_app.
    intros [? | [? | [H | ?]]]; auto.
    right; right; right. rewrite ?list_elem_of_In in *. cbn [In] in *. tauto.
Qed.

Lemma format_export_line_complete name value :
  is_identifier name = true -> no_line_break value = true ->
  complete_line (format_export_line name value).
Proof.
  intros Hn [Hlf Hcr]%andb_true_iff.
  apply negb_true_iff, contains_false in Hlf, Hcr.
  destruct (format_export_line_shape name value) as (b & -> & Hb).
  exists b. split; [done|].
  split; intros [H | [H | [H | H]]]%Hb; try done.
  - apply list_elem_of_In in H. vm_compute in H. intuition discriminate.
  - by apply (identifier_chars _ _ Hn) in H.
  - apply list_elem_of_In in H. vm_compute in H. intuition discriminate.
  - apply list_elem_of_In in H. vm_compute in H. intuition discriminate.
  - by apply (identifier_chars _ _ Hn) in H.
  - apply list_elem_of_In in H. vm_compute in H. intuition discriminate.
Qed.

Lemma assigns_format name value :
  is_identifier name = true -> contains LF value = false ->
  assigns name (format_export_line name value) = true.
Proof.
  intros Hn Hv. unfold assigns. rewrite parse_format, Hv by done.
  by apply bool_decide_eq_true.
Qed.
(** ** Text that can be written *)

Lemma encodable_app s t : encodable (s ++ t) = encodable s && encodable t.
Proof. apply forallb_app. Qed.

Lemma encodable_elem_of s :
  encodable s = true <-> forall c, c ∈ s -> is_scalar c = true.
Proof.
  unfold encodable. rewrite forallb_forall.
  split; intros H c Hc; apply H; by apply list_elem_of_In.
Qed.

Lemma encodable_concat ls : encodable (concat ls) = forallb encodable ls.
Proof.
  induction ls as [|l ls IH]; [done|]. cbn [concat forallb].
  by rewrite encodable_app, IH.
Qed.

Lemma forallb_encodable_elem_of ls :
  forallb encodable ls = true <-> forall l, l ∈ ls -> encodable l = true.
Proof.
  rewrite forallb_forall.
  split; intros H l Hl; apply H; by apply list_elem_of_In.
Qed.

Lemma universal_newlines_elem_of s c :
  c ∈ universal_newlines s -> c ∈ s \/ c = LF.
Proof.
  enough ((c ∈ universal_newlines s -> c ∈ s \/ c = LF)
          /\ forall d, c ∈ universal_newlines (d :: s) ->
                       c ∈ d :: s \/ c = LF) by tauto.
  induction s as [|e r [IH1 IH2]].
  - split; [by intros ?%elem_of_nil|]. intros d. cbn [universal_newlines].
    destruct (d =? CR).
    + intros ->%list_elem_of_singleton. by right.
    + intros ->%list_elem_of_singleton. left. left.
  - split; [apply IH2|]. intros d. cbn [universal_newlines].
    fold (universal_newlines (e :: r)).
    destruct (d =? CR).
    + destruct (e =? LF).
      * intros [-> | H]%elem_of_cons; [by right|].
        destruct (IH1 H); [left; right; by right | by right].
      * intros [-> | H]%elem_of_cons; [by right|].
        destruct (IH2 e H); [left; by right | by right].
    + intros [-> | H]%elem_of_cons; [left; left|].
      destruct (IH2 e H); [left; by right | by right].
Qed.

Lemma split_lines_elem_of s l c : l ∈ split_lines s -> c ∈ l -> c ∈ s.
Proof.
  revert l. induction s as [|d s IH]; intros l; cbn [split_lines].
  { by intros ?%elem_of_nil. }
  destruct (N.eqb_spec d LF) as [-> | Hne].
  - intros [-> | H]%elem_of_cons.
    + intros ->%list_elem_of_singleton. left.
    + intros Hc. right. by apply (IH l).
  - destruct (split_lines s) as [|l0 ls].
    + intros ->%list_elem_of_singleton ->%list_elem_of_singleton. left.
    + intros [-> | H]%elem_of_cons.
      * intros [-> | Hc]%elem_of_cons; [left | right].
        apply (IH l0); [left | done].
      * intros Hc. right. apply (IH l); [by right | done].
Qed.

Lemma readlines_encodable content :
  encodable content = true -> forallb encodable (readlines content) = true.
Proof.
  intros H. apply forallb_encodable_elem_of. intros l Hl.
  apply encodable_elem_of. intros c Hc.
  apply (split_lines_elem_of _ _ _ Hl) in Hc.
  apply universal_newlines_elem_of in Hc as [Hc | ->]; [|done].
  by apply (proj1 (encodable_elem_of content) H).
Qed.

(** Every line that is read can be written. *)
Lemma read_config_file_encodable w p :
  forallb encodable (read_config_file w p) = true.
Proof.
  unfold read_config_file. destruct (files w !! p) as [content|]; [|done].
  destruct (encodable content) eqn:E; [|done]. by apply readlines_encodable.
Qed.

Lemma ident_char_scalar c : is_ident_char c = true -> is_scalar c = true.
Proof.
  intros H. unfold is_scalar. apply orb_true_iff. left. apply N.ltb_lt.
  char_facts.
Qed.

Lemma identifier_encodable name :
  is_identifier name = true -> encodable name = true.
Proof.
  intros Hn. apply encodable_elem_of. intros c Hc.
  by apply ident_char_scalar, (identifier_chars name).
Qed.

Lemma format_export_line_encodable name value :
  encodable name = true -> encodable value = true ->
  encodable (format_export_line name value) = true.
Proof.
  intros Hn Hv.
  destruct (format_export_line_shape name value) as (b & -> & Hb).
  rewrite encodable_app, andb_true_r. apply encodable_elem_of. intros c Hc.
  destruct (Hb c Hc) as [H | [H | [H | H]]].
  - apply list_elem_of_In in H. vm_compute in H.
    repeat (destruct H as [<- | H]; [reflexivity|]). destruct H.
  - by apply (proj1 (encodable_elem_of name) Hn).
  - by apply (proj1 (encodable_elem_of value) Hv).
  - apply list_elem_of_In in H. cbn [In] in H.
    repeat (destruct H as [<- | H]; [reflexivity|]). destruct H.
Qed.

Lemma escape_quotes_keeps c v : c ∈ v -> c ∈ escape_quotes v.
Proof.
  unfold escape_quotes. induction v as [|x v IH]; [done|]. cbn [flat_map].
  intros [-> | H]%elem_of_cons; apply elem_of_app.
  - left. destruct (x =? DQUOTE) eqn:E; [|left].
    apply N.eqb_eq in E as ->. right. left.
  - right. auto.
Qed.

(** A value that cannot be encoded makes a line that cannot. *)
Lemma format_export_line_unencodable name value :
  encodable value = false -> encodable (format_export_line name value) = false.
Proof.
  intros Hv. destruct (encodable (format_export_line name value)) eqn:E;
    [|done].
  assert (encodable value = true); [|congruence].
  apply encodable_elem_of. intros c Hc.
  apply (proj1 (encodable_elem_of _) E). unfold format_export_line.
  destruct (needs_quotes value); rewrite !elem_of_app.
  - right. right. right. left. by apply escape_quotes_keeps.
  - right. right. right. by left.
Qed.

Lemma rewritten_encodable name value lines :
  forallb encodable lines = true ->
  encodable (format_export_line name value) = true ->
  forallb encodable (rewritten name value <$> lines) = true.
Proof.
  intros Hl Hf. apply forallb_encodable_elem_of.
  intros l (l0 & -> & Hin)%list_elem_of_fmap. unfold rewritten.
  destruct (assigns name l0); [done|].
  by apply (proj1 (forallb_encodable_elem_of lines) Hl).
Qed.

Lemma updated_lines_encodable lines name value :
  forallb encodable lines = true ->
  encodable (format_export_line name value) = true ->
  forallb encodable (updated_lines lines name value) = true.
Proof.
  intros Hl Hf. unfold updated_lines. rewrite update_loop. cbn [app orb].
  fold (rewritten name value).
  pose proof (rewritten_encodable name value lines Hl Hf) as Hr.
  destruct (existsb (assigns name) lines); [done|].
  rewrite forallb_app. cbn [forallb]. rewrite Hf.
  destruct (last (rewritten name value <$> lines)) as [l|];
    [destruct (ends_with_newline l)|];
    rewrite ?forallb_app, Hr; done.
Qed.

Lemma write_config_file_ok self w filepath lines :
  dry_run self = false -> filepath ∉ unwritable w ->
  forallb encodable lines = true ->
  write_config_file self w filepath lines
  = (true, with_files (<[filepath := concat lines]> (files w)) w).
Proof.
  intros Hd Hw Hl. unfold write_config_file. rewrite Hd.
  rewrite bool_decide_eq_false_2 by done. by rewrite Hl, takewhile_all.
Qed.

Lemma write_config_file_refused self w filepath lines :
  dry_run self = false -> filepath ∈ unwritable w ->
  write_config_file self w filepath lines = (false, w).
Proof.
  intros Hd Hw. unfold write_config_file. rewrite Hd.
  by rewrite bool_decide_eq_true_2.
Qed.

(** ** Updating a file *)

(** The update that succeeds: the file can be opened for writing, and
    the name and the value can be encoded. *)
Lemma update_variable_in_file_files self w filepath name value :
  dry_run self = false -> filepath ∉ unwritable w ->
  encodable name = true -> encodable value = true ->
  update_variable_in_file self w filepath name value
  = (true,
     with_files
       (<[filepath := concat (updated_lines (read_config_file w filepath)
                                name value)]> (files w)) w).
Proof.
  intros Hd Hw Hn Hv. unfold update_variable_in_file. rewrite Hd.
  apply write_config_file_ok; [done | done|].
  apply updated_lines_encodable; [apply read_config_file_encodable|].
  by apply format_export_line_encodable.
Qed.

Lemma read_config_file_written w filepath content :
  encodable content = true ->
  read_config_file (with_files (<[filepath := content]> (files w)) w) filepath
  = readlines content.
Proof.
  intros H. unfold read_config_file. cbn. by rewrite lookup_insert_eq, H.
Qed.

Lemma updated_content_encodable w filepath name value :
  encodable name = true -> encodable value = true ->
  encodable (concat (updated_lines (read_config_file w filepath) name value))
  = true.
Proof.
  intros Hn Hv. rewrite encodable_concat.
  apply updated_lines_encodable; [apply read_config_file_encodable|].
  by apply format_export_line_encodable.
Qed.


Lemma file_lines_rewritten name value lines :
  complete_line (format_export_line name value) ->
  file_lines lines -> file_lines (rewritten name value <$> lines).
Proof.
  intros Hf. induction 1 as [| l Hl | l ls Hl Hls IH]; cbn [fmap list_fmap].
  - constructor.
  - unfold rewritten. destruct (assigns name l).
    + apply file_lines_cons; [done | constructor].
    + by apply file_lines_last.
  - apply file_lines_cons; [|done]. unfold rewritten.
    by destruct (assigns name l).
Qed.



Lemma demo_world_writable fs p : p ∉ unwritable (demo_world fs).
Proof. apply not_elem_of_empty. Qed.



Lemma rewritten_format name value :
  rewritten name value (format_export_line name value)
  = format_export_line name value.
Proof. unfold rewritten. by destruct (assigns _ _). Qed.

Lemma rewritten_idem name value (lines : list str) :
  rewritten name value <$> (rewritten name value <$> lines)
  = rewritten name value <$> lines.
Proof.
  rewrite <- list_fmap_compose. apply list_fmap_ext. intros _ l _. cbn.
  destruct (assigns name l) eqn:E.
  - replace (rewritten name value l) with (format_export_line name value)
      by (unfold rewritten; by rewrite E).
    apply rewritten_format.
  - replace (rewritten name value l) with l
      by (unfold rewritten; by rewrite E).
    unfold rewritten. by rewrite E.
Qed.

Lemma existsb_rewritten name value lines :
  is_identifier name = true -> contains LF value = false ->
  existsb (assigns name) lines = true ->
  existsb (assigns name) (rewritten name value <$> lines) = true.
Proof.
  intros Hn Hv (l & Hin & Hl)%existsb_exists. apply existsb_exists.
  exists (rewritten name value l). split.
  - apply in_map_iff. eauto.
  - unfold rewritten. rewrite Hl. by apply assigns_format.
Qed.

Lemma existsb_assigns_terminated name lines :
  file_lines lines ->
  existsb (assigns name) (terminated lines) = existsb (assigns name) lines.
Proof.
  induction 1 as [| l Hl | l ls Hl Hls IH]; [done| |].
  - cbn [terminated]. rewrite partial_line_ends by done. cbn [existsb].
    destruct Hl as (_ & Hl & _). by rewrite assigns_terminated.
  - destruct ls as [|l' ls].
    + cbn [terminated]. by rewrite complete_line_ends.
    + change (terminated (l :: l' :: ls)) with (l :: terminated (l' :: ls)).
      cbn [existsb]. by rewrite IH.
Qed.

Lemma no_line_break_LF value :
  no_line_break value = true -> contains LF value = false.
Proof. intros [H _]%andb_true_iff. by apply negb_true_iff. Qed.

(** What the file reads as after an update. *)
Lemma read_after_update lines name value :
  file_lines lines -> is_identifier name = true ->
  no_line_break value = true ->
  readlines (concat (updated_lines lines name value))
  = if existsb (assigns name) lines then rewritten name value <$> lines
    else terminated lines ++ [format_export_line name value].
Proof.
  intros Hl Hn Hv.
  pose proof (format_export_line_complete name value Hn Hv) as Hf.
  destruct (existsb (assigns name) lines) eqn:E.
  - rewrite updated_lines_matched by done.
    by apply readlines_concat, file_lines_rewritten.
  - rewrite updated_lines_unmatched by done.
    apply readlines_concat, file_lines_complete, Forall_app.
    split; [by apply terminated_complete | by constructor].
Qed.

(** Updating the lines read after an update changes nothing. *)
Lemma update_fixpoint lines name value :
  file_lines lines -> is_identifier name = true ->
  no_line_break value = true ->
  concat (updated_lines
            (readlines (concat (updated_lines lines name value))) name value)
  = concat (updated_lines lines name value).
Proof.
  intros Hl Hn Hv. pose proof (no_line_break_LF value Hv) as Hlf.
  rewrite read_after_update by done.
  destruct (existsb (assigns name) lines) eqn:E.
  - rewrite (updated_lines_matched (_ <$> _)) by by apply existsb_rewritten.
    by rewrite rewritten_idem, updated_lines_matched.
  - rewrite updated_lines_matched.
    2:{ rewrite existsb_app. cbn [existsb].
        rewrite assigns_format by done. by rewrite orb_true_r. }
    rewrite fmap_app. cbn [fmap list_fmap].
    rewrite rewritten_format, rewritten_unmatched.
    2:{ by rewrite existsb_assigns_terminated. }
    by rewrite updated_lines_unmatched.
Qed.

(** The update that is refused: the file stays as it is. *)
Lemma update_variable_in_file_refused self w filepath name value :
  dry_run self = false -> filepath ∈ unwritable w ->
  update_variable_in_file self w filepath name value = (false, w).
Proof.
  intros Hd Hw. unfold update_variable_in_file. rewrite Hd.
  by apply write_config_file_refused.
Qed.

(** What an update leaves in a file that can be opened. *)
Lemma update_variable_in_file_written self w filepath name value :
  dry_run self = false -> filepath ∉ unwritable w ->
  (update_variable_in_file self w filepath name value).2
  = with_files
      (<[filepath := concat (takewhile encodable
                               (updated_lines (read_config_file w filepath)
                                  name value))]> (files w)) w.
Proof.
  intros Hd Hw. unfold update_variable_in_file, write_config_file.
  rewrite Hd. by rewrite bool_decide_eq_false_2.
Qed.

Lemma terminated_id ls : Forall complete_line ls -> terminated ls = ls.
Proof.
  induction 1 as [|l ls Hl Hls IH]; [done|]. destruct ls as [|l' ls].
  - cbn [terminated]. by rewrite complete_line_ends.
  - change (terminated (l :: l' :: ls)) with (l :: terminated (l' :: ls)).
    by rewrite IH.
Qed.

Lemma complete_lines_end ls :
  Forall complete_line ls ->
  match last ls with
  | Some l => if ends_with_newline l then ls else ls ++ [[LF]]
  | None => ls
  end = ls.
Proof.
  intros H. destruct (last ls) as [l|] eqn:E; [|done].
  rewrite complete_line_ends; [done|].
  apply last_Some_elem_of in E. by apply (proj1 (Forall_forall _ _) H).
Qed.

(** The lines before the first that assigns [name]. *)
Lemma takewhile_rewritten name value lines :
  forallb encodable lines = true ->
  encodable (format_export_line name value) = false ->
  takewhile encodable (rewritten name value <$> lines)
  = takewhile (fun l => negb (assigns name l)) lines.
Proof.
  intros Hl Hf. induction lines as [|l lines IH]; [done|].
  cbn [forallb] in Hl. apply andb_true_iff in Hl as [Hl Hls].
  cbn [fmap list_fmap takewhile].
  replace (rewritten name value l)
    with (if assigns name l then format_export_line name value else l)
    by done.
  destruct (assigns name l); cbn [negb].
  - by rewrite Hf.
  - rewrite Hl. f_equal. by apply IH.
Qed.

Lemma lines_before_assignment name lines :
  file_lines lines -> existsb (assigns name) lines = true ->
  Forall complete_line (takewhile (fun l => negb (assigns name l)) lines).
Proof.
  induction 1 as [| l Hl | l ls Hl Hls IH]; cbn [existsb takewhile].
  - done.
  - rewrite orb_false_r. intros ->. constructor.
  - destruct (assigns name l); cbn [orb negb]; [constructor|].
    intros H. constructor; auto.
Qed.

Lemma takewhile_elem_of {A} (p : A -> bool) l x :
  x ∈ takewhile p l -> x ∈ l /\ p x = true.
Proof.
  induction l as [|y l IH]; cbn [takewhile]; [by intros ?%elem_of_nil|].
  destruct (p y) eqn:E; [|by intros ?%elem_of_nil].
  intros [-> | H]%elem_of_cons.
  - split; [left | done].
  - destruct (IH H). split; [by right | done].
Qed.

(** An update whose value cannot be encoded leaves complete lines that
    can be, none of which assigns the name. *)
Lemma update_failed_first lines name value :
  file_lines lines -> forallb encodable lines = true ->
  encodable (format_export_line name value) = false ->
  exists kept,
    concat (takewhile encodable (updated_lines lines name value))
    = concat kept
    /\ Forall complete_line kept
    /\ forallb encodable kept = true
    /\ existsb (assigns name) kept = false.
Proof.
  intros Hfl Hl Hf. unfold updated_lines. rewrite update_loop.
  cbn [app orb]. fold (rewritten name value).
  destruct (existsb (assigns name) lines) eqn:E.
  - exists (takewhile (fun l => negb (assigns name l)) lines).
    rewrite takewhile_rewritten by done. split; [done|].
    split; [by apply lines_before_assignment|]. split.
    + apply forallb_encodable_elem_of. intros l [Hin _]%takewhile_elem_of.
      by apply (proj1 (forallb_encodable_elem_of lines) Hl).
    + apply not_true_iff_false. intros (l & Hin & Ha)%existsb_exists.
      apply list_elem_of_In, takewhile_elem_of in Hin as [_ Hin].
      by rewrite Ha in Hin.
  - rewrite rewritten_unmatched by done. exists (terminated lines).
    assert (forallb encodable
              (match last lines with
               | Some l => if ends_with_newline l then lines
                           else lines ++ [[LF]]
               | None => lines
               end) = true) as Hfix.
    { destruct (last lines) as [l|]; [destruct (ends_with_newline l)|];
        rewrite ?forallb_app, ?Hl; done. }
    rewrite takewhile_stop by done. rewrite <- concat_terminated.
    split; [done|]. split; [by apply terminated_complete|]. split.
    + rewrite <- encodable_concat, concat_terminated, encodable_concat.
      done.
    + by rewrite existsb_assigns_terminated.
Qed.

Lemma update_failed_again kept name value :
  Forall complete_line kept -> forallb encodable kept = true ->
  existsb (assigns name) kept = false ->
  encodable (format_export_line name value) = false ->
  takewhile encodable (updated_lines kept name value) = kept.
Proof.
  intros Hc Hk Hno Hf. unfold updated_lines. rewrite update_loop.
  cbn [app orb]. fold (rewritten name value). rewrite Hno.
  rewrite rewritten_unmatched, complete_lines_end by done.
  by apply takewhile_stop.
Qed.

(** C7 (as corrected).  For a name that is an identifier and a value
    without a line break, a second [update_variable_in_file] with the
    same arguments leaves the world as the first one made it. *)
Theorem update_idempotent self w filepath name value :
  is_identifier name = true -> no_line_break value = true ->
  let w1 := (update_variable_in_file self w filepath name value).2 in
  let w2 := (update_variable_in_file self w1 filepath name value).2 in
  w2 = w1.
Proof.
  intros Hn Hv w1 w2. subst w1 w2. destruct (dry_run self) eqn:Hd.
  { unfold update_variable_in_file. by rewrite Hd. }
  destruct (decide (filepath ∈ unwritable w)) as [Hw | Hw].
  { rewrite (update_variable_in_file_refused self w) by done. cbn [snd].
    by rewrite update_variable_in_file_refused. }
  pose proof (identifier_encodable name Hn) as Hen.
  destruct (encodable value) eqn:Hev.
  - rewrite (update_variable_in_file_files self w) by done. cbn [snd].
    rewrite update_variable_in_file_files by done. cbn [snd].
    rewrite read_config_file_written by by apply updated_content_encodable.
    rewrite update_fixpoint by (done || apply read_config_file_lines).
    unfold with_files. cbn. by rewrite insert_insert_eq.
  - pose proof (format_export_line_unencodable name value Hev) as Hf.
    rewrite (update_variable_in_file_written self w) by done.
    destruct (update_failed_first (read_config_file w filepath) name value)
      as (kept & -> & Hc & Hk & Hno);
      [apply read_config_file_lines | apply read_config_file_encodable
      | done |].
    rewrite update_variable_in_file_written by done.
    rewrite read_config_file_written by by rewrite encodable_concat.
    rewrite readlines_concat by by apply file_lines_complete.
    rewrite update_failed_again by done.
    unfold with_files. cbn. by rewrite insert_insert_eq.
Qed.

Lemma update_idempotent_witness :
  (update_variable_in_file demo_self
     (update_variable_in_file demo_self world_no_final_newline demo_bashrc
        (lit "FOO") (lit "a b")).2
     demo_bashrc (lit "FOO") (lit "a b")).2
  = (update_variable_in_file demo_self world_no_final_newline demo_bashrc
       (lit "FOO") (lit "a b")).2.
Proof.
  exact (update_idempotent demo_self world_no_final_newline demo_bashrc
           (lit "FOO") (lit "a b") eq_refl eq_refl).
Defined.

(** C7 as stated fails: a value with a line feed is written as two
    lines, of which the second call rewrites the first and keeps the
    second; and a name that is no identifier is appended again. *)
Lemma update_not_idempotent :
  files (update_variable_in_file demo_self world_no_files demo_bashrc
           (lit "X") [97; LF; 98]).2 !! demo_bashrc
  = Some (lit "export X=a" ++ [LF] ++ lit "b" ++ [LF])
  /\ files (update_variable_in_file demo_self
              (update_variable_in_file demo_self world_no_files demo_bashrc
                 (lit "X") [97; LF; 98]).2
              demo_bashrc (lit "X") [97; LF; 98]).2 !! demo_bashrc
     = Some (lit "export X=a" ++ [LF] ++ lit "b" ++ [LF] ++ lit "b" ++ [LF])
  /\ files (update_variable_in_file demo_self world_no_files demo_bashrc
              (lit "1X") (lit "a")).2 !! demo_bashrc
     = Some (lit "export 1X=a" ++ [LF])
  /\ files (update_variable_in_file demo_self
              (update_variable_in_file demo_self world_no_files demo_bashrc
                 (lit "1X") (lit "a")).2
              demo_bashrc (lit "1X") (lit "a")).2 !! demo_bashrc
     = Some (lit "export 1X=a" ++ [LF] ++ lit "export 1X=a" ++ [LF]).
Proof. vm_compute. auto. Qed.
(** ** Dictionaries *)

Section DictFacts.
Context {K V : Type} `{EqDecision K}.
Implicit Types (d : dict K V) (k : K) (v : V).

Lemma dict_get_set k' k v d :
  dict_get k' (dict_set k v d)
  = if decide (k = k') then Some v else dict_get k' d.
Proof.
  induction d as [|[k0 v0] d IH]; cbn [dict_set dict_get].
  - done.
  - destruct (decide (k0 = k)) as [-> | Hne]; cbn [dict_get].
    + by destruct (decide (k = k')).
    + destruct (decide (k0 = k')) as [-> | Hne'].
      * by rewrite decide_False.
      * done.
Qed.

Lemma dict_get_None k d : k ∉ d.*1 -> dict_get k d = None.
Proof.
  induction d as [|[k0 v0] d IH]; [done|]. cbn [fmap list_fmap fst].
  intros [Hne Hd]%not_elem_of_cons. cbn [dict_get].
  rewrite decide_False by done. by apply IH.
Qed.

Lemma dict_set_keys k v d :
  (dict_set k v d).*1 = if decide (k ∈ d.*1) then d.*1 else d.*1 ++ [k].
Proof.
  induction d as [|[k0 v0] d IH]; cbn [dict_set fmap list_fmap fst].
  - rewrite decide_False; [done | by intros ?%elem_of_nil].
  - destruct (decide (k0 = k)) as [-> | Hne]; cbn [fmap list_fmap fst].
    + rewrite decide_True; [done | left].
    + fold (fmap (M:=list) (@fst K V)). rewrite IH.
      destruct (decide (k ∈ d.*1)) as [Hin | Hnin].
      * rewrite decide_True; [done | by right].
      * rewrite decide_False; [done|].
        intros [? | ?]%elem_of_cons; congruence.
Qed.

Lemma dict_set_NoDup k v d : NoDup d.*1 -> NoDup (dict_set k v d).*1.
Proof.
  intros Hd. rewrite dict_set_keys. destruct (decide (k ∈ d.*1)); [done|].
  apply NoDup_app. split; [done|]. split; [|apply NoDup_singleton].
  intros x Hx ->%list_elem_of_singleton. done.
Qed.

Lemma dict_get_update k d other :
  NoDup other.*1 ->
  dict_get k (dict_update d other)
  = match dict_get k other with
    | Some v => Some v
    | None => dict_get k d
    end.
Proof.
  unfold dict_update. revert d.
  induction other as [|[k0 v0] other IH]; intros d; [done|].
  cbn [fmap list_fmap fst]. intros [Hk0 Hnd]%NoDup_cons.
  cbn [foldl fst snd dict_get]. rewrite IH, dict_get_set by done.
  destruct (decide (k0 = k)) as [-> | Hne]; [|done].
  by rewrite dict_get_None.
Qed.
End DictFacts.

Lemma get_variables_from_file_NoDup w p :
  NoDup (get_variables_from_file w p).*1.
Proof.
  unfold get_variables_from_file.
  generalize (read_config_file w p). intros lines.
  assert (NoDup ([] : dict str str).*1) as H by constructor.
  revert H. generalize ([] : dict str str).
  induction lines as [|l lines IH]; intros d Hd; [done|].
  cbn [foldl]. apply IH. destruct (parse_export_line l) as [[n v]|]; [|done].
  by apply dict_set_NoDup.
Qed.

(** ** Merging the files of a shell *)

(** The value of [name] after the files [ps] have been merged on top of
    a value [acc]. *)
Lemma merged_fold w (ps : list str) d name :
  dict_get name
    (foldl (fun shell_vars config_file =>
              dict_update shell_vars (get_variables_from_file w config_file))
           d ps)
  = foldl (fun acc p =>
             match dict_get name (get_variables_from_file w p) with
             | Some v => Some v
             | None => acc
             end)
          (dict_get name d) ps.
Proof.
  revert d. induction ps as [|p ps IH]; intros d; [done|].
  cbn [foldl]. rewrite IH, dict_get_update; [done|].
  apply get_variables_from_file_NoDup.
Qed.

Lemma merged_fold_last w (ps : list str) acc name p v :
  dict_get name (get_variables_from_file w p) = Some v ->
  foldl (fun acc p =>
           match dict_get name (get_variables_from_file w p) with
           | Some v => Some v
           | None => acc
           end)
        acc (ps ++ [p])
  = Some v.
Proof. intros H. rewrite foldl_app. cbn [foldl]. by rewrite H. Qed.

(** C4.  When the candidate files of a shell are [f1; f2; f3], and [f1]
    and [f3] exist and both assign [x], the merged variables of the
    shell, as [get_all_variables] returns them, map [x] to the value it
    has in [f3], whatever [f2] holds. *)
Theorem merge_last_file_wins home w shell f1 f2 f3 x v1 v3 :
  config_files home shell = [f1; f2; f3] ->
  file_exists w f1 = true -> file_exists w f3 = true ->
  dict_get x (get_variables_from_file w f1) = Some v1 ->
  dict_get x (get_variables_from_file w f3) = Some v3 ->
  exists shell_vars,
    dict_get (Shell_value shell) (get_all_variables home w [shell])
    = Some shell_vars
    /\ dict_get x shell_vars = Some v3.
Proof.
  intros Hc H1 H3 Hv1 Hv3. exists (merged_variables home w shell).
  split.
  { unfold get_all_variables. cbn [foldl dict_set dict_get].
    by rewrite decide_True. }
  unfold merged_variables, find_existing_config_files. rewrite Hc.
  rewrite merged_fold.
  replace (List.filter (file_exists w) [f1; f2; f3])
    with (List.filter (file_exists w) [f1; f2] ++ [f3]).
  2:{ cbn [List.filter]. rewrite H1, H3. by destruct (file_exists w f2). }
  by apply merged_fold_last.
Qed.

Lemma merge_last_file_wins_witness :
  exists shell_vars,
    dict_get (lit "bash")
             (get_all_variables demo_home world_two_definitions [BASH])
    = Some shell_vars
    /\ dict_get (lit "X") shell_vars = Some (lit "2").
Proof.
  apply (merge_last_file_wins demo_home world_two_definitions BASH
           demo_bashrc (lit "/home/u/.bash_profile") demo_profile
           (lit "X") (lit "1") (lit "2"));
    reflexivity.
Defined.

(** ** Removing a variable *)

Lemma filter_none {A} (p : A -> bool) l :
  (forall x, x ∈ l -> p x = false) -> List.filter p l = [].
Proof.
  induction l as [|x l IH]; [done|]. intros H. cbn [List.filter].
  rewrite H by left. apply IH. intros y Hy. apply H. by right.
Qed.

(** C8.  When no existing configuration file of the target shells
    assigns [name], [remove_variable] returns [True] and leaves the
    world, and so every file, as it was. *)
Theorem remove_absent_is_noop home self w name shells skip_confirmation :
  (forall shell p,
     shell ∈ shells -> p ∈ find_existing_config_files home w shell ->
     dict_get name (get_variables_from_file w p) = None) ->
  remove_variable home self w name shells skip_confirmation = (true, w).
Proof.
  intros H. unfold remove_variable.
  replace (files_defining home w name shells) with ([] : list str); [done|].
  symmetry. unfold files_defining.
  induction shells as [|shell shells IH]; [done|]. cbn [flat_map].
  rewrite IH by (intros s p Hs; apply H; by right).
  rewrite app_nil_r. apply filter_none. intros p Hp.
  unfold dict_has. rewrite (H shell p); [done | left | done].
Qed.

Lemma remove_absent_is_noop_witness :
  remove_variable demo_home demo_self world_two_definitions (lit "Y")
                  [BASH; ZSH; SH] false
  = (true, world_two_definitions).
Proof.
  apply (remove_absent_is_noop demo_home demo_self world_two_definitions
           (lit "Y") [BASH; ZSH; SH] false).
  intros shell p _ Hp. apply list_elem_of_In in Hp.
  destruct shell; vm_compute in Hp;
    repeat (destruct Hp as [<- | Hp]; [reflexivity|]); destruct Hp.
Defined.

(** ** Restore *)

(** C10.  In dry-run mode [restore_backup] returns [True] for every
    [backup_id], found or not, and leaves the world as it was: no file
    is written and no pre-restore archive is made. *)
Theorem restore_dry_run home self w backup_id :
  dry_run self = true ->
  restore_backup home self w backup_id = (true, w).
Proof. intros H. unfold restore_backup. by rewrite H. Qed.

Lemma restore_dry_run_witness :
  restore_backup demo_home
    {| config_dir := lit "/home/u/.config/setvar";
       backup_enabled := true; dry_run := true |}
    world_no_files (lit "no such backup")
  = (true, world_no_files)
  /\ restore_backup demo_home demo_self world_no_files (lit "no such backup")
     = (false, world_no_files).
Proof.
  split; [|reflexivity].
  apply (restore_dry_run demo_home _ world_no_files (lit "no such backup")).
  reflexivity.
Defined.
(** ** The archive and the place a restore writes to *)

Lemma basename_joinpath d name :
  contains SLASH name = false -> basename (joinpath d name) = name.
Proof.
  intros Hn. unfold basename, joinpath.
  rewrite !reverse_app. cbn [app]. rewrite reverse_singleton.
  rewrite <- app_assoc. cbn [app]. rewrite takewhile_stop.
  - apply reverse_involutive.
  - rewrite forallb_reverse. apply forallb_forall. intros c Hc.
    apply negb_true_iff, N.eqb_neq. intros ->.
    apply list_elem_of_In, contains_elem_of in Hc. congruence.
  - done.
Qed.

(** C2 (the defect).  An archive names the copy of a configuration file
    by its base name, which starts with a dot, and [restore_backup]
    writes the copy to the home directory under that name with one more
    dot: never the path the copy was taken from. *)
Theorem restore_target_is_not_the_original home shell filepath :
  filepath ∈ config_files home shell ->
  exists name,
    filepath = joinpath home (DOT :: name)
    /\ basename filepath = DOT :: name
    /\ restore_target home (basename filepath)
       = joinpath home (DOT :: DOT :: name)
    /\ restore_target home (basename filepath) <> filepath.
Proof.
  intros Hp.
  assert (exists name, filepath = joinpath home (DOT :: name)
                       /\ contains SLASH (DOT :: name) = false)
    as (name & -> & Hs).
  { apply list_elem_of_In in Hp.
    destruct shell; cbn [config_files In] in Hp;
      repeat (destruct Hp as [<- | Hp]; [eexists; split; reflexivity|]);
      destruct Hp. }
  exists name. rewrite basename_joinpath by done.
  split; [done|]. split; [done|]. split; [done|].
  unfold restore_target, joinpath. intros H.
  apply app_inv_head in H. injection H as H.
  apply (f_equal length) in H. cbn [length] in H. lia.
Qed.

Lemma restore_target_is_not_the_original_witness :
  exists name,
    demo_bashrc = joinpath demo_home (DOT :: name)
    /\ basename demo_bashrc = DOT :: name
    /\ restore_target demo_home (basename demo_bashrc)
       = joinpath demo_home (DOT :: DOT :: name)
    /\ restore_target demo_home (basename demo_bashrc) <> demo_bashrc.
Proof.
  apply (restore_target_is_not_the_original demo_home BASH demo_bashrc).
  apply list_elem_of_In. vm_compute. auto.
Defined.

(** The defect at work: two files are archived, one is changed, and the
    restore of the archive leaves the changed file as it is and writes
    the copies to [~/..bashrc] and [~/..profile]. *)
Lemma restore_misses_the_files :
  (create_backup demo_self world_two_files [demo_bashrc; demo_profile]
     (Some (lit "msg"))).1
  = Some demo_archive_path
  /\ dict_get demo_archive_path (archives world_after_change)
     = Some (Archive [(lit ".bashrc", lit "export X=1" ++ [LF]);
                      (lit ".profile", lit "X=2" ++ [LF])]
                     (Some (Metadata (lit "20240101_120000")
                                     [demo_bashrc; demo_profile]
                                     (lit "msg"))))
  /\ restore_backup demo_home demo_self world_after_change demo_archive_path
     = (true, world_after_restore)
  /\ files world_after_restore !! demo_bashrc = Some (lit "changed")
  /\ files world_after_restore !! lit "/home/u/..bashrc"
     = Some (lit "export X=1" ++ [LF])
  /\ files world_after_restore !! lit "/home/u/..profile"
     = Some (lit "X=2" ++ [LF]).
Proof. vm_compute. repeat split. Qed.
(** ** What depends on the files only *)

Lemma same_files_refl w : same_files w w.
Proof. done. Qed.

Lemma same_files_trans w1 w2 w3 :
  same_files w1 w2 -> same_files w2 w3 -> same_files w1 w3.
Proof. intros (? & ? & ?) (? & ? & ?). repeat split; congruence. Qed.

Lemma same_files_sym w1 w2 : same_files w1 w2 -> same_files w2 w1.
Proof. intros (? & ? & ?). by repeat split. Qed.

Lemma same_files_exists w w' p :
  same_files w w' -> file_exists w p = file_exists w' p.
Proof. intros [H _]. unfold file_exists. by rewrite H. Qed.

Lemma same_files_read w w' p :
  same_files w w' -> read_config_file w p = read_config_file w' p.
Proof. intros [H _]. unfold read_config_file. by rewrite H. Qed.

Lemma same_files_variables w w' p :
  same_files w w' ->
  get_variables_from_file w p = get_variables_from_file w' p.
Proof.
  intros H. unfold get_variables_from_file. by rewrite (same_files_read w w').
Qed.

Lemma create_backup_same_files self w files_to_backup message :
  same_files (create_backup self w files_to_backup message).2 w.
Proof.
  unfold create_backup.
  destruct (negb (backup_enabled self) || dry_run self); [done|].
  by destruct (zip_fails w).
Qed.

(** ** The last value of a loop *)

Section LastSome.
Context {A B : Type}.
Implicit Types (f g : A -> option B) (acc : option B) (l : list A).

Lemma last_some_app f acc l1 l2 :
  last_some f acc (l1 ++ l2) = last_some f (last_some f acc l1) l2.
Proof. apply foldl_app. Qed.

Lemma last_some_snoc f acc l x :
  last_some f acc (l ++ [x])
  = match f x with Some y => Some y | None => last_some f acc l end.
Proof. by rewrite last_some_app. Qed.

Lemma last_some_ext f g acc l :
  (forall x, x ∈ l -> f x = g x) -> last_some f acc l = last_some g acc l.
Proof.
  revert acc. induction l as [|x l IH]; intros acc H; [done|].
  cbn [last_some foldl]. rewrite (H x) by left.
  apply IH. intros y Hy. apply H. by right.
Qed.

Lemma last_some_none f acc l :
  (forall x, x ∈ l -> f x = None) -> last_some f acc l = acc.
Proof.
  revert acc. induction l as [|x l IH]; intros acc H; [done|].
  cbn [last_some foldl]. rewrite (H x) by left.
  apply IH. intros y Hy. apply H. by right.
Qed.

Lemma last_some_filter f (p : A -> bool) acc l :
  (forall x, p x = false -> f x = None) ->
  last_some f acc (List.filter p l) = last_some f acc l.
Proof.
  intros H. revert acc. induction l as [|x l IH]; intros acc; [done|].
  cbn [List.filter]. destruct (p x) eqn:E.
  - cbn [last_some foldl]. apply IH.
  - cbn [last_some foldl]. rewrite (H x E). apply IH.
Qed.

(** When some values are replaced by [v], a loop that ended on [v] still
    does. *)
Lemma last_some_override f g acc acc' l v :
  (forall x, x ∈ l -> g x = Some v \/ g x = f x) ->
  (acc = Some v -> acc' = Some v) ->
  last_some f acc l = Some v -> last_some g acc' l = Some v.
Proof.
  revert acc acc'. induction l as [|x l IH]; intros acc acc' Hg Hacc.
  - done.
  - cbn [last_some foldl]. apply IH.
    + intros y Hy. apply Hg. by right.
    + destruct (Hg x) as [-> | ->]; [left | done|].
      destruct (f x); [done | apply Hacc].
Qed.

(** When [v] is the only value given, and it is given, the loop ends
    on it. *)
Lemma last_some_only g acc l v :
  (forall x, x ∈ l -> g x = Some v \/ g x = None) ->
  (exists x, x ∈ l /\ g x = Some v) ->
  last_some g acc l = Some v.
Proof.
  intros Hg (x & Hx & Hgx).
  apply list_elem_of_split in Hx as (l1 & l2 & ->).
  rewrite last_some_app. cbn [last_some foldl]. rewrite Hgx.
  assert (forall l', (forall y, y ∈ l' -> g y = Some v \/ g y = None) ->
                     last_some g (Some v) l' = Some v) as Hkeep.
  { induction l' as [|y l' IH]; intros Hl'; [done|].
    cbn [last_some foldl].
    destruct (Hl' y) as [-> | ->]; [left | |];
      apply IH; intros z Hz; apply Hl'; by right. }
  apply Hkeep. intros y Hy. apply Hg. apply elem_of_app. right. by right.
Qed.
End LastSome.

Lemma last_some_fmap {A B C} (f : A -> option B) (g : C -> A) acc
    (l : list C) :
  last_some f acc (g <$> l) = last_some (fun x => f (g x)) acc l.
Proof.
  revert acc. induction l as [|x l IH]; intros acc; [done|].
  cbn [fmap list_fmap last_some foldl]. apply IH.
Qed.

(** ** The value a file gives to a name *)

Lemma get_variables_fold name d lines :
  dict_get name
    (foldl (fun variables line =>
              match parse_export_line line with
              | Some (n, value) => dict_set n value variables
              | None => variables
              end)
           d lines)
  = last_some (line_value name) (dict_get name d) lines.
Proof.
  revert d. induction lines as [|l lines IH]; intros d; [done|].
  cbn [foldl last_some]. fold (last_some (line_value name)).
  rewrite IH. f_equal. unfold line_value.
  destruct (parse_export_line l) as [[n v]|]; [|done].
  rewrite dict_get_set. by destruct (decide (n = name)).
Qed.

Lemma file_value_lines w p name :
  file_value w p name
  = last_some (line_value name) None (read_config_file w p).
Proof. unfold file_value, get_variables_from_file. apply get_variables_fold. Qed.

Lemma file_value_missing w p name :
  file_exists w p = false -> file_value w p name = None.
Proof.
  intros H. rewrite file_value_lines. unfold read_config_file, file_exists in *.
  by destruct (files w !! p).
Qed.

Lemma dict_has_file_value w p name :
  dict_has name (get_variables_from_file w p)
  = bool_decide (is_Some (file_value w p name)).
Proof.
  unfold dict_has, file_value.
  destruct (dict_get name (get_variables_from_file w p)).
  - by rewrite bool_decide_eq_true_2.
  - rewrite bool_decide_eq_false_2; [done|]. by intros [? ?].
Qed.

(** The merged value of a name is the one its last candidate file gives. *)
Lemma merged_value home w shell name :
  dict_get name (merged_variables home w shell)
  = last_some (fun p => file_value w p name) None (config_files home shell).
Proof.
  unfold merged_variables. rewrite merged_fold.
  unfold find_existing_config_files.
  apply (last_some_filter (fun p => file_value w p name)).
  intros p. apply file_value_missing.
Qed.

Lemma dict_update_NoDup {K V} `{EqDecision K} (d other : dict K V) :
  NoDup d.*1 -> NoDup (dict_update d other).*1.
Proof.
  unfold dict_update. revert d.
  induction other as [|[k v] other IH]; intros d Hd; [done|].
  cbn [foldl fst snd]. apply IH. by apply dict_set_NoDup.
Qed.

Lemma merged_variables_NoDup home w shell :
  NoDup (merged_variables home w shell).*1.
Proof.
  unfold merged_variables.
  generalize (find_existing_config_files home w shell). intros ps.
  assert (NoDup ([] : dict str str).*1) as H by constructor.
  revert H. generalize ([] : dict str str).
  induction ps as [|p ps IH]; intros d Hd; [done|].
  cbn [foldl]. apply IH. by apply dict_update_NoDup.
Qed.

(** The files that define a name, over the candidates of one shell. *)
Lemma files_defining_single home w name shell :
  files_defining home w name [shell]
  = List.filter (fun p => bool_decide (is_Some (file_value w p name)))
                (config_files home shell).
Proof.
  unfold files_defining, find_existing_config_files. cbn [flat_map].
  rewrite app_nil_r.
  induction (config_files home shell) as [|p ps IH]; [done|].
  cbn [List.filter]. destruct (file_exists w p) eqn:E.
  - cbn [List.filter]. rewrite dict_has_file_value, IH. done.
  - rewrite IH, file_value_missing by done.
    rewrite bool_decide_eq_false_2; [done|]. by intros [? ?].
Qed.
(** ** The values of a file after an update *)

Lemma assigns_line_value name line :
  assigns name line = bool_decide (is_Some (line_value name line)).
Proof.
  unfold assigns, line_value.
  destruct (parse_export_line line) as [[n v]|].
  - destruct (decide (n = name)) as [-> | Hne].
    + by rewrite !bool_decide_eq_true_2.
    + rewrite !bool_decide_eq_false_2; [done | by intros [? ?] | done].
  - rewrite bool_decide_eq_false_2; [done | by intros [? ?]].
Qed.

Lemma assigns_false_line_value name line :
  assigns name line = false -> line_value name line = None.
Proof.
  rewrite assigns_line_value. intros H%bool_decide_eq_false.
  destruct (line_value name line); [|done]. destruct H. eauto.
Qed.

Lemma assigns_other_line_value name m line :
  assigns name line = true -> m <> name -> line_value m line = None.
Proof.
  unfold assigns, line_value.
  destruct (parse_export_line line) as [[n v]|]; [|done].
  intros ->%bool_decide_eq_true Hne. by rewrite decide_False.
Qed.

Lemma line_value_format name value m :
  parse_export_line (format_export_line name value) = Some (name, value) ->
  line_value m (format_export_line name value)
  = if decide (name = m) then Some value else None.
Proof. intros H. unfold line_value. by rewrite H. Qed.

Lemma line_value_terminated m l :
  LF ∉ l -> line_value m (l ++ [LF]) = line_value m l.
Proof. intros H. unfold line_value. by rewrite parse_terminated. Qed.

Lemma last_some_terminated m acc lines :
  file_lines lines ->
  last_some (line_value m) acc (terminated lines)
  = last_some (line_value m) acc lines.
Proof.
  intros H. revert acc.
  induction H as [| l Hl | l ls Hl Hls IH]; intros acc; [done| |].
  - cbn [terminated]. rewrite partial_line_ends by done.
    cbn [last_some foldl]. destruct Hl as (_ & Hl & _).
    by rewrite line_value_terminated.
  - destruct ls as [|l' ls].
    + cbn [terminated]. by rewrite complete_line_ends.
    + change (terminated (l :: l' :: ls)) with (l :: terminated (l' :: ls)).
      cbn [last_some foldl]. apply IH.
Qed.

(** After an update the file gives [value] to [name], and to every other
    name what it gave before. *)
Lemma value_after_update lines name value m :
  file_lines lines -> is_identifier name = true ->
  no_line_break value = true ->
  parse_export_line (format_export_line name value) = Some (name, value) ->
  last_some (line_value m) None
            (readlines (concat (updated_lines lines name value)))
  = if decide (m = name) then Some value
    else last_some (line_value m) None lines.
Proof.
  intros Hl Hn Hv Hrt. rewrite read_after_update by done.
  destruct (existsb (assigns name) lines) eqn:E.
  - rewrite last_some_fmap. destruct (decide (m = name)) as [-> | Hne].
    + apply last_some_only.
      * intros l _. unfold rewritten. destruct (assigns name l) eqn:El.
        -- left. rewrite line_value_format by done. by rewrite decide_True.
        -- right. by apply assigns_false_line_value.
      * apply existsb_exists in E as (l & Hin & El). exists l.
        split; [by apply list_elem_of_In|]. unfold rewritten. rewrite El.
        rewrite line_value_format by done. by rewrite decide_True.
    + apply last_some_ext. intros l _. unfold rewritten.
      destruct (assigns name l) eqn:El; [|done].
      rewrite line_value_format by done. rewrite decide_False by done.
      symmetry. by apply (assigns_other_line_value name).
  - rewrite last_some_snoc, line_value_format by done.
    destruct (decide (m = name)) as [-> | Hne].
    + by rewrite decide_True.
    + rewrite decide_False by done. by apply last_some_terminated.
Qed.

(** The same, for the file in the world. *)
Lemma file_value_after_update self w target name value p m :
  dry_run self = false -> is_identifier name = true ->
  no_line_break value = true ->
  parse_export_line (format_export_line name value) = Some (name, value) ->
  target ∉ unwritable w -> encodable value = true ->
  file_value (update_variable_in_file self w target name value).2 p m
  = if decide (p = target /\ m = name) then Some value
    else file_value w p m.
Proof.
  intros Hd Hn Hv Hrt Hw Hev.
  pose proof (identifier_encodable name Hn) as Hen.
  rewrite update_variable_in_file_files by done.
  cbn [snd]. rewrite !file_value_lines.
  destruct (decide (p = target)) as [-> | Hp].
  - rewrite read_config_file_written by by apply updated_content_encodable.
    rewrite value_after_update by (done || apply read_config_file_lines).
    destruct (decide (m = name)) as [-> | Hm].
    + by rewrite decide_True.
    + rewrite decide_False; [done | tauto].
  - rewrite decide_False by tauto. unfold read_config_file. cbn.
    by rewrite lookup_insert_ne.
Qed.
(** ** [set_variable] on one shell *)

Lemma identifier_matches name :
  is_identifier name = true -> Re.identifier name = true.
Proof.
  intros (c & r & -> & Hc & Hr)%is_identifier_inv.
  unfold Re.identifier, Re.ident. rewrite Hc. by rewrite dropwhile_all.
Qed.

Lemma filter_nil_inv {A} (p : A -> bool) l x :
  List.filter p l = [] -> x ∈ l -> p x = false.
Proof.
  intros H Hx. destruct (p x) eqn:E; [|done].
  assert (In x (List.filter p l)) as Hin.
  { apply filter_In. split; [by apply list_elem_of_In | done]. }
  rewrite H in Hin. destruct Hin.
Qed.

Lemma find_head_filter {A} (p : A -> bool) l :
  List.find p l = head (List.filter p l).
Proof.
  induction l as [|x l IH]; [done|]. cbn [List.find List.filter].
  by destruct (p x).
Qed.

Lemma config_files_head home shell :
  exists p ps, config_files home shell = p :: ps.
Proof. destruct shell; cbn [config_files]; eauto. Qed.

Lemma existing_is_candidate home w shell p :
  p ∈ find_existing_config_files home w shell ->
  p ∈ config_files home shell /\ file_exists w p = true.
Proof.
  unfold find_existing_config_files. rewrite list_elem_of_In, filter_In.
  by rewrite <- list_elem_of_In.
Qed.

Lemma file_value_touch w q p m :
  file_exists w q = false ->
  file_value (with_files (<[q := []]> (files w)) w) p m = file_value w p m.
Proof.
  intros Hq. rewrite !file_value_lines.
  destruct (decide (p = q)) as [-> | Hne].
  - rewrite read_config_file_written by done.
    unfold read_config_file, file_exists in *. by destruct (files w !! q).
  - unfold read_config_file. cbn. by rewrite lookup_insert_ne.
Qed.

(** The file that [set_variable] picks for one shell. *)
Lemma locate_step_single home self w name shell :
  dry_run self = false ->
  exists target w1,
    locate_step home self name (w, []) shell = (w1, [target])
    /\ target ∈ config_files home shell
    /\ (forall p m, file_value w1 p m = file_value w p m)
    /\ (forall p,
          p ∈ config_files home shell -> is_Some (file_value w p name) ->
          (length (files_defining home w name [shell]) <= 1)%nat ->
          p = target).
Proof.
  intros Hd. unfold locate_step.
  destruct (find_existing_config_files home w shell) as [|e es] eqn:E.
  - unfold get_primary_config_file. rewrite E, Hd.
    destruct (config_files_head home shell) as (q & qs & Hq).
    assert (forall p, p ∈ config_files home shell -> file_exists w p = false)
      as Hnone.
    { intros p Hp. by apply (filter_nil_inv _ _ _ E). }
    assert (file_exists w q = false) as Hq0.
    { apply Hnone. rewrite Hq. left. }
    rewrite Hq in *. cbn [head default]. unfold id, touch. rewrite Hq0.
    exists q, (with_files (<[q := []]> (files w)) w).
    assert (dict_has name
              (get_variables_from_file
                 (with_files (<[q := []]> (files w)) w) q) = false) as Hno.
    { rewrite dict_has_file_value, file_value_touch, file_value_missing
        by done.
      rewrite bool_decide_eq_false_2; [done | by intros [? ?]]. }
    cbn [List.find]. rewrite Hno. cbn [head default]. unfold id.
    split; [done|]. split; [left|].
    split; [intros; by apply file_value_touch|].
    intros p Hp [x Hx].
    rewrite file_value_missing in Hx; [done|]. by apply Hnone.
  - set (defines := fun config_file =>
                      dict_has name (get_variables_from_file w config_file)).
    assert (forall p, p ∈ e :: es -> p ∈ config_files home shell) as Hsub.
    { intros p Hp. rewrite <- E in Hp.
      by apply existing_is_candidate in Hp as [? _]. }
    exists (match List.find defines (e :: es) with
            | Some f => f
            | None => e
            end), w.
    split; [done|]. split.
    { destruct (List.find defines (e :: es)) as [f|] eqn:Ef.
      - apply find_some in Ef as [Hin _]. by apply Hsub, list_elem_of_In.
      - apply Hsub. left. }
    split; [done|].
    intros p Hp Hsome Hlen.
    assert (files_defining home w name [shell]
            = List.filter defines (e :: es)) as Hfd.
    { unfold files_defining. cbn [flat_map]. by rewrite app_nil_r, E. }
    rewrite Hfd in Hlen. rewrite find_head_filter.
    assert (In p (List.filter defines (e :: es))) as Hin.
    { apply filter_In. split.
      - apply list_elem_of_In. rewrite <- E.
        unfold find_existing_config_files.
        apply list_elem_of_In, filter_In. split; [by apply list_elem_of_In|].
        destruct (file_exists w p) eqn:Ex; [done|].
        rewrite file_value_missing in Hsome by done. by destruct Hsome.
      - subst defines. cbn beta. rewrite dict_has_file_value.
        by apply bool_decide_eq_true. }
    destruct (List.filter defines (e :: es)) as [|f [|f' fs]];
      cbn [length] in Hlen; [destruct Hin | | lia].
    destruct Hin as [-> | []]. done.
Qed.

Lemma touch_unwritable w p : unwritable (touch w p) = unwritable w.
Proof. unfold touch. by destruct (file_exists w p). Qed.

Lemma locate_step_unwritable home self name acc shell :
  unwritable (locate_step home self name acc shell).1 = unwritable acc.1.
Proof.
  destruct acc as [w l]. unfold locate_step.
  destruct (find_existing_config_files home w shell) as [|e es] eqn:E;
    [|done].
  unfold get_primary_config_file. rewrite E. cbn [fst snd].
  destruct (dry_run self); [done | apply touch_unwritable].
Qed.

(** What [set_variable] does for one shell whose files can be written,
    with the confirmation approved and a value that can be encoded: it
    succeeds, the file it picks gives [value] to [name], and nothing
    else changes in what the files give. *)
Lemma set_variable_effect home self w name value shell :
  dry_run self = false -> is_identifier name = true ->
  no_line_break value = true ->
  parse_export_line (format_export_line name value) = Some (name, value) ->
  encodable value = true ->
  (forall p, p ∈ config_files home shell -> p ∉ unwritable w) ->
  exists target,
    target ∈ config_files home shell
    /\ (set_variable home self w name value [shell] true None).1 = true
    /\ unwritable (set_variable home self w name value [shell] true None).2
       = unwritable w
    /\ (forall p m,
          file_value (set_variable home self w name value [shell] true None).2
                     p m
          = if decide (p = target /\ m = name) then Some value
            else file_value w p m)
    /\ (forall p,
          p ∈ config_files home shell -> is_Some (file_value w p name) ->
          (length (files_defining home w name [shell]) <= 1)%nat ->
          p = target).
Proof.
  intros Hd Hn Hv Hrt Hev Hwr.
  pose proof (identifier_encodable name Hn) as Hen.
  destruct (locate_step_single home self w name shell Hd)
    as (target & w1 & Hloc & Hin & Hsame & Hone).
  pose proof (locate_step_unwritable home self name (w, []) shell) as Hu1.
  rewrite Hloc in Hu1. cbn [fst] in Hu1.
  exists target. unfold set_variable, locate_files.
  rewrite identifier_matches by done. cbn [negb foldl]. rewrite Hloc.
  cbn [negb andb]. unfold apply_to_files. cbn [foldl fst snd].
  set (w2 := if backup_enabled self && negb (dry_run self)
             then (create_backup self w1 [target] _).2 else w1).
  assert (same_files w2 w1) as Hsf.
  { subst w2. destruct (backup_enabled self && negb (dry_run self)); [|done].
    apply create_backup_same_files. }
  assert (forall p m, file_value w2 p m = file_value w p m) as Hsame2.
  { intros p m. rewrite <- Hsame. unfold file_value. f_equal.
    by apply same_files_variables. }
  assert (unwritable w2 = unwritable w) as Hu2.
  { destruct Hsf as (_ & _ & ->). done. }
  assert (target ∉ unwritable w2) as Hw2 by (rewrite Hu2; auto).
  destruct (update_variable_in_file self w2 target name value) as [ok w3]
    eqn:Hu.
  rewrite update_variable_in_file_files in Hu by done.
  injection Hu as <- <-.
  cbn [fst snd]. split; [done|]. split; [done|]. split; [done|].
  split; [|done].
  intros p m.
  pose proof (file_value_after_update self w2 target name value p m
                Hd Hn Hv Hrt Hw2 Hev) as Hval.
  rewrite update_variable_in_file_files in Hval by done.
  cbn [snd] in Hval. by rewrite Hval, Hsame2.
Qed.
(** ** What is read from a file is a name and a value on one line *)

Lemma removelast_elem_of {A} (l : list A) x : x ∈ removelast l -> x ∈ l.
Proof.
  induction l as [|y l IH]; [done|]. cbn [removelast].
  destruct l as [|z l]; [by intros ?%elem_of_nil|].
  intros [-> | H]%elem_of_cons; [left | right; by apply IH].
Qed.

Lemma strip_quotes_elem_of c v : c ∈ strip_quotes v -> c ∈ v.
Proof.
  unfold strip_quotes, slice_1_m1. destruct (_ || _); [|done].
  intros H%removelast_elem_of. destruct v; [done|]. by right.
Qed.

Lemma rest_chars s g c :
  Re.rest s = Some g -> c ∈ g -> c ∈ s /\ c <> LF.
Proof.
  unfold Re.rest. destruct (Re.at_end _); [|done]. intros [= <-].
  intros [? Hc]%takewhile_elem_of. split; [done|].
  unfold not_LF in Hc. by apply negb_true_iff, N.eqb_neq in Hc.
Qed.

Lemma assignment_chars s n g c :
  Re.assignment s = Some (n, g) -> c ∈ g -> c ∈ s /\ c <> LF.
Proof.
  unfold Re.assignment. destruct (Re.ident s) as [[name s1]|] eqn:E; [|done].
  cbn [mbind option_bind]. apply ident_identifier in E as [_ ->].
  destruct (Re.literal [EQUALS] s1) as [s2|] eqn:E2; [|done].
  cbn [mbind option_bind]. apply literal_Some in E2 as ->.
  destruct (Re.rest s2) as [g'|] eqn:E3; [|done]. cbn [mbind option_bind].
  intros [= _ <-] Hc. destruct (rest_chars _ _ _ E3 Hc) as [? ?].
  split; [|done]. rewrite !elem_of_app. auto.
Qed.

Lemma pattern_chars line n g c :
  Re.export_form line = Some (n, g) \/ Re.bare_form line = Some (n, g) ->
  c ∈ g -> c ∈ line /\ c <> LF.
Proof.
  intros [H | H] Hc.
  - unfold Re.export_form, Re.spaces0 in H.
    destruct (Re.literal _ _) as [s1|] eqn:E1; [|done].
    cbn [mbind option_bind] in H. apply literal_Some in E1.
    destruct s1 as [|x s1]; [done|]. cbn [Re.spaces1] in H.
    destruct (is_space x); [|done]. cbn [mbind option_bind] in H.
    destruct (assignment_chars _ _ _ _ H Hc) as [Hin ?]. split; [|done].
    apply (dropwhile_elem_of is_space). rewrite E1.
    apply elem_of_app. right. right. by apply dropwhile_elem_of in Hin.
  - unfold Re.bare_form, Re.spaces0 in H.
    destruct (assignment_chars _ _ _ _ H Hc) as [Hin ?]. split; [|done].
    by apply dropwhile_elem_of in Hin.
Qed.

Lemma parse_value_chars line n v c :
  parse_export_line line = Some (n, v) -> c ∈ v -> c ∈ line /\ c <> LF.
Proof.
  unfold parse_export_line, patterns. cbn [parse_with].
  destruct (Re.export_form line) as [[n1 g]|] eqn:E1.
  - intros [= _ <-] Hc%strip_quotes_elem_of%strip_elem_of.
    apply (pattern_chars line n1 g); auto.
  - destruct (Re.bare_form line) as [[n2 g]|] eqn:E2; [|done].
    intros [= _ <-] Hc%strip_quotes_elem_of%strip_elem_of.
    apply (pattern_chars line n2 g); auto.
Qed.

Lemma file_lines_line_no_CR ls l : file_lines ls -> l ∈ ls -> CR ∉ l.
Proof.
  induction 1 as [| l0 (_ & _ & Hl0) | l0 ls Hl0 _ IH].
  - by intros ?%elem_of_nil.
  - by intros ->%list_elem_of_singleton.
  - intros [-> | H]%elem_of_cons; [by apply complete_line_no_CR | auto].
Qed.

Lemma last_some_Some {A B} (f : A -> option B) l y :
  last_some f None l = Some y -> exists x, x ∈ l /\ f x = Some y.
Proof.
  induction l as [|x l IH] using rev_ind; [done|].
  rewrite last_some_snoc. destruct (f x) as [z|] eqn:E.
  - intros [= ->]. exists x. split; [|done]. apply elem_of_app. right. left.
  - intros (x' & ? & ?)%IH. exists x'. split; [|done].
    apply elem_of_app. by left.
Qed.

(** A value that a file gives to a name is an identifier's value, free
    of line breaks. *)
Lemma file_value_well_formed w p name value :
  file_value w p name = Some value ->
  is_identifier name = true /\ no_line_break value = true.
Proof.
  rewrite file_value_lines. intros (line & Hin & Hv)%last_some_Some.
  unfold line_value in Hv.
  destruct (parse_export_line line) as [[n v]|] eqn:E; [|done].
  destruct (decide (n = name)) as [-> | ?]; [|done]. injection Hv as ->.
  split; [by apply parse_identifier in E|].
  unfold no_line_break. apply andb_true_iff.
  split; apply negb_true_iff, contains_false; intros Hc;
    destruct (parse_value_chars _ _ _ _ E Hc) as [Hl Hlf]; [done|].
  by apply (file_lines_line_no_CR _ _ (read_config_file_lines w p)) in Hin.
Qed.

Lemma merged_value_well_formed home w shell name value :
  dict_get name (merged_variables home w shell) = Some value ->
  is_identifier name = true /\ no_line_break value = true.
Proof.
  rewrite merged_value. intros (p & _ & Hp)%last_some_Some.
  by apply file_value_well_formed in Hp.
Qed.

(** A value that was read can be written. *)
Lemma file_value_encodable w p name value :
  file_value w p name = Some value -> encodable value = true.
Proof.
  rewrite file_value_lines. intros (line & Hin & Hv)%last_some_Some.
  unfold line_value in Hv.
  destruct (parse_export_line line) as [[n v]|] eqn:E; [|done].
  destruct (decide (n = name)) as [-> | ?]; [|done]. injection Hv as ->.
  apply encodable_elem_of. intros c Hc.
  destruct (parse_value_chars _ _ _ _ E Hc) as [Hl _].
  apply (proj1 (encodable_elem_of line)); [|done].
  by apply (proj1 (forallb_encodable_elem_of _)
              (read_config_file_encodable w p)).
Qed.

Lemma merged_value_encodable home w shell name value :
  dict_get name (merged_variables home w shell) = Some value ->
  encodable value = true.
Proof.
  rewrite merged_value. intros (p & _ & Hp)%last_some_Some.
  by apply file_value_encodable in Hp.
Qed.

(** ** The changes of a plan *)

Lemma dict_set_elem {K V} `{EqDecision K} (k : K) (v : V) d e :
  e ∈ dict_set k v d -> e = (k, v) \/ e ∈ d.
Proof.
  induction d as [|[k0 v0] d IH]; cbn [dict_set].
  - intros ->%list_elem_of_singleton. by left.
  - destruct (decide (k0 = k)).
    + intros [-> | ?]%elem_of_cons; [by left | right; by right].
    + intros [-> | H]%elem_of_cons; [right; left|].
      destruct (IH H); [by left | right; by right].
Qed.

Lemma dict_get_elem {K V} `{EqDecision K} (k : K) (v : V) d :
  NoDup d.*1 -> (k, v) ∈ d -> dict_get k d = Some v.
Proof.
  induction d as [|[k0 v0] d IH]; [by intros _ ?%elem_of_nil|].
  cbn [fmap list_fmap fst]. intros [Hk0 Hd]%NoDup_cons.
  intros [[= -> ->] | H]%elem_of_cons; cbn [dict_get].
  - by rewrite decide_True.
  - rewrite decide_False; [by apply IH|]. intros ->. apply Hk0.
    apply list_elem_of_fmap. by exists (k, v).
Qed.

Lemma dict_get_Some_elem {K V} `{EqDecision K} (k : K) (v : V) d :
  dict_get k d = Some v -> (k, v) ∈ d.
Proof.
  induction d as [|[k0 v0] d IH]; [done|]. cbn [dict_get].
  destruct (decide (k0 = k)) as [-> | ?].
  - intros [= ->]. left.
  - intros H. right. by apply IH.
Qed.

Lemma dict_set_keys_mono {K V} `{EqDecision K} (k k' : K) (v : V) d :
  k' ∈ d.*1 -> k' ∈ (dict_set k v d).*1.
Proof.
  rewrite dict_set_keys. destruct (decide (k ∈ d.*1)); [done|].
  intros ?. apply elem_of_app. by left.
Qed.

Lemma dict_set_keys_new {K V} `{EqDecision K} (k : K) (v : V) d :
  k ∈ (dict_set k v d).*1.
Proof.
  rewrite dict_set_keys. destruct (decide (k ∈ d.*1)); [done|].
  apply elem_of_app. right. left.
Qed.

Section Changes.
Variable shell_vars : dict str str.

Lemma changes_fold_NoDup l acc :
  NoDup acc.*1 -> NoDup (foldl (change_step shell_vars) acc l).*1.
Proof.
  revert acc. induction l as [|[n v] l IH]; intros acc Hacc; [done|].
  cbn [foldl]. apply IH. unfold change_step.
  destruct (bool_decide _); [done|]. by apply dict_set_NoDup.
Qed.

Lemma changes_fold_elem l acc n c :
  (n, c) ∈ foldl (change_step shell_vars) acc l ->
  (n, c) ∈ acc
  \/ ((n, c.1) ∈ l /\ dict_get n shell_vars <> Some c.1).
Proof.
  revert acc. induction l as [|[n0 v0] l IH]; intros acc; [by left|].
  cbn [foldl]. intros [H | [H1 H2]]%IH.
  - unfold change_step in H. destruct (bool_decide _) eqn:E; [by left|].
    apply bool_decide_eq_false in E.
    apply dict_set_elem in H as [[= -> ->] | H]; [|by left].
    right. split; [left | done].
  - right. split; [by right | done].
Qed.

Lemma changes_fold_keys l acc n v :
  (n, v) ∈ l -> dict_get n shell_vars <> Some v ->
  n ∈ (foldl (change_step shell_vars) acc l).*1.
Proof.
  assert (forall l acc, n ∈ acc.*1 -> n ∈ (foldl (change_step shell_vars) acc l).*1) as Hmono.
  { clear. induction l as [|[n0 v0] l IH]; intros acc Hacc; [done|].
    cbn [foldl]. apply IH. unfold change_step.
    destruct (bool_decide _); [done|]. by apply dict_set_keys_mono. }
  revert acc. induction l as [|[n0 v0] l IH]; intros acc;
    [by intros ?%elem_of_nil|].
  intros [[= <- <-] | H]%elem_of_cons Hne; cbn [foldl].
  - apply Hmono. unfold change_step. rewrite bool_decide_eq_false_2 by done.
    apply dict_set_keys_new.
  - by apply IH.
Qed.
End Changes.

Lemma changes_for_NoDup source_vars shell_vars :
  NoDup (changes_for source_vars shell_vars).*1.
Proof. apply changes_fold_NoDup. constructor. Qed.

Lemma changes_for_elem source_vars shell_vars n c :
  NoDup source_vars.*1 ->
  (n, c) ∈ changes_for source_vars shell_vars ->
  dict_get n source_vars = Some c.1 /\ dict_get n shell_vars <> Some c.1.
Proof.
  intros Hnd [H | [H1 H2]]%changes_fold_elem; [by apply elem_of_nil in H|].
  split; [by apply dict_get_elem | done].
Qed.

Lemma changes_for_complete source_vars shell_vars n v :
  dict_get n source_vars = Some v -> dict_get n shell_vars <> Some v ->
  n ∈ (changes_for source_vars shell_vars).*1.
Proof.
  intros H%dict_get_Some_elem Hne. by apply (changes_fold_keys _ _ _ _ v).
Qed.

Lemma changes_for_nil source_vars shell_vars :
  NoDup source_vars.*1 ->
  (forall n v, dict_get n source_vars = Some v ->
               dict_get n shell_vars = Some v) ->
  changes_for source_vars shell_vars = [].
Proof.
  intros Hnd H.
  destruct (changes_for source_vars shell_vars) as [|[n c] l] eqn:E; [done|].
  destruct (changes_for_elem source_vars shell_vars n c Hnd) as [H1 H2].
  { rewrite E. left. }
  destruct H2. by apply H.
Qed.
(** ** Sync *)

Lemma sync_plan_no_source home w from_shell to_shells :
  sync_plan home w from_shell to_shells [] = [].
Proof.
  enough (forall acc,
            foldl (fun plan to_shell =>
                     if bool_decide (to_shell = from_shell) then plan
                     else
                       match changes_for [] (merged_variables home w to_shell)
                       with
                       | [] => plan
                       | changes => dict_set to_shell changes plan
                       end)
                  acc to_shells = acc) as H by apply H.
  induction to_shells as [|s l IH]; intros acc; [done|].
  cbn [foldl]. destruct (bool_decide (s = from_shell)); apply IH.
Qed.

(** [sync_variables] without patterns and with the confirmation approved:
    compute the plan and apply it. *)
Lemma sync_variables_unfiltered home fnmatch self w from_shell to_shells :
  sync_variables home fnmatch self w from_shell to_shells None true
  = match sync_plan home w from_shell to_shells
            (merged_variables home w from_shell) with
    | [] => (true, w)
    | plan => apply_plan home self w plan
    end.
Proof.
  unfold sync_variables.
  destruct (merged_variables home w from_shell) as [|kv l] eqn:E.
  - by rewrite sync_plan_no_source.
  - cbn [filter_by_keys]. by destruct (sync_plan _ _ _ _ _).
Qed.

Lemma sync_plan_single home w from_shell to_shell source_vars :
  sync_plan home w from_shell [to_shell] source_vars
  = if bool_decide (to_shell = from_shell) then []
    else match changes_for source_vars (merged_variables home w to_shell) with
         | [] => []
         | changes => [(to_shell, changes)]
         end.
Proof.
  unfold sync_plan. cbn [foldl].
  destruct (bool_decide (to_shell = from_shell)); [done|].
  by destruct (changes_for _ _).
Qed.

(** The plan is empty when the destination agrees with the source. *)
Lemma plan_of_nil home fnmatch w from_shell to_shell :
  (forall n v,
     dict_get n (merged_variables home w from_shell) = Some v ->
     dict_get n (merged_variables home w to_shell) = Some v) ->
  plan_of home fnmatch w from_shell [to_shell] None = [].
Proof.
  intros H. unfold plan_of. cbn [filter_by_keys]. rewrite sync_plan_single.
  destruct (bool_decide (to_shell = from_shell)); [done|].
  rewrite changes_for_nil; [done | apply merged_variables_NoDup | done].
Qed.

Lemma apply_changes_cons home self to_shell acc change changes :
  apply_changes home self to_shell acc (change :: changes)
  = apply_changes home self to_shell
      ((if (set_variable home self acc.2 change.1 change.2.1
                         [to_shell] true None).1
        then acc.1 else false),
       (set_variable home self acc.2 change.1 change.2.1
                     [to_shell] true None).2)
      changes.
Proof.
  unfold apply_changes. cbn [foldl].
  by destruct (set_variable home self acc.2 change.1 change.2.1
                 [to_shell] true None).
Qed.

(** One change keeps the invariant. *)
Lemma sync_invariant_step home self w0 src dst w n c remaining :
  dry_run self = false ->
  (forall p, p ∈ config_files home dst -> p ∉ unwritable w0) ->
  n ∉ remaining.*1 ->
  dict_get n (merged_variables home w0 src) = Some c.1 ->
  parse_export_line (format_export_line n c.1) = Some (n, c.1) ->
  (length (files_defining home w0 n [dst]) <= 1)%nat ->
  sync_invariant home w0 src dst w ((n, c) :: remaining) ->
  (set_variable home self w n c.1 [dst] true None).1 = true
  /\ sync_invariant home w0 src dst
       (set_variable home self w n c.1 [dst] true None).2 remaining.
Proof.
  intros Hd Hwr Hfresh Hsrc Hrt Hone (Hun & Ha & Hb & Hc).
  destruct (merged_value_well_formed home w0 src n c.1 Hsrc) as [Hn Hv].
  pose proof (merged_value_encodable home w0 src n c.1 Hsrc) as Hev.
  destruct (set_variable_effect home self w n c.1 dst Hd Hn Hv Hrt Hev)
    as (target & Htarget & Hok & Hun' & Hval & Honly).
  { intros p Hp. rewrite Hun. by apply Hwr. }
  split; [done|].
  set (w' := (set_variable home self w n c.1 [dst] true None).2) in *.
  assert (forall p m, m <> n -> file_value w' p m = file_value w p m) as Hother.
  { intros p m Hm. rewrite Hval. rewrite decide_False; [done | tauto]. }
  assert (forall shell m, m <> n ->
            dict_get m (merged_variables home w' shell)
            = dict_get m (merged_variables home w shell)) as Hmerged.
  { intros shell m Hm. rewrite !merged_value. apply last_some_ext.
    intros p _. by apply Hother. }
  assert (length (files_defining home w n [dst]) <= 1)%nat as Hone'.
  { rewrite files_defining_single in *.
    erewrite filter_ext; [exact Hone|]. intros p. cbn beta.
    rewrite Ha; [done | left]. }
  split; [congruence|]. split; [|split].
  - intros p m Hm. rewrite Hother.
    + apply Ha. by right.
    + intros ->. done.
  - intros m. destruct (decide (m = n)) as [-> | Hm].
    + rewrite Hsrc. rewrite merged_value.
      apply (last_some_override (fun p => file_value w p n) _ None).
      * intros p _. rewrite Hval.
        destruct (decide (p = target /\ n = n)); [by left | by right].
      * done.
      * by rewrite <- merged_value, Hb.
    + by rewrite Hmerged, Hb.
  - intros m x Hx Hm. destruct (decide (m = n)) as [-> | Hne].
    + rewrite Hsrc in Hx. injection Hx as <-. rewrite merged_value.
      apply last_some_only.
      * intros p Hp. rewrite Hval.
        destruct (decide (p = target /\ n = n)) as [_ | Hnot]; [by left|].
        right. destruct (file_value w p n) eqn:E; [|done].
        destruct Hnot. split; [|done]. apply Honly; [done | eauto | done].
      * exists target. split; [done|]. rewrite Hval.
        by rewrite decide_True.
    + rewrite Hmerged by done. apply Hc; [done|].
      intros [-> | H]%elem_of_cons; done.
Qed.

(** All the changes of one destination establish the agreement. *)
Lemma apply_changes_converges home self w0 src dst changes :
  dry_run self = false ->
  (forall p, p ∈ config_files home dst -> p ∉ unwritable w0) ->
  forall acc,
    NoDup changes.*1 ->
    (forall n c,
       (n, c) ∈ changes ->
       dict_get n (merged_variables home w0 src) = Some c.1
       /\ parse_export_line (format_export_line n c.1) = Some (n, c.1)
       /\ (length (files_defining home w0 n [dst]) <= 1)%nat) ->
    sync_invariant home w0 src dst acc.2 changes ->
    (apply_changes home self dst acc changes).1 = acc.1
    /\ sync_invariant home w0 src dst
         (apply_changes home self dst acc changes).2 [].
Proof.
  intros Hd Hwr. induction changes as [|[n c] changes IH];
    intros acc Hnd Hch Hinv; [done|].
  cbn [fmap list_fmap fst] in Hnd. apply NoDup_cons in Hnd as [Hfresh Hnd].
  destruct (Hch n c) as (Hsrc & Hrt & Hone); [left|].
  destruct (sync_invariant_step home self w0 src dst acc.2 n c changes
              Hd Hwr Hfresh Hsrc Hrt Hone Hinv) as [Hok Hinv'].
  rewrite apply_changes_cons. cbn [fst snd]. rewrite Hok.
  destruct (IH (acc.1, (set_variable home self acc.2 n c.1 [dst] true None).2)
              Hnd) as [H1 H2]; [|done|done].
  intros n' c' Hin. apply Hch. by right.
Qed.

(** C1 (as corrected).  Outside dry-run mode, when the candidate files
    of the destination can be opened for writing, and every variable of
    the source shell that the destination does not already agree on has
    a value that [parse_export_line] reads back from
    [format_export_line], and is assigned in at most one existing file of
    the destination, [sync_variables] without patterns and with the
    confirmation approved succeeds, and the plan computed again in the
    world it leaves is empty. *)
Theorem sync_converges home fnmatch self w from_shell to_shell :
  dry_run self = false ->
  (forall p, p ∈ config_files home to_shell -> p ∉ unwritable w) ->
  (forall name value,
     dict_get name (merged_variables home w from_shell) = Some value ->
     dict_get name (merged_variables home w to_shell) = Some value
     \/ (parse_export_line (format_export_line name value)
         = Some (name, value)
         /\ (length (files_defining home w name [to_shell]) <= 1)%nat)) ->
  (sync_variables home fnmatch self w from_shell [to_shell] None true).1
  = true
  /\ plan_of home fnmatch
       (sync_variables home fnmatch self w from_shell [to_shell] None true).2
       from_shell [to_shell] None
     = [].
Proof.
  intros Hd Hwr Hyp. rewrite sync_variables_unfiltered.
  pose proof (eq_refl : plan_of home fnmatch w from_shell [to_shell] None
                        = sync_plan home w from_shell [to_shell]
                            (merged_variables home w from_shell)) as Hplan.
  rewrite sync_plan_single in *.
  destruct (bool_decide (to_shell = from_shell)) eqn:Esame; [done|].
  set (source_vars := merged_variables home w from_shell) in *.
  set (shell_vars := merged_variables home w to_shell) in *.
  destruct (changes_for source_vars shell_vars) as [|ch chs] eqn:Ech;
    [done|].
  rewrite <- Ech. clear Hplan.
  unfold apply_plan. cbn [foldl].
  destruct (apply_changes_converges home self w from_shell to_shell
              (changes_for source_vars shell_vars) Hd Hwr (true, w))
    as [Hok (_ & _ & Hb & Hc)].
  - apply changes_for_NoDup.
  - intros n c Hin.
    apply changes_for_elem in Hin as [H1 H2];
      [|apply merged_variables_NoDup].
    split; [done|]. destruct (Hyp n c.1 H1) as [? | ?]; done.
  - split; [done|]. split; [done|]. split; [done|].
    intros m x Hx Hm. cbn [snd].
    destruct (decide (dict_get m shell_vars = Some x)) as [? | Hne];
      [done|].
    destruct Hm. by apply (changes_for_complete _ _ _ x).
  - split; [done|]. apply plan_of_nil. intros n v Hv.
    apply Hc; [by rewrite <- Hb | by intros ?%elem_of_nil].
Qed.

Lemma sync_converges_witness :
  (sync_variables demo_home (fun _ _ => true) demo_self
     world_one_source ZSH [BASH] None true).1 = true
  /\ plan_of demo_home (fun _ _ => true)
       (sync_variables demo_home (fun _ _ => true) demo_self
          world_one_source ZSH [BASH] None true).2
       ZSH [BASH] None
     = [].
Proof.
  apply (sync_converges demo_home (fun _ _ => true) demo_self
           world_one_source ZSH BASH eq_refl).
  { intros p _. apply demo_world_writable. }
  intros name value H. right.
  assert (name = lit "X" /\ value = lit "a b") as [-> ->].
  { apply dict_get_Some_elem, list_elem_of_In in H. vm_compute in H.
    destruct H as [[= <- <-] | []]. done. }
  split; [reflexivity | vm_compute; lia].
Defined.

(** C1 as stated fails.  When two files of the destination assign the
    variable, the update goes to the first and the merge reads the last:
    the plan stays.  A value with a double quote is written escaped, and
    read back different: the plan stays.  And when the file of the
    destination cannot be opened for writing, the sync answers [False]
    and the plan stays. *)
Lemma sync_does_not_converge :
  plan_of demo_home (fun _ _ => true)
    (sync_variables demo_home (fun _ _ => true) demo_self
       world_two_definitions ZSH [BASH] None true).2
    ZSH [BASH] None
  = [(BASH, [(lit "X", (lit "3", lit "2"))])]
  /\ plan_of demo_home (fun _ _ => true)
       (sync_variables demo_home (fun _ _ => true) demo_self
          world_sync_trap ZSH [BASH] None true).2
       ZSH [BASH] None
     = [(BASH, [(lit "X", ([97; DQUOTE; 98],
                           [97; BACKSLASH; DQUOTE; 98]))])]
  /\ (sync_variables demo_home (fun _ _ => true) demo_self
        world_sync_unwritable ZSH [BASH] None true).1 = false
  /\ plan_of demo_home (fun _ _ => true)
       (sync_variables demo_home (fun _ _ => true) demo_self
          world_sync_unwritable ZSH [BASH] None true).2
       ZSH [BASH] None
     = [(BASH, [(lit "X", (lit "3", not_set))])].
Proof. vm_compute. repeat split. Qed.
(** * Further properties *)

(** ** Lines that are no assignment *)

Lemma rest_inv s g :
  Re.rest s = Some g ->
  exists tail, s = g ++ tail /\ contains LF g = false
               /\ (tail = [] \/ tail = [LF]).
Proof.
  unfold Re.rest. destruct (Re.at_end (dropwhile not_LF s)) eqn:E; [|done].
  intros [= <-]. exists (dropwhile not_LF s).
  split; [by rewrite take_drop_while|].
  split; [apply forallb_not_LF, takewhile_forallb|].
  destruct (dropwhile not_LF s) as [|c [|d t]]; [by left | | done].
  right. cbn [Re.at_end] in E. by apply N.eqb_eq in E as ->.
Qed.

Lemma assignment_inv s n g :
  Re.assignment s = Some (n, g) ->
  is_identifier n = true
  /\ exists tail, s = n ++ EQUALS :: g ++ tail /\ contains LF g = false
                  /\ (tail = [] \/ tail = [LF]).
Proof.
  unfold Re.assignment. destruct (Re.ident s) as [[name s1]|] eqn:E; [|done].
  cbn [mbind option_bind]. apply ident_identifier in E as [Hn ->].
  destruct (Re.literal [EQUALS] s1) as [s2|] eqn:E2; [|done].
  cbn [mbind option_bind]. apply literal_Some in E2 as ->.
  destruct (Re.rest s2) as [g'|] eqn:E3; [|done]. cbn [mbind option_bind].
  intros [= <- <-]. split; [done|].
  apply rest_inv in E3 as (tail & -> & ? & ?). by exists tail.
Qed.

Lemma export_form_inv line n g :
  Re.export_form line = Some (n, g) ->
  is_identifier n = true
  /\ exists ws ws1 tail,
       line = ws ++ lit "export" ++ ws1 ++ n ++ EQUALS :: g ++ tail
       /\ all_space ws = true /\ ws1 <> [] /\ all_space ws1 = true
       /\ contains LF g = false /\ (tail = [] \/ tail = [LF]).
Proof.
  unfold Re.export_form, Re.spaces0.
  destruct (Re.literal _ _) as [s1|] eqn:E1; [|done].
  cbn [mbind option_bind]. apply literal_Some in E1.
  destruct s1 as [|c r]; [done|]. cbn [Re.spaces1].
  destruct (is_space c) eqn:Ec; [|done]. cbn [mbind option_bind].
  intros (Hn & tail & Hs & Hg & Ht)%assignment_inv. split; [done|].
  exists (takewhile is_space line), (c :: takewhile is_space r), tail.
  split.
  { rewrite <- (take_drop_while is_space line) at 1. rewrite E1. f_equal.
    f_equal. cbn [app]. f_equal.
    rewrite <- (take_drop_while is_space r) at 1. by rewrite Hs. }
  split; [apply takewhile_forallb|]. split; [done|].
  split; [|done]. cbn [all_space forallb]. rewrite Ec.
  apply takewhile_forallb.
Qed.

Lemma bare_form_inv line n g :
  Re.bare_form line = Some (n, g) ->
  is_identifier n = true
  /\ exists ws tail,
       line = ws ++ n ++ EQUALS :: g ++ tail
       /\ all_space ws = true
       /\ contains LF g = false /\ (tail = [] \/ tail = [LF]).
Proof.
  unfold Re.bare_form, Re.spaces0.
  intros (Hn & tail & Hs & Hg & Ht)%assignment_inv. split; [done|].
  exists (takewhile is_space line), tail.
  split; [|split; [apply takewhile_forallb | done]].
  rewrite <- (take_drop_while is_space line) at 1. by rewrite Hs.
Qed.

(** X1.  [parse_export_line] answers with a name and a value only on a
    line of one of the two forms: whitespace, the keyword [export] and
    whitespace or nothing, an identifier, an equals sign, a text without
    line feed, and a line feed or nothing; the value is that text
    stripped, then unquoted. *)
Theorem parse_only_assignments line name value :
  parse_export_line line = Some (name, value) ->
  is_identifier name = true
  /\ exists ws keyword rest tail,
       line = ws ++ keyword ++ name ++ EQUALS :: rest ++ tail
       /\ all_space ws = true
       /\ (keyword = []
           \/ exists ws1, keyword = lit "export" ++ ws1 /\ ws1 <> []
                          /\ all_space ws1 = true)
       /\ contains LF rest = false
       /\ (tail = [] \/ tail = [LF])
       /\ value = strip_quotes (strip rest).
Proof.
  unfold parse_export_line, patterns. cbn [parse_with].
  destruct (Re.export_form line) as [[n1 g]|] eqn:E1.
  - intros [= <- <-].
    apply export_form_inv in E1
      as (Hn & ws & ws1 & tail & -> & Hws & Hne & Hws1 & Hg & Ht).
    split; [done|]. exists ws, (lit "export" ++ ws1), g, tail.
    split; [by rewrite <- !app_assoc|]. split; [done|].
    split; [right; by exists ws1|]. done.
  - destruct (Re.bare_form line) as [[n2 g]|] eqn:E2; [|done].
    intros [= <- <-].
    apply bare_form_inv in E2 as (Hn & ws & tail & -> & Hws & Hg & Ht).
    split; [done|]. exists ws, [], g, tail. split; [done|].
    split; [done|]. split; [by left|]. done.
Qed.

Lemma parse_only_assignments_witness :
  is_identifier (lit "A") = true
  /\ exists ws keyword rest tail,
       lit "export A= 1 " ++ [LF]
       = ws ++ keyword ++ lit "A" ++ EQUALS :: rest ++ tail
       /\ all_space ws = true
       /\ (keyword = []
           \/ exists ws1, keyword = lit "export" ++ ws1 /\ ws1 <> []
                          /\ all_space ws1 = true)
       /\ contains LF rest = false
       /\ (tail = [] \/ tail = [LF])
       /\ lit "1" = strip_quotes (strip rest).
Proof.
  apply (parse_only_assignments (lit "export A= 1 " ++ [LF]) (lit "A")
           (lit "1")).
  reflexivity.
Defined.

(** X2.  A blank line, a comment, and any line whose first character
    after the leading whitespace is neither a letter nor an underscore,
    is no assignment: [parse_export_line] returns [None]. *)
Theorem parse_skips_other_lines line :
  (forall c, head (lstrip line) = Some c -> is_ident_start c = false) ->
  parse_export_line line = None.
Proof.
  intros H.
  assert (forall x s, lstrip line = x :: s -> is_ident_start x = true ->
                      False) as Hno.
  { intros x s Hx Hs. rewrite (H x) in Hs; [done|]. by rewrite Hx. }
  unfold parse_export_line, patterns. cbn [parse_with].
  destruct (Re.export_form line) as [[n1 g]|] eqn:E1.
  { apply export_form_inv in E1 as (_ & ws & ws1 & tail & -> & Hws & _).
    destruct (Hno 101 (lit "xport" ++ ws1 ++ n1 ++ EQUALS :: g ++ tail));
      [|done].
    unfold lstrip. by apply (dropwhile_stop is_space ws 101). }
  destruct (Re.bare_form line) as [[n2 g]|] eqn:E2; [|done].
  apply bare_form_inv in E2 as (Hn & ws & tail & -> & Hws & _).
  apply is_identifier_inv in Hn as (c & r & -> & Hc & _).
  destruct (Hno c (r ++ EQUALS :: g ++ tail)); [|done].
  unfold lstrip. apply (dropwhile_stop is_space ws c); [done|].
  by apply ident_char_not_space, ident_start_is_ident_char.
Qed.

Lemma parse_skips_other_lines_witness :
  parse_export_line (lit "  # export A=1" ++ [LF]) = None.
Proof.
  apply (parse_skips_other_lines (lit "  # export A=1" ++ [LF])).
  intros c [= <-]. reflexivity.
Defined.
(** ** Reading a file *)

(** X3.  When a file assigns a name on several lines, the value read is
    that of the last of them. *)
Theorem last_assignment_wins w filepath before line after name value :
  read_config_file w filepath = before ++ line :: after ->
  parse_export_line line = Some (name, value) ->
  (forall l, l ∈ after -> assigns name l = false) ->
  dict_get name (get_variables_from_file w filepath) = Some value.
Proof.
  intros Hread Hline Hafter.
  change (file_value w filepath name = Some value).
  rewrite file_value_lines, Hread, last_some_app. cbn [last_some foldl].
  replace (line_value name line) with (Some value).
  2:{ unfold line_value. rewrite Hline. by rewrite decide_True. }
  apply (last_some_none (line_value name)). intros l Hl.
  by apply assigns_false_line_value, Hafter.
Qed.

Lemma last_assignment_wins_witness :
  dict_get (lit "X") (get_variables_from_file world_duplicate demo_bashrc)
  = Some (lit "2").
Proof.
  apply (last_assignment_wins world_duplicate demo_bashrc
           [lit "# path" ++ [LF]; lit "X=1" ++ [LF]] (lit "export X=2") []
           (lit "X") (lit "2"));
    [reflexivity | reflexivity |].
  intros l Hl. by apply elem_of_nil in Hl.
Defined.

(** X4.  Every variable that [get_variables_from_file] returns comes from
    a line of a file that exists; its name is an identifier and its value
    holds no line break. *)
Theorem variables_read_are_well_formed w filepath name value :
  dict_get name (get_variables_from_file w filepath) = Some value ->
  file_exists w filepath = true
  /\ is_identifier name = true
  /\ no_line_break value = true
  /\ exists line,
       line ∈ read_config_file w filepath
       /\ parse_export_line line = Some (name, value).
Proof.
  intros H. change (file_value w filepath name = Some value) in H.
  split.
  { destruct (file_exists w filepath) eqn:E; [done|].
    by rewrite file_value_missing in H. }
  destruct (file_value_well_formed w filepath name value H) as [Hn Hv].
  split; [done|]. split; [done|].
  rewrite file_value_lines in H.
  apply last_some_Some in H as (line & Hin & Hl). exists line.
  split; [done|]. unfold line_value in Hl.
  destruct (parse_export_line line) as [[n v]|]; [|done].
  destruct (decide (n = name)) as [-> | ?]; [|done]. by injection Hl as ->.
Qed.

Lemma variables_read_are_well_formed_witness :
  file_exists world_one_assignment demo_bashrc = true
  /\ is_identifier (lit "X") = true
  /\ no_line_break (lit "1") = true
  /\ exists line,
       line ∈ read_config_file world_one_assignment demo_bashrc
       /\ parse_export_line line = Some (lit "X", lit "1").
Proof.
  apply (variables_read_are_well_formed world_one_assignment demo_bashrc
           (lit "X") (lit "1")).
  reflexivity.
Defined.

(** ** Removing from a file *)

Lemma remaining_lines_filter lines name :
  remaining_lines lines name
  = List.filter (fun line => negb (assigns name line)) lines.
Proof.
  unfold remaining_lines.
  enough (forall acc,
            foldl (fun new_lines line =>
                     if negb (assigns name line) then new_lines ++ [line]
                     else new_lines) acc lines
            = acc ++ List.filter (fun line => negb (assigns name line)) lines)
    as H by apply H.
  induction lines as [|l lines IH]; intros acc.
  - by rewrite app_nil_r.
  - cbn [foldl List.filter]. rewrite IH.
    destruct (negb (assigns name l)); [by rewrite <- app_assoc | done].
Qed.

Lemma file_lines_filter (p : str -> bool) lines :
  file_lines lines -> file_lines (List.filter p lines).
Proof.
  induction 1 as [| l Hl | l ls Hl Hls IH]; cbn [List.filter].
  - constructor.
  - destruct (p l); [by apply file_lines_last | constructor].
  - destruct (p l); [by apply file_lines_cons | done].
Qed.

Lemma remaining_lines_encodable lines name :
  forallb encodable lines = true ->
  forallb encodable (remaining_lines lines name) = true.
Proof.
  intros H. rewrite remaining_lines_filter. apply forallb_encodable_elem_of.
  intros l [Hl _]%list_elem_of_In%filter_In.
  by apply (proj1 (forallb_encodable_elem_of lines) H), list_elem_of_In.
Qed.

Lemma removed_content_encodable w filepath name :
  encodable (concat (remaining_lines (read_config_file w filepath) name))
  = true.
Proof.
  rewrite encodable_concat.
  apply remaining_lines_encodable, read_config_file_encodable.
Qed.

(** The removal from a file that can be opened for writing: the lines
    that stay were read from the file, and can be written. *)
Lemma remove_variable_from_file_files self w filepath name :
  dry_run self = false -> filepath ∉ unwritable w ->
  remove_variable_from_file self w filepath name
  = (true,
     with_files
       (<[filepath := concat (remaining_lines
                                (read_config_file w filepath) name)]>
          (files w)) w).
Proof.
  intros Hd Hw. unfold remove_variable_from_file. rewrite Hd.
  apply write_config_file_ok; [done | done|].
  apply remaining_lines_encodable, read_config_file_encodable.
Qed.

Lemma remove_variable_from_file_refused self w filepath name :
  dry_run self = false -> filepath ∈ unwritable w ->
  remove_variable_from_file self w filepath name = (false, w).
Proof.
  intros Hd Hw. unfold remove_variable_from_file. rewrite Hd.
  by apply write_config_file_refused.
Qed.

Lemma read_after_remove lines name :
  file_lines lines ->
  readlines (concat (remaining_lines lines name))
  = List.filter (fun line => negb (assigns name line)) lines.
Proof.
  intros H. rewrite remaining_lines_filter.
  by apply readlines_concat, file_lines_filter.
Qed.

Lemma value_after_remove lines name m :
  file_lines lines ->
  last_some (line_value m) None
            (readlines (concat (remaining_lines lines name)))
  = if decide (m = name) then None
    else last_some (line_value m) None lines.
Proof.
  intros H. rewrite read_after_remove by done.
  destruct (decide (m = name)) as [-> | Hne].
  - apply last_some_none. intros l Hl.
    apply list_elem_of_In, filter_In in Hl as [_ Hl].
    by apply assigns_false_line_value, negb_true_iff.
  - apply last_some_filter. intros l Hl.
    apply negb_false_iff in Hl. by apply (assigns_other_line_value name).
Qed.

Lemma file_value_after_remove self w target name p m :
  dry_run self = false -> target ∉ unwritable w ->
  file_value (remove_variable_from_file self w target name).2 p m
  = if decide (p = target /\ m = name) then None else file_value w p m.
Proof.
  intros Hd Hw. rewrite remove_variable_from_file_files by done. cbn [snd].
  rewrite !file_value_lines. destruct (decide (p = target)) as [-> | Hp].
  - rewrite read_config_file_written by apply removed_content_encodable.
    rewrite value_after_remove by apply read_config_file_lines.
    destruct (decide (m = name)) as [-> | Hm].
    + by rewrite decide_True.
    + rewrite decide_False; [done | tauto].
  - rewrite decide_False by tauto. unfold read_config_file. cbn.
    by rewrite lookup_insert_ne.
Qed.



(** A file that cannot be opened for writing keeps the variable. *)
Example remove_refused :
  remove_variable_from_file demo_self world_unwritable demo_bashrc (lit "X")
  = (false, world_unwritable).
Proof. reflexivity. Qed.

Lemma filter_filter {A} (keep : A -> bool) l :
  List.filter keep (List.filter keep l) = List.filter keep l.
Proof.
  induction l as [|x l IH]; [done|]. cbn [List.filter].
  destruct (keep x) eqn:E; [|done]. cbn [List.filter]. by rewrite E, IH.
Qed.

(** X6.  Removing is idempotent: a second [remove_variable_from_file]
    with the same arguments leaves the world as the first one made it. *)
Theorem remove_from_file_idempotent self w filepath name :
  (remove_variable_from_file self
     (remove_variable_from_file self w filepath name).2 filepath name).2
  = (remove_variable_from_file self w filepath name).2.
Proof.
  destruct (dry_run self) eqn:Hd.
  { unfold remove_variable_from_file. by rewrite Hd. }
  destruct (decide (filepath ∈ unwritable w)) as [Hw | Hw].
  { rewrite (remove_variable_from_file_refused self w) by done. cbn [snd].
    by rewrite remove_variable_from_file_refused. }
  rewrite (remove_variable_from_file_files self w) by done. cbn [snd].
  rewrite remove_variable_from_file_files by done. cbn [snd].
  rewrite read_config_file_written by apply removed_content_encodable.
  rewrite read_after_remove by apply read_config_file_lines.
  rewrite !remaining_lines_filter, filter_filter.
  unfold with_files. cbn. by rewrite insert_insert_eq.
Qed.
(** ** Removing a variable from shells *)

Lemma files_defining_elem_of home w name shells shell p :
  shell ∈ shells -> p ∈ config_files home shell ->
  is_Some (file_value w p name) ->
  p ∈ files_defining home w name shells.
Proof.
  intros Hs Hp Hv. unfold files_defining.
  apply list_elem_of_In, in_flat_map. exists shell.
  split; [by apply list_elem_of_In|]. apply filter_In. split.
  - unfold find_existing_config_files. apply filter_In.
    split; [by apply list_elem_of_In|].
    destruct (file_exists w p) eqn:E; [done|].
    rewrite file_value_missing in Hv by done. by destruct Hv.
  - rewrite dict_has_file_value. by apply bool_decide_eq_true.
Qed.

Lemma apply_to_files_cons (update : world -> str -> bool * world) w p l :
  apply_to_files update w (p :: l)
  = ((update w p).1 && (apply_to_files update (update w p).2 l).1,
     (apply_to_files update (update w p).2 l).2).
Proof.
  unfold apply_to_files. cbn [foldl fst snd].
  destruct (update w p) as [b w1]. cbn [fst snd].
  generalize w1. clear w w1 p.
  assert (forall ok w,
            foldl (fun acc filepath =>
                     let '(ok, w') := update acc.2 filepath in
                     (if ok then acc.1 else false, w'))
                  (ok, w) l
            = (ok && (foldl (fun acc filepath =>
                               let '(ok, w') := update acc.2 filepath in
                               (if ok then acc.1 else false, w'))
                            (true, w) l).1,
               (foldl (fun acc filepath =>
                         let '(ok, w') := update acc.2 filepath in
                         (if ok then acc.1 else false, w'))
                      (true, w) l).2)) as H.
  { induction l as [|q l IH]; intros ok w.
    - cbn. by rewrite andb_true_r.
    - cbn [foldl fst snd]. destruct (update w q) as [b' w'].
      rewrite (IH (if b' then ok else false)), (IH (if b' then true else false)).
      cbn [fst snd]. by destruct b', ok. }
  intros w1. rewrite H. by destruct b.
Qed.

Lemma apply_remove_effect self name files_to_modify :
  dry_run self = false ->
  forall w,
    (forall p, p ∈ files_to_modify -> p ∉ unwritable w) ->
    (apply_to_files
       (fun w' filepath => remove_variable_from_file self w' filepath name)
       w files_to_modify).1 = true
    /\ forall p m,
         file_value
           (apply_to_files
              (fun w' filepath =>
                 remove_variable_from_file self w' filepath name)
              w files_to_modify).2 p m
         = if decide (p ∈ files_to_modify /\ m = name) then None
           else file_value w p m.
Proof.
  intros Hd. induction files_to_modify as [|q l IH]; intros w Hw.
  - split; [done|]. intros p m. rewrite decide_False; [done|].
    intros [?%elem_of_nil _]. done.
  - rewrite apply_to_files_cons. cbn [fst snd].
    assert (q ∉ unwritable w) as Hq by (apply Hw; left).
    destruct (IH (remove_variable_from_file self w q name).2) as [H1 H2].
    { intros p Hp. rewrite remove_variable_from_file_files by done. cbn.
      apply Hw. by right. }
    split.
    { rewrite H1. by rewrite remove_variable_from_file_files. }
    intros p m. rewrite H2, file_value_after_remove by done.
    destruct (decide (p ∈ l /\ m = name)) as [[Hin ->] | Hnot].
    + rewrite decide_True; [done|]. split; [by right | done].
    + destruct (decide (p = q /\ m = name)) as [[-> ->] | Hnot'].
      * rewrite decide_True; [done|]. split; [left | done].
      * rewrite decide_False; [done|].
        intros [[-> | Hin]%elem_of_cons ->]; tauto.
Qed.

(** X7.  Outside dry-run mode and once confirmed, when every file that
    assigns the name in a target shell can be opened for writing,
    [remove_variable] succeeds; afterwards no file of a target shell
    gives a value to the name, so the merged variables of the target
    shells do not hold it, and every other name keeps its merged value
    in every shell. *)
Theorem remove_variable_effect home self w name shells skip_confirmation :
  dry_run self = false ->
  skip_confirmation = true \/ answers_yes w = true ->
  (forall p, p ∈ files_defining home w name shells -> p ∉ unwritable w) ->
  (remove_variable home self w name shells skip_confirmation).1 = true
  /\ (forall shell,
        shell ∈ shells ->
        dict_get name
          (merged_variables home
             (remove_variable home self w name shells skip_confirmation).2
             shell)
        = None)
  /\ (forall shell m,
        m <> name ->
        dict_get m
          (merged_variables home
             (remove_variable home self w name shells skip_confirmation).2
             shell)
        = dict_get m (merged_variables home w shell)).
Proof.
  intros Hd Hconfirm Hwr.
  assert (exists w1 l,
            remove_variable home self w name shells skip_confirmation
            = apply_to_files
                (fun w' filepath =>
                   remove_variable_from_file self w' filepath name) w1 l
            /\ l = files_defining home w name shells
            /\ same_files w1 w)
    as (w1 & l & -> & Hl & Hsf).
  { unfold remove_variable.
    destruct (files_defining home w name shells) as [|q l] eqn:E.
    - by exists w, [].
    - replace (negb skip_confirmation && negb (dry_run self)
               && negb (answers_yes w)) with false.
      2:{ destruct Hconfirm as [-> | ->]; [done|].
          by rewrite !andb_false_r. }
      eexists _, (q :: l). split; [reflexivity|]. split; [done|].
      destruct (backup_enabled self && negb (dry_run self)); [|done].
      apply create_backup_same_files. }
  assert (forall p m, file_value w1 p m = file_value w p m) as Hw1.
  { intros p m. unfold file_value. f_equal. by apply same_files_variables. }
  destruct (apply_remove_effect self name l Hd w1) as [Hok Hval].
  { intros p Hp. destruct Hsf as (_ & _ & ->). apply Hwr. by rewrite <- Hl. }
  split; [done|]. split.
  - intros shell Hs. rewrite merged_value. apply last_some_none.
    intros p Hp. rewrite Hval.
    destruct (decide (p ∈ l /\ name = name)) as [_ | Hnot]; [done|].
    rewrite Hw1. destruct (file_value w p name) eqn:Ev; [|done].
    destruct Hnot. split; [|done]. rewrite Hl.
    apply (files_defining_elem_of home w name shells shell); eauto.
  - intros shell m Hm. rewrite !merged_value. apply last_some_ext.
    intros p _. rewrite Hval, Hw1. rewrite decide_False; [done | tauto].
Qed.

Lemma remove_variable_effect_witness :
  (remove_variable demo_home demo_self world_two_definitions (lit "X")
     [BASH; SH] true).1 = true
  /\ (forall shell,
        shell ∈ [BASH; SH] ->
        dict_get (lit "X")
          (merged_variables demo_home
             (remove_variable demo_home demo_self world_two_definitions
                (lit "X") [BASH; SH] true).2
             shell)
        = None)
  /\ (forall shell m,
        m <> lit "X" ->
        dict_get m
          (merged_variables demo_home
             (remove_variable demo_home demo_self world_two_definitions
                (lit "X") [BASH; SH] true).2
             shell)
        = dict_get m (merged_variables demo_home world_two_definitions shell)).
Proof.
  apply (remove_variable_effect demo_home demo_self world_two_definitions
           (lit "X") [BASH; SH] true eq_refl (or_introl eq_refl)).
  intros p _. apply demo_world_writable.
Defined.
(** ** The [get] command after [set_variable] *)

Lemma find_filter_split {A} (f g : A -> bool) l x :
  List.find f (List.filter g l) = Some x ->
  exists before after,
    l = before ++ x :: after
    /\ (forall y, y ∈ before -> g y && f y = false)
    /\ g x = true /\ f x = true.
Proof.
  induction l as [|a l IH]; [done|]. cbn [List.filter].
  destruct (g a) eqn:Eg.
  - cbn [List.find]. destruct (f a) eqn:Ef.
    + intros [= <-]. exists [], l. split; [done|].
      split; [by intros ? ?%elem_of_nil | done].
    + intros (before & after & -> & Hb & Hx)%IH.
      exists (a :: before), after. split; [done|]. split; [|done].
      intros y [-> | Hy]%elem_of_cons; [by rewrite Eg, Ef | by apply Hb].
  - intros (before & after & -> & Hb & Hx)%IH.
    exists (a :: before), after. split; [done|]. split; [|done].
    intros y [-> | Hy]%elem_of_cons; [by rewrite Eg | by apply Hb].
Qed.

Lemma head_filter_split {A} (g : A -> bool) l x :
  head (List.filter g l) = Some x ->
  exists before after,
    l = before ++ x :: after
    /\ (forall y, y ∈ before -> g y = false) /\ g x = true.
Proof.
  induction l as [|a l IH]; [done|]. cbn [List.filter].
  destruct (g a) eqn:Eg.
  - intros [= <-]. exists [], l. split; [done|].
    split; [by intros ? ?%elem_of_nil | done].
  - intros (before & after & -> & Hb & Hx)%IH.
    exists (a :: before), after. split; [done|]. split; [|done].
    intros y [-> | Hy]%elem_of_cons; [done | by apply Hb].
Qed.

Lemma find_app_skip {A} (f : A -> bool) l1 y l2 :
  (forall x, x ∈ l1 -> f x = false) -> f y = true ->
  List.find f (l1 ++ y :: l2) = Some y.
Proof.
  intros H Hy. induction l1 as [|a l1 IH]; cbn [app List.find].
  - by rewrite Hy.
  - rewrite H by left. apply IH. intros x Hx. apply H. by right.
Qed.

(** The file that [set_variable] picks is the first candidate that gives
    the name a value, when there is one. *)
Lemma locate_step_first home self w name shell :
  dry_run self = false ->
  exists target w1 before after,
    locate_step home self name (w, []) shell = (w1, [target])
    /\ config_files home shell = before ++ target :: after
    /\ (forall p m, file_value w1 p m = file_value w p m)
    /\ (forall p, p ∈ before ->
                  p <> target /\ file_value w p name = None)
    /\ file_exists w1 target = true.
Proof.
  intros Hd. unfold locate_step.
  destruct (find_existing_config_files home w shell) as [|e es] eqn:E.
  - unfold get_primary_config_file. rewrite E, Hd.
    destruct (config_files_head home shell) as (q & qs & Hq).
    assert (file_exists w q = false) as Hq0.
    { apply (filter_nil_inv _ _ _ E). rewrite Hq. left. }
    rewrite Hq in *. cbn [head default]. unfold id, touch. rewrite Hq0.
    exists q, (with_files (<[q := []]> (files w)) w), [], qs.
    assert (dict_has name
              (get_variables_from_file
                 (with_files (<[q := []]> (files w)) w) q) = false) as Hno.
    { rewrite dict_has_file_value, file_value_touch, file_value_missing
        by done.
      rewrite bool_decide_eq_false_2; [done | by intros [? ?]]. }
    cbn [List.find]. rewrite Hno. cbn [head default]. unfold id.
    split; [done|]. split; [done|].
    split; [intros; by apply file_value_touch|].
    split; [by intros ? ?%elem_of_nil|].
    unfold file_exists. cbn. by rewrite lookup_insert_eq.
  - set (defines := fun config_file =>
                      dict_has name (get_variables_from_file w config_file)).
    unfold find_existing_config_files in E.
    destruct (List.find defines (e :: es)) as [f|] eqn:Ef.
    + rewrite <- E in Ef.
      apply find_filter_split in Ef as (before & after & Hc & Hb & Hx & Hfx).
      exists f, w, before, after. split; [done|]. split; [done|].
      split; [done|]. split; [|done]. intros p Hp.
      specialize (Hb p Hp). split.
      * intros ->. by rewrite Hx, Hfx in Hb.
      * destruct (file_exists w p) eqn:Ep;
          [|by apply file_value_missing].
        cbn [andb] in Hb. subst defines. cbn beta in Hb.
        rewrite dict_has_file_value in Hb.
        apply bool_decide_eq_false in Hb.
        destruct (file_value w p name); [|done]. destruct Hb. eauto.
    + assert (head (List.filter (file_exists w) (config_files home shell))
              = Some e) as He by by rewrite E.
      apply head_filter_split in He as (before & after & Hc & Hb & Hx).
      exists e, w, before, after. split; [done|]. split; [done|].
      split; [done|]. split; [|done]. intros p Hp.
      specialize (Hb p Hp). split.
      * intros ->. congruence.
      * by apply file_value_missing.
Qed.

(** X8.  Outside dry-run mode, when the candidate files of the shell
    can be opened for writing, for a name that is an identifier and a
    value that can be encoded, has no line break and is read back by
    [parse_export_line] from [format_export_line], [set_variable] on one
    shell with the confirmation approved succeeds, and the [get] command
    then prints that value: the update goes to the file that [get]
    reads. *)
Theorem set_then_get home self w name value shell :
  dry_run self = false -> is_identifier name = true ->
  no_line_break value = true ->
  parse_export_line (format_export_line name value) = Some (name, value) ->
  encodable value = true ->
  (forall p, p ∈ config_files home shell -> p ∉ unwritable w) ->
  (set_variable home self w name value [shell] true None).1 = true
  /\ get_command home
       (set_variable home self w name value [shell] true None).2 shell name
     = Some value.
Proof.
  intros Hd Hn Hv Hrt Hev Hwr.
  pose proof (identifier_encodable name Hn) as Hen.
  destruct (locate_step_first home self w name shell Hd)
    as (target & w1 & before & after & Hloc & Hc & Hsame & Hb & Hex).
  pose proof (locate_step_unwritable home self name (w, []) shell) as Hu1.
  rewrite Hloc in Hu1. cbn [fst] in Hu1.
  unfold set_variable, locate_files.
  rewrite identifier_matches by done. cbn [negb foldl]. rewrite Hloc.
  cbn [negb andb]. unfold apply_to_files. cbn [foldl fst snd].
  set (w2 := if backup_enabled self && negb (dry_run self)
             then (create_backup self w1 [target] _).2 else w1).
  assert (same_files w2 w1) as Hsf.
  { subst w2. destruct (backup_enabled self && negb (dry_run self)); [|done].
    apply create_backup_same_files. }
  assert (forall p m, file_value w2 p m = file_value w p m) as Hsame2.
  { intros p m. rewrite <- Hsame. unfold file_value. f_equal.
    by apply same_files_variables. }
  assert (target ∉ unwritable w2) as Hw2.
  { destruct Hsf as (_ & _ & ->). rewrite Hu1. apply Hwr. rewrite Hc.
    apply elem_of_app. right. left. }
  pose proof (fun p m => file_value_after_update self w2 target name value
                           p m Hd Hn Hv Hrt Hw2 Hev) as Hval.
  rewrite update_variable_in_file_files in * by done. cbn [fst snd] in *.
  split; [done|].
  set (w3 := with_files _ w2) in *.
  assert (forall p, dict_has name (get_variables_from_file w3 p)
                    = bool_decide (p = target
                                   \/ is_Some (file_value w p name))) as Hhas.
  { intros p. rewrite dict_has_file_value, Hval.
    apply bool_decide_ext. rewrite Hsame2.
    destruct (decide (p = target /\ name = name)) as [[-> _] | Hnot].
    - split; [by left | eauto].
    - split; [by right | intros [-> | ?]; [tauto | done]]. }
  unfold get_command, find_existing_config_files. rewrite Hc.
  rewrite List.filter_app. cbn [List.filter].
  replace (file_exists w3 target) with true.
  2:{ subst w3. unfold file_exists. cbn. by rewrite lookup_insert_eq. }
  rewrite find_app_skip.
  - change (file_value w3 target name = Some value). rewrite Hval.
    by rewrite decide_True.
  - intros p Hp%list_elem_of_In%filter_In. destruct Hp as [Hp _].
    apply list_elem_of_In, Hb in Hp as [Hne Hnone].
    rewrite Hhas, Hnone. apply bool_decide_eq_false_2.
    intros [? | [? ?]]; done.
  - rewrite Hhas. apply bool_decide_eq_true_2. by left.
Qed.

Lemma set_then_get_witness :
  (set_variable demo_home demo_self world_two_definitions (lit "X")
     (lit "a b") [BASH] true None).1 = true
  /\ get_command demo_home
       (set_variable demo_home demo_self world_two_definitions (lit "X")
          (lit "a b") [BASH] true None).2 BASH (lit "X")
     = Some (lit "a b").
Proof.
  apply (set_then_get demo_home demo_self world_two_definitions (lit "X")
           (lit "a b") BASH eq_refl eq_refl eq_refl eq_refl eq_refl).
  intros p _. apply demo_world_writable.
Defined.

(** With a value that cannot be encoded, [set_variable] answers [False]
    and the file loses the line of the variable and those after it. *)
Example set_unencodable_value :
  set_variable demo_home demo_self world_one_assignment (lit "X")
    lone_surrogate [BASH] true None
  = (false,
     with_archives
       [(demo_archive_path,
         Archive [(lit ".bashrc", lit "X=1" ++ [LF])]
                 (Some (Metadata (lit "20240101_120000") [demo_bashrc]
                                 (lit "Before setting X=" ++ lone_surrogate))))]
       (demo_world {[ demo_bashrc := [] ]})).
Proof. reflexivity. Qed.

(** X9.  When at most one existing file of a shell assigns a name, the
    [get] command and the merged variables of the shell agree on it;
    with two such files they may differ, [get] reading the first and the
    merge the last. *)
Theorem get_agrees_with_merge home w shell name :
  (length (files_defining home w name [shell]) <= 1)%nat ->
  get_command home w shell name
  = dict_get name (merged_variables home w shell).
Proof.
  intros Hlen. unfold get_command. rewrite find_head_filter.
  assert (files_defining home w name [shell]
          = List.filter (fun config_file =>
                           dict_has name
                             (get_variables_from_file w config_file))
                        (find_existing_config_files home w shell)) as Hfd.
  { unfold files_defining. cbn [flat_map]. by rewrite app_nil_r. }
  rewrite <- Hfd. rewrite merged_value.
  assert (forall p, p ∈ config_files home shell ->
                    is_Some (file_value w p name) ->
                    p ∈ files_defining home w name [shell]) as Hin.
  { intros p Hp Hv.
    apply (files_defining_elem_of home w name [shell] shell);
      [left | done | done]. }
  destruct (files_defining home w name [shell]) as [|f [|f' fs]] eqn:E;
    cbn [length head] in *; [| | lia].
  - symmetry. apply last_some_none. intros p Hp.
    destruct (file_value w p name) eqn:Ev; [|done].
    specialize (Hin p Hp ltac:(eauto)). by apply elem_of_nil in Hin.
  - assert (In f (List.filter
                    (fun config_file =>
                       dict_has name (get_variables_from_file w config_file))
                    (find_existing_config_files home w shell))) as Hf.
    { rewrite <- Hfd. by left. }
    apply filter_In in Hf as [Hex Hdef].
    apply list_elem_of_In, existing_is_candidate in Hex as [Hcand _].
    rewrite dict_has_file_value in Hdef.
    apply bool_decide_eq_true in Hdef as [v Hv].
    change (file_value w f name
            = last_some (fun p => file_value w p name) None
                        (config_files home shell)).
    rewrite Hv. symmetry. apply last_some_only.
    + intros p Hp. destruct (file_value w p name) eqn:Ev; [|by right].
      left. specialize (Hin p Hp ltac:(eauto)).
      apply list_elem_of_singleton in Hin as ->. congruence.
    + by exists f.
Qed.

Lemma get_agrees_with_merge_witness :
  get_command demo_home world_one_source ZSH (lit "X")
  = dict_get (lit "X") (merged_variables demo_home world_one_source ZSH).
Proof.
  apply (get_agrees_with_merge demo_home world_one_source ZSH (lit "X")).
  vm_compute. lia.
Defined.

(** With two files that assign the name, [get] and the merge differ. *)
Lemma get_and_merge_differ :
  get_command demo_home world_two_definitions BASH (lit "X")
  = Some (lit "1")
  /\ dict_get (lit "X")
       (merged_variables demo_home world_two_definitions BASH)
     = Some (lit "2").
Proof. vm_compute. auto. Qed.
(** ** Dry-run mode *)

Lemma locate_dry_run home self name shells :
  dry_run self = true ->
  forall w l, (foldl (locate_step home self name) (w, l) shells).1 = w.
Proof.
  intros Hd. induction shells as [|shell shells IH]; intros w l; [done|].
  cbn [foldl].
  assert (exists l', locate_step home self name (w, l) shell = (w, l'))
    as [l' ->]; [|apply IH].
  unfold locate_step.
  destruct (find_existing_config_files home w shell) as [|e es] eqn:E.
  - unfold get_primary_config_file. rewrite E, Hd. eauto.
  - eauto.
Qed.

Lemma apply_to_files_unchanged (update : world -> str -> bool * world) l :
  (forall w p, (update w p).2 = w) ->
  forall w, (apply_to_files update w l).2 = w.
Proof.
  intros Hu. induction l as [|p l IH]; intros w; [done|].
  rewrite apply_to_files_cons. cbn [snd]. by rewrite Hu, IH.
Qed.

Lemma set_variable_dry_run home self w name value shells skip file :
  dry_run self = true ->
  (set_variable home self w name value shells skip file).2 = w.
Proof.
  intros Hd. unfold set_variable.
  destruct (negb (Re.identifier name)); [done|].
  assert (match locate_files home self w name shells file with
          | Some (w1, _) => w1 = w
          | None => True
          end) as Hloc.
  { unfold locate_files. destruct file as [[|c f]|].
    - pose proof (locate_dry_run home self name shells Hd w []) as H.
      by destruct (foldl _ (w, []) shells).
    - by destruct (file_exists w (c :: f)).
    - pose proof (locate_dry_run home self name shells Hd w []) as H.
      by destruct (foldl _ (w, []) shells). }
  destruct (locate_files home self w name shells file) as [[w1 l]|]; [|done].
  subst w1. rewrite Hd. rewrite andb_false_r. cbn [andb negb].
  rewrite andb_false_r.
  replace (match l with [] => w | _ :: _ => w end) with w by by destruct l.
  apply apply_to_files_unchanged. intros w' p.
  unfold update_variable_in_file. by rewrite Hd.
Qed.

Lemma apply_changes_dry_run home self to_shell changes :
  dry_run self = true ->
  forall acc, (apply_changes home self to_shell acc changes).2 = acc.2.
Proof.
  intros Hd. induction changes as [|c changes IH]; intros acc; [done|].
  rewrite apply_changes_cons, IH. cbn [snd].
  by apply set_variable_dry_run.
Qed.

(** X10.  In dry-run mode nothing is written: [set_variable],
    [remove_variable], [sync_variables], [update_variable_in_file],
    [remove_variable_from_file], [create_backup] and
    [get_primary_config_file] leave the world as it is, whatever their
    arguments. *)
Theorem dry_run_changes_nothing home fnmatch self w name value shells
    skip_confirmation specific_file from_shell keys filepath
    files_to_backup message shell :
  dry_run self = true ->
  (set_variable home self w name value shells skip_confirmation
     specific_file).2 = w
  /\ (remove_variable home self w name shells skip_confirmation).2 = w
  /\ (sync_variables home fnmatch self w from_shell shells keys
        skip_confirmation).2 = w
  /\ update_variable_in_file self w filepath name value = (true, w)
  /\ remove_variable_from_file self w filepath name = (true, w)
  /\ create_backup self w files_to_backup message = (None, w)
  /\ (get_primary_config_file home self w shell).2 = w.
Proof.
  intros Hd. split; [by apply set_variable_dry_run|]. split; [|split].
  - unfold remove_variable.
    destruct (files_defining home w name shells) as [|q l]; [done|].
    rewrite Hd, !andb_false_r. cbn [andb negb].
    apply apply_to_files_unchanged. intros w' p.
    unfold remove_variable_from_file. by rewrite Hd.
  - unfold sync_variables.
    destruct (merged_variables home w from_shell); [done|].
    destruct (filter_by_keys fnmatch keys _); [done|].
    destruct (sync_plan home w from_shell shells _) as [|e plan]; [done|].
    rewrite Hd, andb_false_r. cbn [andb]. unfold apply_plan.
    assert (forall plan acc,
              (foldl (fun acc entry =>
                        let '(to_shell, changes) := entry in
                        apply_changes home self to_shell acc changes)
                     acc plan).2 = acc.2) as H.
    { clear -Hd. induction plan as [|[s c] plan IH]; intros acc; [done|].
      cbn [foldl]. rewrite IH. by apply apply_changes_dry_run. }
    apply (H (e :: plan) (true, w)).
  - unfold update_variable_in_file, remove_variable_from_file, create_backup,
      get_primary_config_file.
    rewrite Hd, orb_true_r.
    by destruct (find_existing_config_files home w shell).
Qed.

Lemma dry_run_changes_nothing_witness :
  (set_variable demo_home demo_dry_run world_no_files (lit "X") (lit "1")
     [BASH; SH] true None)
  = (true, world_no_files).
Proof.
  assert ((set_variable demo_home demo_dry_run world_no_files (lit "X")
             (lit "1") [BASH; SH] true None).1 = true) as H1 by reflexivity.
  destruct (dry_run_changes_nothing demo_home (fun _ _ => true) demo_dry_run
              world_no_files (lit "X") (lit "1") [BASH; SH] true None BASH
              None [] [] None BASH eq_refl) as [H2 _].
  destruct (set_variable _ _ _ _ _ _ _ _) as [b w']. cbn [fst snd] in *.
  by subst.
Defined.

(** ** A confirmation that is declined *)

Lemma only_empty_files_added_refl w : only_empty_files_added w w.
Proof. split; [done|]. split; [done|]. split; [done|]. intros; by left. Qed.

Lemma only_empty_files_added_trans w1 w2 w3 :
  only_empty_files_added w1 w2 -> only_empty_files_added w2 w3 ->
  only_empty_files_added w1 w3.
Proof.
  intros (A1 & B1 & C1 & D1) (A2 & B2 & C2 & D2).
  split; [congruence|]. split; [congruence|]. split; [by eauto|].
  intros p c [H | ->]%D2; [by apply D1 | by right].
Qed.

Lemma touch_only_empty w p : only_empty_files_added w (touch w p).
Proof.
  unfold touch, file_exists. destruct (files w !! p) eqn:E.
  { apply only_empty_files_added_refl. }
  split; [done|]. split; [done|]. split; cbn.
  - intros q c Hq. rewrite lookup_insert_ne; [done|]. congruence.
  - intros q c. destruct (decide (p = q)) as [-> | Hne].
    + rewrite lookup_insert_eq. intros [= <-]. by right.
    + rewrite lookup_insert_ne by done. by left.
Qed.

Lemma locate_only_empty home self name shells :
  forall w l,
    only_empty_files_added w
      (foldl (locate_step home self name) (w, l) shells).1.
Proof.
  induction shells as [|shell shells IH]; intros w l.
  { apply only_empty_files_added_refl. }
  cbn [foldl].
  assert (only_empty_files_added w
            (locate_step home self name (w, l) shell).1) as H.
  { unfold locate_step.
    destruct (find_existing_config_files home w shell) as [|e es] eqn:E;
      [|apply only_empty_files_added_refl].
    unfold get_primary_config_file. rewrite E. cbn [fst].
    destruct (dry_run self);
      [apply only_empty_files_added_refl | apply touch_only_empty]. }
  destruct (locate_step home self name (w, l) shell) as [w1 l1].
  cbn [fst] in H. eapply only_empty_files_added_trans; [exact H | apply IH].
Qed.

(** X11.  Outside dry-run mode, when the user declines, [set_variable]
    returns [False], makes no archive and changes no file that exists:
    all it may leave behind is the empty primary file of a shell that had
    none.  [remove_variable] and [sync_variables] leave the world as it
    is. *)
Theorem declined_changes_no_variable home fnmatch self w name value shells
    specific_file from_shell keys :
  dry_run self = false -> answers_yes w = false ->
  (set_variable home self w name value shells false specific_file).1 = false
  /\ only_empty_files_added w
       (set_variable home self w name value shells false specific_file).2
  /\ (remove_variable home self w name shells false).2 = w
  /\ (sync_variables home fnmatch self w from_shell shells keys false).2 = w.
Proof.
  intros Hd Hno. split; [|split; [|split]].
  - unfold set_variable. destruct (negb (Re.identifier name)); [done|].
    destruct (locate_files home self w name shells specific_file)
      as [[w1 l]|] eqn:E; [|done].
    assert (answers_yes w1 = false) as ->; [|by rewrite Hd].
    unfold locate_files in E. destruct specific_file as [[|c f]|].
    + pose proof (locate_only_empty home self name shells w [])
        as (_ & H & _).
      injection E as E. rewrite E in H. cbn [fst] in H. congruence.
    + destruct (file_exists w (c :: f)); [|done]. by injection E as <- _.
    + pose proof (locate_only_empty home self name shells w [])
        as (_ & H & _).
      injection E as E. rewrite E in H. cbn [fst] in H. congruence.
  - unfold set_variable.
    destruct (negb (Re.identifier name));
      [apply only_empty_files_added_refl|].
    destruct (locate_files home self w name shells specific_file)
      as [[w1 l]|] eqn:E; [|apply only_empty_files_added_refl].
    assert (only_empty_files_added w w1) as Hw1.
    { unfold locate_files in E. destruct specific_file as [[|c f]|].
      - pose proof (locate_only_empty home self name shells w []) as H.
        injection E as E. by rewrite E in H.
      - destruct (file_exists w (c :: f)); [|done]. injection E as <- _.
        apply only_empty_files_added_refl.
      - pose proof (locate_only_empty home self name shells w []) as H.
        injection E as E. by rewrite E in H. }
    replace (answers_yes w1) with false by (destruct Hw1 as (_ & -> & _); done).
    by rewrite Hd.
  - unfold remove_variable.
    destruct (files_defining home w name shells); [done|].
    by rewrite Hd, Hno.
  - unfold sync_variables.
    destruct (merged_variables home w from_shell); [done|].
    destruct (filter_by_keys fnmatch keys _); [done|].
    destruct (sync_plan home w from_shell shells _); [done|].
    by rewrite Hd, Hno.
Qed.

Lemma declined_changes_no_variable_witness :
  (set_variable demo_home demo_self world_declining (lit "X") (lit "1")
     [BASH] false None).1 = false
  /\ only_empty_files_added world_declining
       (set_variable demo_home demo_self world_declining (lit "X") (lit "1")
          [BASH] false None).2
  /\ (remove_variable demo_home demo_self world_declining (lit "X") [ZSH]
        false).2 = world_declining
  /\ (sync_variables demo_home (fun _ _ => true) demo_self world_declining
        ZSH [BASH] None false).2 = world_declining.
Proof.
  destruct (declined_changes_no_variable demo_home (fun _ _ => true)
              demo_self world_declining (lit "X") (lit "1") [BASH] None ZSH
              None eq_refl eq_refl) as (H1 & H2 & _ & H4).
  destruct (declined_changes_no_variable demo_home (fun _ _ => true)
              demo_self world_declining (lit "X") (lit "1") [ZSH] None ZSH
              None eq_refl eq_refl) as (_ & _ & H3 & _).
  auto.
Defined.

(** The file that a declined [set_variable] leaves behind. *)
Lemma declined_set_creates_primary :
  files (set_variable demo_home demo_self world_declining (lit "X") (lit "1")
           [BASH] false None).2 !! demo_bashrc
  = Some [].
Proof. reflexivity. Qed.

(** ** The name check *)

(** X12.  [set_variable] accepts a name exactly when it is an
    identifier, or an identifier followed by one line feed; any other
    name is rejected with [False] before anything is read or written. *)
Theorem name_check_accepts name :
  (Re.identifier name = true
   <-> is_identifier name = true
       \/ exists n, name = n ++ [LF] /\ is_identifier n = true)
  /\ (Re.identifier name = false ->
      forall home self w value shells skip_confirmation specific_file,
        set_variable home self w name value shells skip_confirmation
                     specific_file
        = (false, w)).
Proof.
  split.
  - split.
    + unfold Re.identifier, Re.ident. destruct name as [|c r]; [done|].
      destruct (is_ident_start c) eqn:Hc; [|done].
      pose proof (take_drop_while is_ident_char r) as Hr.
      pose proof (takewhile_forallb is_ident_char r) as Ht.
      destruct (dropwhile is_ident_char r) as [|x [|y t]]; [| |done].
      * intros _. left. cbn [is_identifier]. rewrite Hc.
        rewrite app_nil_r in Hr. by rewrite <- Hr.
      * cbn [Re.at_end]. intros ->%N.eqb_eq. right.
        exists (c :: takewhile is_ident_char r).
        split; [by rewrite <- Hr at 1|]. cbn [is_identifier].
        by rewrite Hc, Ht.
    + intros [H | (n & -> & H)]; [by apply identifier_matches|].
      apply is_identifier_inv in H as (c & r & -> & Hc & Hr).
      unfold Re.identifier, Re.ident. cbn [app]. rewrite Hc.
      by rewrite dropwhile_stop.
  - intros H home self w value shells skip_confirmation specific_file.
    unfold set_variable. by rewrite H.
Qed.

(** A name with a line feed at its end passes the check, and what is
    written for it is no assignment. *)
Lemma name_with_line_feed :
  set_variable demo_home demo_self world_no_files (lit "X" ++ [LF])
    (lit "1") [BASH] true None
  = (true,
     with_archives
       [(demo_archive_path,
         Archive [(lit ".bashrc", [])]
                 (Some (Metadata (lit "20240101_120000") [demo_bashrc]
                                 (lit "Before setting X" ++ [LF]
                                  ++ lit "=1"))))]
       (demo_world {[ demo_bashrc := lit "export X" ++ [LF] ++ lit "=1"
                                     ++ [LF] ]}))
  /\ get_variables_from_file
       (set_variable demo_home demo_self world_no_files (lit "X" ++ [LF])
          (lit "1") [BASH] true None).2 demo_bashrc
     = [].
Proof. vm_compute. auto. Qed.
(** ** The merge, in general *)

Lemma last_some_Some_split {A B} (f : A -> option B) l y :
  last_some f None l = Some y ->
  exists l1 x l2,
    l = l1 ++ x :: l2 /\ f x = Some y /\ forall z, z ∈ l2 -> f z = None.
Proof.
  induction l as [|x l IH] using rev_ind; [done|].
  rewrite last_some_snoc. destruct (f x) as [z|] eqn:E.
  - intros [= ->]. exists l, x, []. split; [done|]. split; [done|].
    by intros ? ?%elem_of_nil.
  - intros (l1 & x' & l2 & -> & Hx' & Hl2)%IH.
    exists l1, x', (l2 ++ [x]). split; [by rewrite <- app_assoc|].
    split; [done|]. intros z [? | ->%list_elem_of_singleton]%elem_of_app;
      [by apply Hl2 | done].
Qed.

(** X13.  For every shell, the merged variables give a name the value
    [v] exactly when some candidate file of the shell gives it [v] and
    no candidate after it gives it any value: the last file that assigns
    the name wins, and a missing file counts as assigning nothing. *)
Theorem merged_value_is_last home w shell name v :
  dict_get name (merged_variables home w shell) = Some v
  <-> exists before p after,
        config_files home shell = before ++ p :: after
        /\ dict_get name (get_variables_from_file w p) = Some v
        /\ forall q, q ∈ after ->
                     dict_get name (get_variables_from_file w q) = None.
Proof.
  rewrite merged_value. split.
  - intros (l1 & p & l2 & ? & ? & ?)%last_some_Some_split.
    by exists l1, p, l2.
  - intros (before & p & after & -> & Hp & Hafter).
    change (file_value w p name = Some v) in Hp.
    rewrite last_some_app. cbn [last_some foldl]. rewrite Hp.
    by apply (last_some_none (fun p => file_value w p name)).
Qed.

(** ** The files that [set_variable] modifies *)

Lemma locate_step_adds home self name w l shell :
  exists t,
    t ∈ config_files home shell
    /\ (locate_step home self name (w, l) shell).2
       = (if bool_decide (t ∈ l) then l else l ++ [t])
    /\ (dry_run self = false ->
        file_exists (locate_step home self name (w, l) shell).1 t = true)
    /\ (forall q, file_exists w q = true ->
          file_exists (locate_step home self name (w, l) shell).1 q = true).
Proof.
  unfold locate_step.
  destruct (find_existing_config_files home w shell) as [|e es] eqn:E.
  - unfold get_primary_config_file. rewrite E.
    destruct (config_files_head home shell) as (q & qs & Hq).
    rewrite Hq. cbn [head default]. unfold id.
    set (w1 := if dry_run self then w else touch w q).
    assert (forall p, file_exists w p = true -> file_exists w1 p = true)
      as Hkeep.
    { intros p Hp. subst w1. destruct (dry_run self); [done|].
      destruct (touch_only_empty w q) as (_ & _ & H & _).
      unfold file_exists in *. destruct (files w !! p) eqn:Ep; [|done].
      by rewrite (H p _ Ep). }
    exists (match List.find
                    (fun config_file =>
                       dict_has name (get_variables_from_file w1 config_file))
                    [q] with
            | Some f => f
            | None => q
            end).
    split.
    { cbn [List.find]. destruct (dict_has _ _); left. }
    split; [done|]. split; [|done]. intros Hd. subst w1. rewrite Hd.
    assert (file_exists (touch w q) q = true) as Hq1.
    { unfold touch. destruct (file_exists w q) eqn:Eq; [done|].
      unfold file_exists. cbn. by rewrite lookup_insert_eq. }
    cbn [List.find]. by destruct (dict_has _ _).
  - cbn [fst snd head default]. unfold id.
    assert (forall p, p ∈ e :: es ->
                      p ∈ config_files home shell /\ file_exists w p = true)
      as Hsub.
    { intros p Hp. rewrite <- E in Hp. by apply existing_is_candidate. }
    set (t := match List.find _ (e :: es) with Some f => f | None => e end).
    assert (t ∈ e :: es) as Ht.
    { subst t. destruct (List.find _ (e :: es)) as [f|] eqn:Ef; [|left].
      apply find_some in Ef as [Hin _]. by apply list_elem_of_In. }
    exists t. split; [by apply Hsub|]. split; [done|].
    split; [intros _; by apply Hsub | done].
Qed.

Lemma locate_fold_distinct home self name shells :
  forall w l,
    NoDup l ->
    (forall p, p ∈ l -> file_exists w p = true) \/ dry_run self = true ->
    NoDup (foldl (locate_step home self name) (w, l) shells).2
    /\ (forall p,
          p ∈ (foldl (locate_step home self name) (w, l) shells).2 ->
          p ∈ l \/ exists shell, shell ∈ shells
                                 /\ p ∈ config_files home shell)
    /\ (length (foldl (locate_step home self name) (w, l) shells).2
        <= length l + length shells)%nat
    /\ (dry_run self = false ->
        forall p,
          p ∈ (foldl (locate_step home self name) (w, l) shells).2 ->
          file_exists (foldl (locate_step home self name) (w, l) shells).1 p
          = true).
Proof.
  induction shells as [|shell shells IH]; intros w l Hnd Hex.
  { cbn [foldl fst snd length]. split; [done|]. split; [by left|].
    split; [lia|]. intros Hd p Hp. destruct Hex as [H | H]; [auto|].
    congruence. }
  cbn [foldl].
  destruct (locate_step_adds home self name w l shell)
    as (t & Ht & Hl & Hext & Hkeep).
  destruct (locate_step home self name (w, l) shell) as [w1 l1].
  cbn [fst snd] in *.
  assert (NoDup l1) as Hnd1.
  { rewrite Hl. destruct (bool_decide (t ∈ l)) eqn:Et; [done|].
    apply bool_decide_eq_false in Et. apply NoDup_app.
    split; [done|]. split; [|apply NoDup_singleton].
    intros x Hx ->%list_elem_of_singleton. done. }
  assert (forall p, p ∈ l1 -> p ∈ l \/ p = t) as Hl1.
  { intros p. rewrite Hl. destruct (bool_decide (t ∈ l)); [by left|].
    intros [? | ->%list_elem_of_singleton]%elem_of_app; auto. }
  assert (length l1 <= length l + 1)%nat as Hlen.
  { rewrite Hl. destruct (bool_decide (t ∈ l)); [lia|].
    rewrite length_app. cbn [length]. lia. }
  destruct (IH w1 l1 Hnd1) as (H1 & H2 & H3 & H4).
  { destruct (dry_run self) eqn:Hd; [by right|]. left.
    intros p [Hp | ->]%Hl1; [|by apply Hext].
    destruct Hex as [H | H]; [|done]. by apply Hkeep, H. }
  split; [done|]. split; [|split; [cbn [length]; lia | done]].
  intros p [[Hp | ->]%Hl1 | (s & Hs & Hp)]%H2.
  - by left.
  - right. exists shell. split; [left | done].
  - right. exists s. split; [by right | done].
Qed.

(** X14.  The files that [set_variable] is about to modify, when no file
    is given: they are distinct, so a file that two shells share is
    updated once; each is a candidate file of a target shell; there are
    no more of them than shells; and outside dry-run mode each of them
    exists when the loop ends. *)
Theorem files_to_modify_are_distinct home self w name shells w1
    files_to_modify :
  locate_files home self w name shells None = Some (w1, files_to_modify) ->
  NoDup files_to_modify
  /\ (forall p, p ∈ files_to_modify ->
        exists shell, shell ∈ shells /\ p ∈ config_files home shell)
  /\ (length files_to_modify <= length shells)%nat
  /\ (dry_run self = false ->
      forall p, p ∈ files_to_modify -> file_exists w1 p = true).
Proof.
  unfold locate_files. intros [= E].
  destruct (locate_fold_distinct home self name shells w [])
    as (H1 & H2 & H3 & H4).
  { constructor. }
  { left. by intros ? ?%elem_of_nil. }
  rewrite E in *. cbn [fst snd length] in *.
  split; [done|]. split; [|done].
  intros p [?%elem_of_nil | ?]%H2; done.
Qed.

Lemma files_to_modify_are_distinct_witness :
  NoDup [demo_profile]
  /\ (forall p, p ∈ [demo_profile] ->
        exists shell, shell ∈ [BASH; SH] /\ p ∈ config_files demo_home shell)
  /\ (length [demo_profile] <= length [BASH; SH])%nat
  /\ (dry_run demo_self = false ->
      forall p, p ∈ [demo_profile] ->
                file_exists world_profile_only p = true).
Proof.
  apply (files_to_modify_are_distinct demo_home demo_self world_profile_only
           (lit "X") [BASH; SH] world_profile_only [demo_profile]).
  reflexivity.
Defined.
(** ** The plan of a sync *)

Lemma filter_keys_NoDup {K V} (p : K * V -> bool) (d : dict K V) :
  NoDup d.*1 -> NoDup (List.filter p d).*1.
Proof.
  induction d as [|[k v] d IH]; [done|]. cbn [fmap list_fmap fst].
  intros [Hk Hd]%NoDup_cons. cbn [List.filter].
  destruct (p (k, v)); [|by apply IH]. cbn [fmap list_fmap fst].
  apply NoDup_cons. split; [|by apply IH].
  intros ([k' v'] & -> & Hin)%list_elem_of_fmap. apply Hk.
  apply list_elem_of_fmap. exists (k', v'). split; [done|].
  apply list_elem_of_In. apply list_elem_of_In, filter_In in Hin as [? _].
  done.
Qed.

Lemma filter_by_keys_NoDup fnmatch keys (vars : dict str str) :
  NoDup vars.*1 -> NoDup (filter_by_keys fnmatch keys vars).*1.
Proof.
  intros H. unfold filter_by_keys. destruct keys as [[|k ks]|]; try done.
  by apply filter_keys_NoDup.
Qed.

Lemma filter_by_keys_elem fnmatch keys (vars : dict str str) n v :
  (n, v) ∈ filter_by_keys fnmatch keys vars ->
  (n, v) ∈ vars
  /\ forall pats, keys = Some pats -> pats <> [] ->
                  existsb (fnmatch n) pats = true.
Proof.
  unfold filter_by_keys. destruct keys as [[|k ks]|].
  - intros H. split; [done|]. intros ? [= <-] Hne. by destruct Hne.
  - intros [H1 H2]%list_elem_of_In%filter_In.
    split; [by apply list_elem_of_In|]. intros ? [= <-] _. exact H2.
  - intros H. split; [done|]. intros ? [= ].
Qed.

(** The source variables of a plan are variables of the source shell. *)
Lemma filtered_source_get home fnmatch w from_shell keys n v :
  dict_get n (filter_by_keys fnmatch keys (merged_variables home w from_shell))
  = Some v ->
  dict_get n (merged_variables home w from_shell) = Some v
  /\ forall pats, keys = Some pats -> pats <> [] ->
                  existsb (fnmatch n) pats = true.
Proof.
  intros [H1 H2]%dict_get_Some_elem%filter_by_keys_elem.
  split; [|done]. apply dict_get_elem; [apply merged_variables_NoDup | done].
Qed.

(** X15.  When every listed destination other than the source already
    agrees with the source on each of its variables, [sync_variables]
    returns [True] and leaves the world as it is, asking nothing: a sync
    to the source shell itself, or a second sync after one that
    converged, does nothing. *)
Theorem sync_in_sync_is_noop home fnmatch self w from_shell to_shells keys
    skip_confirmation :
  (forall to_shell n v,
     to_shell ∈ to_shells -> to_shell <> from_shell ->
     dict_get n (merged_variables home w from_shell) = Some v ->
     dict_get n (merged_variables home w to_shell) = Some v) ->
  sync_variables home fnmatch self w from_shell to_shells keys
                 skip_confirmation
  = (true, w).
Proof.
  intros H.
  assert (forall source_vars,
            source_vars
            = filter_by_keys fnmatch keys
                             (merged_variables home w from_shell) ->
            sync_plan home w from_shell to_shells source_vars = [])
    as Hplan.
  { intros source_vars ->. unfold sync_plan.
    assert (forall acc,
              foldl (fun plan to_shell =>
                       if bool_decide (to_shell = from_shell) then plan
                       else
                         match changes_for
                                 (filter_by_keys fnmatch keys
                                    (merged_variables home w from_shell))
                                 (merged_variables home w to_shell) with
                         | [] => plan
                         | changes => dict_set to_shell changes plan
                         end)
                    acc to_shells = acc) as Hfold.
    { induction to_shells as [|s l IH]; intros acc; [done|].
      cbn [foldl].
      rewrite IH by (intros to n v Hto; apply H; by right).
      destruct (bool_decide (s = from_shell)) eqn:Es; [done|].
      apply bool_decide_eq_false in Es.
      rewrite changes_for_nil; [done | |].
      - apply filter_by_keys_NoDup, merged_variables_NoDup.
      - intros n v [Hv _]%filtered_source_get. apply H; [left | done | done]. }
    apply Hfold. }
  unfold sync_variables.
  destruct (merged_variables home w from_shell) as [|kv l] eqn:E; [done|].
  destruct (filter_by_keys fnmatch keys (kv :: l)) as [|kv' l'] eqn:E';
    [done|].
  by rewrite (Hplan (kv' :: l')).
Qed.

Lemma sync_in_sync_is_noop_witness :
  sync_variables demo_home (fun _ _ => true) demo_self world_two_definitions
    ZSH [ZSH] None false
  = (true, world_two_definitions).
Proof.
  apply (sync_in_sync_is_noop demo_home (fun _ _ => true) demo_self
           world_two_definitions ZSH [ZSH] None false).
  intros to_shell n v Hin Hne. apply list_elem_of_singleton in Hin.
  congruence.
Defined.

Lemma changes_fold_old shell_vars l acc n c :
  (n, c) ∈ foldl (change_step shell_vars) acc l ->
  (n, c) ∈ acc \/ c.2 = default not_set (dict_get n shell_vars).
Proof.
  revert acc. induction l as [|[n0 v0] l IH]; intros acc; [by left|].
  cbn [foldl]. intros [H | H]%IH; [|by right].
  unfold change_step in H. destruct (bool_decide _); [by left|].
  apply dict_set_elem in H as [[= -> ->] | H]; [by right | by left].
Qed.

Lemma sync_plan_elem home w from_shell to_shells source_vars to changes :
  forall acc,
    (to, changes)
    ∈ foldl (fun plan to_shell =>
               if bool_decide (to_shell = from_shell) then plan
               else
                 match changes_for source_vars
                         (merged_variables home w to_shell) with
                 | [] => plan
                 | changes => dict_set to_shell changes plan
                 end)
            acc to_shells ->
    (to, changes) ∈ acc
    \/ (to ∈ to_shells /\ to <> from_shell /\ changes <> []
        /\ changes
           = changes_for source_vars (merged_variables home w to)).
Proof.
  induction to_shells as [|s l IH]; intros acc; [by left|].
  cbn [foldl]. intros [H | (H1 & H2 & H3 & H4)]%IH.
  - destruct (bool_decide (s = from_shell)) eqn:Es; [by left|].
    apply bool_decide_eq_false in Es.
    destruct (changes_for source_vars (merged_variables home w s))
      as [|ch chs] eqn:Ech; [by left|].
    apply dict_set_elem in H as [[= -> ->] | H]; [|by left].
    right. split; [left|]. split; [done|]. split; [done|]. done.
  - right. split; [by right | done].
Qed.

(** X16.  Every entry of the plan that [sync_variables] computes is for a
    listed shell other than the source, and is not empty; each of its
    changes names a variable of the source shell once, with the value it
    has there as new value, a value that the destination does not have,
    and the destination's value, or ["[not set]"], as old value; with
    patterns, the name matches one of them. *)
Theorem plan_is_sound home fnmatch w from_shell to_shells keys to_shell
    changes :
  dict_get to_shell (plan_of home fnmatch w from_shell to_shells keys)
  = Some changes ->
  to_shell ∈ to_shells /\ to_shell <> from_shell /\ changes <> []
  /\ NoDup changes.*1
  /\ forall n new_value old_value,
       dict_get n changes = Some (new_value, old_value) ->
       dict_get n (merged_variables home w from_shell) = Some new_value
       /\ dict_get n (merged_variables home w to_shell) <> Some new_value
       /\ old_value
          = default not_set
                    (dict_get n (merged_variables home w to_shell))
       /\ forall pats, keys = Some pats -> pats <> [] ->
                       existsb (fnmatch n) pats = true.
Proof.
  intros H%dict_get_Some_elem. unfold plan_of, sync_plan in H.
  apply sync_plan_elem in H as [H%elem_of_nil | (H1 & H2 & H3 & ->)];
    [done|].
  split; [done|]. split; [done|]. split; [done|].
  split; [apply changes_for_NoDup|].
  intros n new_value old_value Hn%dict_get_Some_elem.
  pose proof (changes_fold_old _ _ _ _ _ Hn) as [Hold%elem_of_nil | Hold];
    [done|].
  apply changes_for_elem in Hn as [Hsrc Hdst].
  2:{ apply filter_by_keys_NoDup, merged_variables_NoDup. }
  cbn [fst snd] in *. apply filtered_source_get in Hsrc as [Hsrc Hpat].
  done.
Qed.

Lemma plan_is_sound_witness :
  BASH ∈ [BASH] /\ BASH <> ZSH
  /\ [(lit "X", (lit "3", lit "2"))] <> []
  /\ NoDup [(lit "X", (lit "3", lit "2"))].*1
  /\ forall n new_value old_value,
       dict_get n [(lit "X", (lit "3", lit "2"))]
       = Some (new_value, old_value) ->
       dict_get n (merged_variables demo_home world_two_definitions ZSH)
       = Some new_value
       /\ dict_get n (merged_variables demo_home world_two_definitions BASH)
          <> Some new_value
       /\ old_value
          = default not_set
              (dict_get n
                 (merged_variables demo_home world_two_definitions BASH))
       /\ forall pats : list str,
            None = Some pats -> pats <> [] ->
            existsb (fun _ : str => true) pats = true.
Proof.
  apply (plan_is_sound demo_home (fun _ _ => true) world_two_definitions ZSH
           [BASH] None BASH [(lit "X", (lit "3", lit "2"))]).
  reflexivity.
Defined.

(** ** The primary file *)

Lemma config_files_NoDup home shell : NoDup (config_files home shell).
Proof.
  assert (forall a b, a <> b -> joinpath home a <> joinpath home b) as Hj.
  { intros a b Hab H. unfold joinpath in H. apply app_inv_head in H.
    by injection H. }
  destruct shell; cbn [config_files];
    repeat (apply NoDup_cons; split;
            [rewrite ?elem_of_cons, ?elem_of_nil;
             intros H; repeat destruct H as [H | H]; try done;
             by apply Hj in H
            |]);
    apply NoDup_nil_2.
Qed.

(** X17.  [get_primary_config_file] returns a candidate file of the
    shell: the first that exists, the world being left as it is; or,
    when none exists, the first candidate, which outside dry-run mode is
    created empty, no other file changing.  Outside dry-run mode the file
    returned exists afterwards, and a second call returns it again and
    changes nothing. *)
Theorem primary_config_file home self w shell :
  (get_primary_config_file home self w shell).1 ∈ config_files home shell
  /\ only_empty_files_added w (get_primary_config_file home self w shell).2
  /\ (forall e es,
        find_existing_config_files home w shell = e :: es ->
        get_primary_config_file home self w shell = (e, w))
  /\ (find_existing_config_files home w shell = [] ->
      head (config_files home shell)
      = Some (get_primary_config_file home self w shell).1)
  /\ (dry_run self = false ->
      file_exists (get_primary_config_file home self w shell).2
                  (get_primary_config_file home self w shell).1 = true
      /\ get_primary_config_file home self
           (get_primary_config_file home self w shell).2 shell
         = get_primary_config_file home self w shell).
Proof.
  destruct (find_existing_config_files home w shell) as [|e es] eqn:E.
  - destruct (config_files_head home shell) as (q & qs & Hq).
    assert (get_primary_config_file home self w shell
            = (q, if dry_run self then w else touch w q)) as Hr.
    { unfold get_primary_config_file. by rewrite E, Hq. }
    rewrite Hr, Hq. cbn [head fst snd].
    split; [left|]. split.
    { destruct (dry_run self);
        [apply only_empty_files_added_refl | apply touch_only_empty]. }
    split; [done|]. split; [done|]. intros Hd. rewrite Hd.
    assert (file_exists w q = false) as Hq0.
    { apply (filter_nil_inv _ _ _ E). rewrite Hq. left. }
    assert (file_exists (touch w q) q = true) as Hq1.
    { unfold touch. rewrite Hq0. unfold file_exists. cbn.
      by rewrite lookup_insert_eq. }
    split; [done|]. unfold get_primary_config_file.
    assert (find_existing_config_files home (touch w q) shell = [q])
      as ->; [|done].
    unfold find_existing_config_files in *. rewrite Hq in *.
    cbn [List.filter] in *. rewrite Hq1. rewrite Hq0 in E. f_equal.
    apply filter_none. intros p Hp.
    pose proof (filter_nil_inv _ _ _ E Hp) as Hp0.
    unfold touch. rewrite Hq0. unfold file_exists in *. cbn.
    destruct (decide (q = p)) as [-> | Hne].
    + pose proof (config_files_NoDup home shell) as Hnd.
      rewrite Hq in Hnd. apply NoDup_cons in Hnd as [Hnd _]. done.
    + by rewrite lookup_insert_ne.
  - assert (get_primary_config_file home self w shell = (e, w)) as Hr.
    { unfold get_primary_config_file. by rewrite E. }
    rewrite Hr. cbn [fst snd].
    assert (e ∈ find_existing_config_files home w shell) as Hin.
    { rewrite E. left. }
    apply existing_is_candidate in Hin as [Hc Hex].
    split; [done|]. split; [apply only_empty_files_added_refl|].
    split; [by intros ? ? [= <- <-]|]. split; [done|].
    intros _. by split.
Qed.
(** ** The archive that [create_backup] writes *)

Lemma has_suffix_app pat s : has_suffix pat (s ++ pat) = true.
Proof.
  unfold has_suffix, has_prefix. by rewrite reverse_app, literal_app.
Qed.

Lemma is_backup_file_created self timestamp :
  contains SLASH timestamp = false ->
  is_backup_file self (joinpath (backup_dir self) (backup_name timestamp))
  = true.
Proof.
  intros Hts. unfold is_backup_file, joinpath.
  rewrite app_assoc, literal_app. unfold backup_name.
  rewrite !contains_app, Hts. cbn [orb negb andb].
  replace (contains SLASH (lit "backup_")) with false by done.
  replace (contains SLASH (lit ".zip")) with false by done.
  cbn [orb negb andb]. unfold has_prefix. rewrite literal_app.
  rewrite app_assoc, has_suffix_app. cbn [andb].
  apply Nat.leb_le. rewrite !length_app. cbn [length lit]. 
  change (length (lit "backup_")) with 7%nat.
  change (length (lit ".zip")) with 4%nat. lia.
Qed.

Lemma dict_set_keys_elem {K V} `{EqDecision K} (k k' : K) (v : V) d :
  k' ∈ (dict_set k v d).*1 <-> k' = k \/ k' ∈ d.*1.
Proof.
  rewrite dict_set_keys. destruct (decide (k ∈ d.*1)) as [Hin | Hnin].
  - split; [by right | intros [-> | ?]; done].
  - rewrite elem_of_app, list_elem_of_singleton. tauto.
Qed.

(** X18.  When [create_backup] returns a path, backups are enabled and
    the mode is not dry-run; the path is that of the archive named after
    the clock, in the backup directory, where [glob] finds it; no file
    changes and no other archive changes; the archive holds, under its
    base name, the content of every listed file that exists, and nothing
    else, and its metadata record the clock, the listed paths and the
    message, or the default message when none is given. *)
Theorem create_backup_contents self w files_to_backup message path w' :
  create_backup self w files_to_backup message = (Some path, w') ->
  backup_enabled self = true /\ dry_run self = false
  /\ path = joinpath (backup_dir self) (backup_name (clock w))
  /\ files w' = files w
  /\ (forall q, q <> path ->
        dict_get q (archives w') = dict_get q (archives w))
  /\ (contains SLASH (clock w) = false -> path ∈ glob_backups self w')
  /\ exists a,
       dict_get path (archives w') = Some a
       /\ arc_metadata a
          = Some (Metadata (clock w) files_to_backup
                           (message_or_default message))
       /\ (forall p c, p ∈ files_to_backup -> files w !! p = Some c ->
             (basename p, c) ∈ arc_entries a)
       /\ (forall n c, (n, c) ∈ arc_entries a ->
             exists p, p ∈ files_to_backup /\ files w !! p = Some c
                       /\ n = basename p).
Proof.
  unfold create_backup.
  destruct (backup_enabled self), (dry_run self); try done.
  cbn [negb orb]. destruct (zip_fails w); [done|]. intros [= <- <-].
  split; [done|]. split; [done|]. split; [done|]. split; [done|].
  split.
  { intros q Hq. cbn. rewrite dict_get_set. by rewrite decide_False. }
  split.
  { intros Hts. unfold glob_backups. apply list_elem_of_In, filter_In.
    split; [|by apply is_backup_file_created].
    apply list_elem_of_In. cbn. apply dict_set_keys_elem. by left. }
  eexists. split.
  { cbn. rewrite dict_get_set. by rewrite decide_True. }
  cbn [arc_metadata arc_entries]. split; [done|]. split.
  - intros p c Hp Hc. apply list_elem_of_In, in_flat_map. exists p.
    split; [by apply list_elem_of_In|]. rewrite Hc. by left.
  - intros n c (p & Hp & Hin)%list_elem_of_In%in_flat_map. exists p.
    split; [by apply list_elem_of_In|].
    destruct (files w !! p) as [c'|]; [|done].
    destruct Hin as [[= <- <-] | []]. done.
Qed.

Lemma create_backup_contents_witness :
  backup_enabled demo_self = true /\ dry_run demo_self = false
  /\ demo_archive_path
     = joinpath (backup_dir demo_self) (backup_name (clock world_two_files))
  /\ files (create_backup demo_self world_two_files
              [demo_bashrc; demo_zshrc] None).2
     = files world_two_files
  /\ (forall q, q <> demo_archive_path ->
        dict_get q (archives (create_backup demo_self world_two_files
                                [demo_bashrc; demo_zshrc] None).2)
        = dict_get q (archives world_two_files))
  /\ (contains SLASH (clock world_two_files) = false ->
      demo_archive_path
      ∈ glob_backups demo_self
          (create_backup demo_self world_two_files
             [demo_bashrc; demo_zshrc] None).2)
  /\ exists a,
       dict_get demo_archive_path
                (archives (create_backup demo_self world_two_files
                             [demo_bashrc; demo_zshrc] None).2)
       = Some a
       /\ arc_metadata a
          = Some (Metadata (clock world_two_files) [demo_bashrc; demo_zshrc]
                           (message_or_default None))
       /\ (forall p c, p ∈ [demo_bashrc; demo_zshrc] ->
             files world_two_files !! p = Some c ->
             (basename p, c) ∈ arc_entries a)
       /\ (forall n c, (n, c) ∈ arc_entries a ->
             exists p, p ∈ [demo_bashrc; demo_zshrc]
                       /\ files world_two_files !! p = Some c
                       /\ n = basename p).
Proof.
  apply (create_backup_contents demo_self world_two_files
           [demo_bashrc; demo_zshrc] None demo_archive_path).
  reflexivity.
Defined.

(** ** What a restore writes *)

Lemma restore_target_inj home a b :
  restore_target home a = restore_target home b -> a = b.
Proof.
  unfold restore_target, joinpath. intros H%app_inv_head. by injection H.
Qed.

(** The loop of the restore when it reaches its end. *)
Lemma restore_entries_done home zf names :
  forall w w',
    restore_entries home zf w names = (true, w') ->
    archives w' = archives w
    /\ (forall name, name ∈ names ->
          files w' !! restore_target home name = Some (zip_read zf name))
    /\ (forall q,
          (forall name, name ∈ names -> q <> restore_target home name) ->
          files w' !! q = files w !! q).
Proof.
  induction names as [|n names IH]; intros w w'; cbn [restore_entries].
  { intros [= <-]. split; [done|]. split; [by intros ? ?%elem_of_nil | done]. }
  unfold write_bytes.
  destruct (bool_decide (restore_target home n ∈ unwritable w)); [done|].
  intros (H1 & H2 & H3)%IH. split; [done|]. split.
  - intros name Hname.
    destruct (decide (name ∈ names)) as [Hin | Hnin]; [by apply H2|].
    apply elem_of_cons in Hname as [-> | ?]; [|done].
    rewrite H3.
    + cbn. by rewrite lookup_insert_eq.
    + intros name Hname ?%restore_target_inj. by subst.
  - intros q Hq. rewrite H3.
    + cbn. rewrite lookup_insert_ne; [done|]. intros <-.
      by apply (Hq n); [left|].
    + intros name Hname. apply Hq. by right.
Qed.

(** An id that is the path of a directory, or the empty id, which is
    the current directory, is taken for the archive itself: the restore
    fails, although the id is part of the path of an archive. *)
Example restore_of_a_directory :
  is_substring (backup_dir demo_self) demo_archive_path = true
  /\ restore_backup demo_home demo_self world_with_directories
       (backup_dir demo_self)
     = (false, world_with_directories)
  /\ restore_backup demo_home demo_self world_with_directories []
     = (false, world_with_directories)
  /\ (restore_backup demo_home demo_self world_with_directories
        (lit "20240101")).1 = true.
Proof. vm_compute. repeat split. Qed.

(** X19.  When [restore_backup] returns [True] outside dry-run mode, an
    archive was found for the id; every entry of it other than the
    metadata is then in the home directory, under its name with a dot
    before it, with the content that the archive reads for that name;
    and no other file has changed. *)
Theorem restore_writes_entries home self w backup_id w' :
  dry_run self = false ->
  restore_backup home self w backup_id = (true, w') ->
  exists backup_path zf,
    find_backup self w backup_id = Some backup_path
    /\ dict_get backup_path (archives w') = Some zf
    /\ (forall name, name ∈ restored_names zf ->
          files w' !! restore_target home name = Some (zip_read zf name))
    /\ (forall q,
          (forall name, name ∈ restored_names zf ->
                        q <> restore_target home name) ->
          files w' !! q = files w !! q).
Proof.
  intros Hd. unfold restore_backup. rewrite Hd.
  destruct (find_backup self w backup_id) as [backup_path|]; [|done].
  destruct (dict_get backup_path (archives w)) as [zf|]; [|done].
  set (w1 := match List.filter _ _ with [] => w | _ :: _ => _ end).
  assert (files w1 = files w) as Hw1.
  { subst w1. destruct (List.filter _ _); [done|].
    apply create_backup_same_files. }
  destruct (dict_get backup_path (archives w1)) as [zf1|] eqn:E1; [|done].
  intros (H1 & H2 & H3)%restore_entries_done. exists backup_path, zf1.
  split; [done|]. split; [by rewrite H1|]. split; [done|].
  intros q Hq. by rewrite H3, Hw1.
Qed.

Lemma restore_writes_entries_witness :
  exists backup_path zf,
    find_backup demo_self world_after_change demo_archive_path
    = Some backup_path
    /\ dict_get backup_path (archives world_after_restore) = Some zf
    /\ (forall name, name ∈ restored_names zf ->
          files world_after_restore !! restore_target demo_home name
          = Some (zip_read zf name))
    /\ (forall q,
          (forall name, name ∈ restored_names zf ->
                        q <> restore_target demo_home name) ->
          files world_after_restore !! q = files world_after_change !! q).
Proof.
  apply (restore_writes_entries demo_home demo_self world_after_change
           demo_archive_path world_after_restore);
    reflexivity.
Defined.
(** ** Export and import: one line of a [.env] file *)

Lemma dropwhile_app_stop {A} (p : A -> bool) l x r :
  p x = false -> dropwhile p (l ++ x :: r) = dropwhile p l ++ x :: r.
Proof.
  intros Hx. induction l as [|y l IH]; cbn [app dropwhile].
  - by rewrite Hx.
  - by destruct (p y).
Qed.

Lemma rstrip_after s c v :
  is_space c = false -> rstrip (s ++ c :: v) = s ++ c :: rstrip v.
Proof.
  intros Hc. unfold rstrip.
  rewrite reverse_app, reverse_cons, <- app_assoc. cbn [app].
  rewrite dropwhile_app_stop by done.
  rewrite reverse_app, reverse_cons, reverse_involutive, <- app_assoc.
  done.
Qed.

Lemma rstrip_LF v : rstrip (v ++ [LF]) = rstrip v.
Proof.
  unfold rstrip. rewrite reverse_app, reverse_singleton. done.
Qed.

Lemma rstrip_prefix s : exists b, s = rstrip s ++ b.
Proof.
  unfold rstrip. exists (reverse (takewhile is_space (reverse s))).
  rewrite <- reverse_app, take_drop_while. by rewrite reverse_involutive.
Qed.

Lemma rstrip_elem_of x s : x ∈ rstrip s -> x ∈ s.
Proof.
  intros H. destruct (rstrip_prefix s) as [b Hb]. rewrite Hb.
  apply elem_of_app. by left.
Qed.

Lemma rstrip_length s :
  (length (rstrip s) <= length s)%nat
  /\ (length (rstrip s) = length s -> rstrip s = s).
Proof.
  destruct (rstrip_prefix s) as [b Hb]. split.
  - rewrite Hb at 2. rewrite length_app. lia.
  - intros Hl. rewrite Hb in Hl at 2. rewrite length_app in Hl.
    destruct b; [|cbn [length] in Hl; lia].
    by rewrite app_nil_r in Hb.
Qed.

Lemma removelast_length {A} (l : list A) :
  (length (removelast l) <= length l)%nat.
Proof.
  induction l as [|x [|y l] IH]; cbn [removelast length] in *; lia.
Qed.

Lemma strip_quotes_length v : (length (strip_quotes v) <= length v)%nat.
Proof.
  unfold strip_quotes, slice_1_m1. destruct (_ || _); [|done].
  etrans; [apply removelast_length|]. destruct v; cbn [tail length]; lia.
Qed.

Lemma replace_char_elem_of c new s x :
  x ∈ replace_char c new s -> x ∈ new \/ x ∈ s.
Proof.
  unfold replace_char. induction s as [|y s IH]; cbn [flat_map].
  { by intros ?%elem_of_nil. }
  intros [H | H]%elem_of_app.
  - destruct (y =? c); [by left|].
    apply list_elem_of_singleton in H as ->. right. left.
  - destruct (IH H); [by left | right; by right].
Qed.

Lemma replace_char_gone c new s :
  c ∉ new -> c ∉ replace_char c new s.
Proof.
  intros Hn. unfold replace_char. induction s as [|y s IH]; cbn [flat_map].
  { by intros ?%elem_of_nil. }
  intros [H | H]%elem_of_app; [|done].
  destruct (N.eqb_spec y c) as [-> | Hne]; [done|].
  by apply list_elem_of_singleton in H.
Qed.

Lemma replace_char_keeps c new s x :
  x <> c -> x ∈ s -> x ∈ replace_char c new s.
Proof.
  intros Hx. unfold replace_char. induction s as [|y s IH]; cbn [flat_map].
  { by intros ?%elem_of_nil. }
  intros [-> | H]%elem_of_cons; apply elem_of_app.
  - left. destruct (N.eqb_spec y c); [done | left].
  - right. auto.
Qed.

Lemma replace_char_length c new s :
  (1 <= length new)%nat ->
  (length s <= length (replace_char c new s))%nat.
Proof.
  intros Hn. unfold replace_char. induction s as [|y s IH]; cbn [flat_map].
  { done. }
  rewrite length_app. cbn [length]. destruct (y =? c); cbn [length]; lia.
Qed.

Lemma replace_char_longer c new s :
  (2 <= length new)%nat -> c ∈ s ->
  (length s < length (replace_char c new s))%nat.
Proof.
  intros Hn. unfold replace_char. induction s as [|y s IH]; cbn [flat_map].
  { by intros ?%elem_of_nil. }
  rewrite length_app. cbn [length].
  pose proof (replace_char_length c new s) as Hle. unfold replace_char in Hle.
  intros [-> | H]%elem_of_cons.
  - rewrite N.eqb_refl. lia.
  - specialize (IH H). destruct (y =? c); cbn [length]; lia.
Qed.

Lemma env_escape_longer value :
  env_needs_quotes value = true ->
  (length value < length (env_escape value))%nat.
Proof.
  unfold env_needs_quotes, env_escape.
  set (v1 := replace_char BACKSLASH [BACKSLASH; BACKSLASH] value).
  set (v2 := replace_char DQUOTE [BACKSLASH; DQUOTE] v1).
  assert (length value <= length v1)%nat as H1.
  { apply replace_char_length. cbn [length]. lia. }
  assert (length v1 <= length v2)%nat as H2.
  { apply replace_char_length. cbn [length]. lia. }
  assert (length v2 <= length (replace_char LF (BACKSLASH :: lit "n") v2))%nat
    as H3.
  { apply replace_char_length. cbn [length]. lia. }
  intros [[Hq | Hl]%orb_true_iff | Hb]%orb_true_iff.
  - apply contains_elem_of in Hq.
    assert (length v1 < length v2)%nat; [|lia].
    apply replace_char_longer; [cbn [length]; lia|].
    by apply replace_char_keeps.
  - apply contains_elem_of in Hl.
    assert (length v2 < length (replace_char LF (BACKSLASH :: lit "n") v2))%nat;
      [|lia].
    apply replace_char_longer; [cbn [length lit]; vm_compute; lia|].
    apply replace_char_keeps; [done|]. by apply replace_char_keeps.
  - apply contains_elem_of in Hb.
    assert (length value < length v1)%nat; [|lia].
    apply replace_char_longer; [cbn [length]; lia | done].
Qed.

Lemma env_escape_elem_of x value :
  x ∈ env_escape value ->
  x <> LF /\ (x = BACKSLASH \/ x = DQUOTE \/ x = 110 \/ x ∈ value).
Proof.
  intros H. split.
  - intros ->. revert H. apply replace_char_gone.
    rewrite list_elem_of_In. vm_compute. intros [? | [? | []]]; done.
  - unfold env_escape in H.
    apply replace_char_elem_of in H as [H | H].
    { apply list_elem_of_In in H. vm_compute in H.
      destruct H as [<- | [<- | []]]; auto. }
    apply replace_char_elem_of in H as [H | H].
    { apply list_elem_of_In in H. cbn [In] in H.
      destruct H as [<- | [<- | []]]; auto. }
    apply replace_char_elem_of in H as [H | H].
    { apply list_elem_of_In in H. cbn [In] in H.
      destruct H as [<- | [<- | []]]; auto. }
    auto.
Qed.

Lemma ident_start_not_HASH c : is_ident_start c = true -> (c =? HASH) = false.
Proof.
  intros H. apply N.eqb_neq. intros ->. vm_compute in H. done.
Qed.

(** What the [.env] reader gives for a written line. *)
Lemma env_parse_env_line name value :
  is_identifier name = true ->
  env_parse_line (env_line name value)
  = Some (name, if env_needs_quotes value then env_escape value
                else strip_quotes (rstrip value)).
Proof.
  intros Hn. pose proof Hn as (c & r & -> & Hc & Hr)%is_identifier_inv.
  assert (is_space c = false) as Hsp
    by by apply ident_char_not_space, ident_start_is_ident_char.
  unfold env_parse_line, env_line.
  destruct (env_needs_quotes value) eqn:Hq.
  - replace ((c :: r) ++ [EQUALS; DQUOTE] ++ env_escape value
             ++ [DQUOTE; LF])
      with (c :: (r ++ EQUALS :: DQUOTE :: env_escape value)
              ++ DQUOTE :: [LF]).
    2:{ cbn [app]. by rewrite <- !app_assoc. }
    unfold strip. rewrite lstrip_id by done.
    rewrite app_comm_cons, rstrip_after by done.
    change (rstrip [LF]) with (@nil N). cbn zeta.
    rewrite <- app_comm_cons. rewrite bool_decide_false by done.
    cbn [startswith]. rewrite ident_start_not_HASH by done.
    cbn [negb andb].
    replace (c :: (r ++ EQUALS :: DQUOTE :: env_escape value) ++ [DQUOTE])
      with ((c :: r) ++ EQUALS :: (DQUOTE :: env_escape value ++ [DQUOTE])
              ++ []).
    2:{ cbn [app]. rewrite app_nil_r, <- !app_assoc. done. }
    rewrite assignment_match by done.
    rewrite rest_Some; [| |by left].
    + cbn [mbind option_bind]. by rewrite strip_quotes_quoted.
    + apply contains_false. intros [? | H]%elem_of_cons; [done|].
      apply elem_of_app in H as [H | H%list_elem_of_singleton]; [|done].
      by apply env_escape_elem_of in H as [? _].
  - replace ((c :: r) ++ [EQUALS] ++ value ++ [LF])
      with (c :: r ++ EQUALS :: (value ++ [LF])) by done.
    unfold strip. rewrite lstrip_id by done.
    rewrite app_comm_cons, rstrip_after, rstrip_LF by done. cbn zeta.
    rewrite <- app_comm_cons. rewrite bool_decide_false by done.
    cbn [startswith]. rewrite ident_start_not_HASH by done.
    cbn [negb andb].
    replace (c :: r ++ EQUALS :: rstrip value)
      with ((c :: r) ++ EQUALS :: rstrip value ++ [])
      by by rewrite app_nil_r.
    rewrite assignment_match by done.
    rewrite rest_Some; [done | | by left].
    apply contains_false. intros H%rstrip_elem_of.
    unfold env_needs_quotes in Hq.
    apply orb_false_iff in Hq as [[_ Hl]%orb_false_iff _].
    by apply contains_false in Hl.
Qed.

(** X20.  For a name that is an identifier, the [.env] reader finds in
    the line written for [(name, value)] the same name, and as its value
    the escaped text when the value was quoted, the value without its
    trailing whitespace and its quotes otherwise: nothing undoes the
    escaping.  So the value comes back as it was exactly when it holds
    no double quote, no line feed and no backslash, does not end with
    whitespace and is not wrapped in quotes. *)
Theorem env_line_read_back name value :
  is_identifier name = true ->
  env_parse_line (env_line name value)
  = Some (name, if env_needs_quotes value then env_escape value
                else strip_quotes (rstrip value))
  /\ (env_parse_line (env_line name value) = Some (name, value)
      <-> env_needs_quotes value = false /\ rstrip value = value
          /\ strip_quotes value = value).
Proof.
  intros Hn. rewrite env_parse_env_line by done. split; [done|].
  destruct (env_needs_quotes value) eqn:Hq.
  - split; [|by intros [? _]]. intros [= H].
    apply env_escape_longer in Hq. rewrite H in Hq. lia.
  - split.
    + intros [= H]. split; [done|].
      assert (rstrip value = value) as Hr.
      { apply rstrip_length.
        pose proof (strip_quotes_length (rstrip value)) as H1.
        pose proof (proj1 (rstrip_length value)) as H2.
        rewrite H in H1. lia. }
      split; [done|]. by rewrite Hr in H.
    + intros (_ & -> & ->). done.
Qed.

Lemma env_line_read_back_witness :
  env_parse_line (env_line (lit "GREETING") (lit "a b"))
  = Some (lit "GREETING",
          if env_needs_quotes (lit "a b") then env_escape (lit "a b")
          else strip_quotes (rstrip (lit "a b")))
  /\ (env_parse_line (env_line (lit "GREETING") (lit "a b"))
      = Some (lit "GREETING", lit "a b")
      <-> env_needs_quotes (lit "a b") = false
          /\ rstrip (lit "a b") = lit "a b"
          /\ strip_quotes (lit "a b") = lit "a b").
Proof.
  apply (env_line_read_back (lit "GREETING") (lit "a b")). reflexivity.
Defined.

(** A value with a backslash comes back with two. *)
Example env_backslash_doubled :
  env_parse_line (env_line (lit "P") (lit "C:" ++ [BACKSLASH] ++ lit "bin"))
  = Some (lit "P", lit "C:" ++ [BACKSLASH; BACKSLASH] ++ lit "bin").
Proof. reflexivity. Qed.
(** ** Export and import: the whole file *)

Lemma insert_sorted_Permutation x l : insert_sorted x l ≡ₚ x :: l.
Proof.
  induction l as [|y l IH]; cbn [insert_sorted]; [done|].
  destruct (item_leb x y); [done|]. rewrite IH. apply Permutation_swap.
Qed.

Lemma sorted_Permutation items : sorted items ≡ₚ items.
Proof.
  unfold sorted. induction items as [|x l IH]; cbn [foldr]; [done|].
  by rewrite insert_sorted_Permutation, IH.
Qed.

Lemma dict_get_Permutation {K V} `{EqDecision K} (k : K) (l l' : dict K V) :
  NoDup l.*1 -> l ≡ₚ l' -> dict_get k l = dict_get k l'.
Proof.
  intros Hl Hp.
  assert (NoDup l'.*1) as Hl' by by rewrite <- Hp.
  destruct (dict_get k l) as [v|] eqn:E.
  - apply dict_get_Some_elem in E. rewrite Hp in E.
    symmetry. by apply dict_get_elem.
  - destruct (dict_get k l') as [v'|] eqn:E'; [|done].
    apply dict_get_Some_elem in E'. rewrite <- Hp in E'.
    apply dict_get_elem in E'; [congruence | done].
Qed.

Lemma dict_get_fmap_value {K V W} `{EqDecision K} (g : V -> W) (k : K)
    (l : dict K V) :
  dict_get k ((fun it => (it.1, g it.2)) <$> l) = g <$> dict_get k l.
Proof.
  induction l as [|[k0 v0] l IH]; [done|].
  cbn [fmap list_fmap dict_get fst snd]. by destruct (decide (k0 = k)).
Qed.

Lemma dict_set_fresh {K V} `{EqDecision K} (k : K) (v : V) d :
  k ∉ d.*1 -> dict_set k v d = d ++ [(k, v)].
Proof.
  induction d as [|[k0 v0] d IH]; [done|]. cbn [fmap list_fmap fst].
  intros [Hne Hd]%not_elem_of_cons. cbn [dict_set app].
  rewrite decide_False by done. by rewrite IH.
Qed.

Lemma dict_update_fresh {K V} `{EqDecision K} (d other : dict K V) :
  NoDup (d ++ other).*1 -> dict_update d other = d ++ other.
Proof.
  unfold dict_update. revert d.
  induction other as [|[k v] other IH]; intros d Hnd; cbn [foldl fst snd].
  { by rewrite app_nil_r. }
  rewrite dict_set_fresh.
  - rewrite IH; rewrite <- app_assoc; done.
  - rewrite fmap_app in Hnd. apply NoDup_app in Hnd as (_ & Hd & _).
    intros Hk. apply (Hd k Hk). left.
Qed.

(** The loop of the import over the lines written for [items], when
    [parse] reads each of them back with the value [g] of its value. *)
Lemma import_loop parse (render : str * str -> str) (g : str -> str) items d :
  (forall it, it ∈ items -> parse (render it) = Some (it.1, g it.2)) ->
  foldl (fun variables line =>
           match parse line with
           | Some (name, value) => dict_set name value variables
           | None => variables
           end)
        d (map render items)
  = dict_update d ((fun it => (it.1, g it.2)) <$> items).
Proof.
  unfold dict_update. revert d.
  induction items as [|it items IH]; intros d Hp; [done|].
  cbn [map fmap list_fmap foldl fst snd].
  rewrite Hp by left. apply IH. intros ? ?. apply Hp. by right.
Qed.

Lemma fmap_value_keys {K V W} (g : V -> W) (l : dict K V) :
  ((fun it => (it.1, g it.2)) <$> l).*1 = l.*1.
Proof. rewrite <- list_fmap_compose. done. Qed.

Lemma env_line_complete name value :
  is_identifier name = true -> contains CR value = false ->
  complete_line (env_line name value).
Proof.
  intros Hn Hcr%contains_false. unfold env_line.
  assert (LF ∉ name) as Hn1.
  { intros H. by apply (ident_char_not_LF LF (identifier_chars _ _ Hn H)). }
  assert (CR ∉ name) as Hn2.
  { intros H. by apply (ident_char_not_CR CR (identifier_chars _ _ Hn H)). }
  destruct (env_needs_quotes value) eqn:Hq.
  - exists (name ++ [EQUALS; DQUOTE] ++ env_escape value ++ [DQUOTE]).
    split; [by rewrite <- !app_assoc|].
    split; intros H; repeat (apply elem_of_app in H as [H | H]); try done.
    + apply list_elem_of_In in H. cbn [In] in H. by destruct H as [? | [? | []]].
    + by apply env_escape_elem_of in H as [? _].
    + by apply list_elem_of_singleton in H.
    + apply list_elem_of_In in H. cbn [In] in H. by destruct H as [? | [? | []]].
    + apply env_escape_elem_of in H as [_ [? | [? | [? | ?]]]]; done.
    + by apply list_elem_of_singleton in H.
  - exists (name ++ [EQUALS] ++ value).
    split; [by rewrite <- !app_assoc|].
    unfold env_needs_quotes in Hq.
    apply orb_false_iff in Hq as [[_ Hl%contains_false]%orb_false_iff _].
    split; intros H; repeat (apply elem_of_app in H as [H | H]); try done.
    + by apply list_elem_of_singleton in H.
    + by apply list_elem_of_singleton in H.
Qed.

(** X21.  Take variables whose names are identifiers and whose values
    hold no carriage return.  Reading the [.env] file exported for them
    gives the same names, in ascending order, each with its escaped
    value when the export quoted it and with its value without trailing
    whitespace and quotes otherwise. *)
Theorem export_import_env shell_vars :
  NoDup shell_vars.*1 ->
  (forall name value, (name, value) ∈ shell_vars ->
     is_identifier name = true /\ contains CR value = false) ->
  import_env (export_env shell_vars)
  = (fun item =>
       (item.1, if env_needs_quotes item.2 then env_escape item.2
                else strip_quotes (rstrip item.2)))
    <$> sorted shell_vars
  /\ forall name,
       dict_get name (import_env (export_env shell_vars))
       = (fun value => if env_needs_quotes value then env_escape value
                       else strip_quotes (rstrip value))
         <$> dict_get name shell_vars.
Proof.
  intros Hnd Hvars.
  set (g := fun value : str =>
              if env_needs_quotes value then env_escape value
              else strip_quotes (rstrip value)).
  assert (forall it, it ∈ sorted shell_vars ->
            is_identifier it.1 = true /\ contains CR it.2 = false) as Hs.
  { intros [n v] Hin. rewrite sorted_Permutation in Hin. by apply Hvars. }
  assert (import_env (export_env shell_vars)
          = (fun it => (it.1, g it.2)) <$> sorted shell_vars) as Heq.
  { unfold import_env, import_with, export_env.
    rewrite readlines_concat.
    2:{ apply file_lines_complete, Forall_forall.
        intros l (it & <- & Hin)%list_elem_of_In%in_map_iff.
        apply list_elem_of_In, Hs in Hin as [? ?].
        by apply env_line_complete. }
    rewrite (import_loop env_parse_line
               (fun item => env_line item.1 item.2) g).
    2:{ intros it [? _]%Hs. by apply env_parse_env_line. }
    apply (dict_update_fresh []). cbn [app].
    rewrite fmap_value_keys, sorted_Permutation. done. }
  split; [done|]. intros name. rewrite Heq.
  rewrite (dict_get_fmap_value g). f_equal.
  apply dict_get_Permutation; [|apply sorted_Permutation].
  by rewrite sorted_Permutation.
Qed.

Lemma export_import_env_witness :
  import_env (export_env demo_vars)
  = (fun item =>
       (item.1, if env_needs_quotes item.2 then env_escape item.2
                else strip_quotes (rstrip item.2)))
    <$> sorted demo_vars
  /\ forall name,
       dict_get name (import_env (export_env demo_vars))
       = (fun value => if env_needs_quotes value then env_escape value
                       else strip_quotes (rstrip value))
         <$> dict_get name demo_vars.
Proof.
  apply (export_import_env demo_vars).
  - apply (bool_decide_unpack _). by vm_compute.
  - intros name value H. apply list_elem_of_In in H. cbn [In demo_vars] in H.
    destruct H as [[= <- <-] | [[= <- <-] | []]]; split; reflexivity.
Defined.

Lemma shell_header_lines :
  exists lines,
    concat shell_header = concat lines
    /\ Forall complete_line lines
    /\ Forall (fun l => parse_export_line l = None) lines.
Proof.
  exists [lit "#!/bin/sh" ++ [LF];
          lit "# Exported environment variables" ++ [LF]; [LF]].
  split; [reflexivity|]. split.
  - constructor; [|constructor; [|constructor; [|constructor]]].
    + exists (lit "#!/bin/sh").
      split; [reflexivity|]. split; apply contains_false; reflexivity.
    + exists (lit "# Exported environment variables").
      split; [reflexivity|]. split; apply contains_false; reflexivity.
    + exists []. split; [reflexivity|].
      split; apply contains_false; reflexivity.
  - constructor; [|constructor; [|constructor; [|constructor]]];
      reflexivity.
Qed.

Lemma import_loop_skip (parse : str -> option (str * str)) lines ls d :
  Forall (fun l => parse l = None) lines ->
  foldl (fun variables line =>
           match parse line with
           | Some (name, value) => dict_set name value variables
           | None => variables
           end)
        d (lines ++ ls)
  = foldl (fun variables line =>
             match parse line with
             | Some (name, value) => dict_set name value variables
             | None => variables
             end)
          d ls.
Proof.
  induction 1 as [|l lines Hl _ IH]; [done|]. cbn [app foldl].
  by rewrite Hl.
Qed.

(** X22.  Take variables whose names are identifiers and whose values
    hold no line break.  Reading the shell script exported for them
    gives the same names, in ascending order, each with its value with
    a backslash before every double quote when the export quoted it, and
    with its value without the whitespace at its ends otherwise; the
    header of the script gives no variable. *)
Theorem export_import_shell shell_vars :
  NoDup shell_vars.*1 ->
  (forall name value, (name, value) ∈ shell_vars ->
     is_identifier name = true /\ no_line_break value = true) ->
  import_shell (export_shell shell_vars)
  = (fun item =>
       (item.1, if needs_quotes item.2 then escape_quotes item.2
                else strip item.2))
    <$> sorted shell_vars
  /\ forall name,
       dict_get name (import_shell (export_shell shell_vars))
       = (fun value => if needs_quotes value then escape_quotes value
                       else strip value)
         <$> dict_get name shell_vars.
Proof.
  intros Hnd Hvars.
  set (g := fun value : str =>
              if needs_quotes value then escape_quotes value
              else strip value).
  assert (forall it, it ∈ sorted shell_vars ->
            is_identifier it.1 = true /\ no_line_break it.2 = true) as Hs.
  { intros [n v] Hin. rewrite sorted_Permutation in Hin. by apply Hvars. }
  assert (import_shell (export_shell shell_vars)
          = (fun it => (it.1, g it.2)) <$> sorted shell_vars) as Heq.
  { unfold import_shell, import_with, export_shell.
    destruct shell_header_lines as (lines & Hc & Hcl & Hnone).
    rewrite concat_app, Hc, <- concat_app.
    rewrite readlines_concat.
    2:{ apply file_lines_complete, Forall_app. split; [done|].
        apply Forall_forall.
        intros l (it & <- & Hin)%list_elem_of_In%in_map_iff.
        apply list_elem_of_In, Hs in Hin as [? ?].
        by apply format_export_line_complete. }
    rewrite import_loop_skip by done.
    rewrite (import_loop parse_export_line
               (fun item => format_export_line item.1 item.2) g).
    2:{ intros it [Hi Hv]%Hs. rewrite parse_format by done.
        unfold no_line_break in Hv.
        apply andb_true_iff in Hv as [Hv%negb_true_iff _]. by rewrite Hv. }
    apply (dict_update_fresh []). cbn [app].
    rewrite fmap_value_keys, sorted_Permutation. done. }
  split; [done|]. intros name. rewrite Heq.
  rewrite (dict_get_fmap_value g). f_equal.
  apply dict_get_Permutation; [|apply sorted_Permutation].
  by rewrite sorted_Permutation.
Qed.

Lemma export_import_shell_witness :
  import_shell (export_shell demo_vars)
  = (fun item =>
       (item.1, if needs_quotes item.2 then escape_quotes item.2
                else strip item.2))
    <$> sorted demo_vars
  /\ forall name,
       dict_get name (import_shell (export_shell demo_vars))
       = (fun value => if needs_quotes value then escape_quotes value
                       else strip value)
         <$> dict_get name demo_vars.
Proof.
  apply (export_import_shell demo_vars).
  - apply (bool_decide_unpack _). by vm_compute.
  - intros name value H. apply list_elem_of_In in H. cbn [In demo_vars] in H.
    destruct H as [[= <- <-] | [[= <- <-] | []]]; split; reflexivity.
Defined.
(** ** A mutation without its snapshot *)












(** With an archiver that fails, [set_variable] and [remove_variable]
    still change the file, and leave no archive. *)
Lemma mutation_without_snapshot :
  set_variable demo_home demo_self world_failing_archiver
    (lit "X") (lit "2") [BASH] true None
  = (true,
     with_zip_fails true
       (demo_world {[ demo_bashrc := lit "export X=2" ++ [LF] ]}))
  /\ remove_variable demo_home demo_self world_failing_archiver
       (lit "X") [BASH] true
     = (true, with_zip_fails true (demo_world {[ demo_bashrc := [] ]})).
Proof. vm_compute. auto. Qed.
